(** * banzy/universe: gesture-driven particle field (script.js)

    A shallow embedding of the control logic of [script.js]: the shape
    templates and colour functions, [createParticles], [changeTemplate],
    [changeColor], [explodeUniverse], the gesture classifier
    ([isFingerExtended], [detectGesture], [smoothGesture]), the per-frame
    step [animate] and the pose callback [onResults].

    The functions are written once, over an interface [JSNumber] of the
    operations the script applies to JavaScript numbers, and read at two
    instances:
    - [Binary64]: IEEE 754 doubles (the kernel's primitive floats), with
      [Math.fround] for stores into a [Float32Array]: the numbers of the
      script, for the ranges of what it computes from draws in [0, 1) and
      for the behaviour at special values (0/0, NaN);
    - [Exact]: the real numbers, with binary rounding set aside, for what
      the formulas of the script mean (distances, limits) and for runs
      whose comparisons rounding does not change.
    The control flow (loops, errors, what is written where) is proved for
    every instance.

    Rendering (scene graph, camera, solar-system meshes, textures) and the
    DOM are outside the embedding. *)

From Stdlib Require Import String List Bool Arith ZArith QArith Lia.
From Stdlib Require Import Reals Lra.
From Stdlib Require Import Floats Uint63.
Import ListNotations.

Close Scope Q_scope.
Open Scope string_scope.
Open Scope list_scope.
Open Scope nat_scope.

Set Implicit Arguments.

(** ** JavaScript numbers *)

Declare Scope js_scope.
Delimit Scope js_scope with js.

(** The operations of the script on values of type Number.  [lit] reads a
    decimal literal of the source, [ofNat] a loop counter, [fround] is the
    conversion applied by a store into a [Float32Array], [NaN] the number
    that [undefined] converts to. *)
Class JSNumber (num : Type) : Type := {
  lit : Q -> num;
  ofNat : nat -> num;
  add : num -> num -> num;
  sub : num -> num -> num;
  mul : num -> num -> num;
  div : num -> num -> num;
  neg : num -> num;
  ltb : num -> num -> bool;
  leb : num -> num -> bool;
  strictEq : num -> num -> bool;
  fround : num -> num;
  NaN : num;
  Math_PI : num;
  Math_sqrt : num -> num;
  Math_abs : num -> num;
  Math_floor : num -> num;
  Math_sin : num -> num;
  Math_cos : num -> num;
  Math_acos : num -> num;
  Math_atan2 : num -> num -> num;
  Math_pow : num -> nat -> num;
  Math_max : num -> num -> num;
  Math_min : num -> num -> num
}.

Arguments lit {num _} q%_Q.

Infix "+" := add : js_scope.
Infix "-" := sub : js_scope.
Infix "*" := mul : js_scope.
Infix "/" := div : js_scope.
Notation "- x" := (neg x) : js_scope.
Infix "<?" := ltb : js_scope.
Infix "<=?" := leb : js_scope.
Notation "a >? b" := (ltb b a) : js_scope.
Notation "a >=? b" := (leb b a) : js_scope.
Infix "===" := strictEq (at level 70) : js_scope.
Notation "a !== b" := (negb (strictEq a b)) (at level 70) : js_scope.

(** *** Exact real arithmetic

    The reals have no NaN and no infinities: here a quotient by zero and
    the number read from [undefined] are 0.  Properties proved at this
    instance are stated where neither occurs. *)

Module Exact.

Definition Rltb (a b : R) : bool := if Rlt_dec a b then true else false.
Definition Rleb (a b : R) : bool := if Rle_dec a b then true else false.
Definition Reqb (a b : R) : bool := if Req_dec_T a b then true else false.

(** [Math.atan2 y x]: the angle of the point (x, y), in (-PI, PI]. *)
Definition Ratan2 (y x : R) : R :=
  if Rlt_dec 0 x then atan (y / x)
  else if Rlt_dec x 0 then
    (if Rle_dec 0 y then atan (y / x) + PI else atan (y / x) - PI)
  else if Rlt_dec 0 y then PI / 2
  else if Rlt_dec y 0 then - (PI / 2)
  else 0.

#[export] Instance number : JSNumber R := {|
  lit q := (IZR (Qnum q) / IZR (Zpos (Qden q)))%R;
  ofNat := INR;
  add := Rplus;
  sub := Rminus;
  mul := Rmult;
  div := Rdiv;
  neg := Ropp;
  ltb := Rltb;
  leb := Rleb;
  strictEq := Reqb;
  fround x := x;
  NaN := 0%R;
  Math_PI := PI;
  Math_sqrt := R_sqrt.sqrt;
  Math_abs := Rabs;
  Math_floor x := IZR (Int_part x);
  Math_sin := sin;
  Math_cos := cos;
  Math_acos := acos;
  Math_atan2 := Ratan2;
  Math_pow := pow;
  Math_max := Rmax;
  Math_min := Rmin
|}.

End Exact.

(** *** IEEE 754 binary64 *)

Module Binary64.

(** The functions of [Math] that ECMAScript leaves
    implementation-approximated.  The instance below adds the results the
    standard fixes at NaN and the infinities. *)
Record Libm : Type := {
  libm_sin : float -> float;
  libm_cos : float -> float;
  libm_acos : float -> float;
  libm_atan2 : float -> float -> float;
  libm_pow : float -> nat -> float
}.

Definition ofZ (z : Z) : float :=
  match z with
  | Z0 => PrimFloat.of_uint63 0
  | Zpos _ => PrimFloat.of_uint63 (Uint63.of_Z z)
  | Zneg p => PrimFloat.opp (PrimFloat.of_uint63 (Uint63.of_Z (Zpos p)))
  end.

(** A decimal literal n/10^k denotes the double nearest to it; the
    correctly rounded quotient of the two integers is that double. *)
Definition ofDecimal (q : Q) : float :=
  PrimFloat.div (ofZ (Qnum q)) (ofZ (Zpos (Qden q))).

(** [Math.fround]: round to nearest binary32 (24-bit significand,
    exponents up to 128), ties to even. *)
Definition Math_fround (x : float) : float :=
  match Prim2SF x with
  | S754_finite s m e =>
      SF2Prim (binary_normalize 24 128 (if s then Zneg m else Zpos m) e s)
  | _ => x
  end.

Definition is_neg_zero (a : float) : bool :=
  PrimFloat.eqb a PrimFloat.zero
  && PrimFloat.ltb (PrimFloat.div PrimFloat.one a) PrimFloat.zero.

Definition max (a b : float) : float :=
  if PrimFloat.is_nan a || PrimFloat.is_nan b then PrimFloat.nan
  else if PrimFloat.ltb a b then b
  else if PrimFloat.ltb b a then a
  else if is_neg_zero a then b else a.

Definition min (a b : float) : float :=
  if PrimFloat.is_nan a || PrimFloat.is_nan b then PrimFloat.nan
  else if PrimFloat.ltb a b then a
  else if PrimFloat.ltb b a then b
  else if is_neg_zero a then a else b.

Definition two52 : float := ofZ 4503599627370496.

(** [Math.floor]: below 2^52 in magnitude, adding and removing 2^52
    rounds to an integer, which is then corrected downwards. *)
Definition floor (x : float) : float :=
  let a := PrimFloat.abs x in
  if PrimFloat.ltb a two52 then
    let t := PrimFloat.sub (PrimFloat.add a two52) two52 in
    if PrimFloat.ltb x PrimFloat.zero then
      let u := if PrimFloat.ltb t a then PrimFloat.add t PrimFloat.one else t in
      PrimFloat.opp u
    else if PrimFloat.eqb x PrimFloat.zero then x
    else if PrimFloat.ltb a t then PrimFloat.sub t PrimFloat.one else t
  else x.

Definition special (x : float) : bool :=
  PrimFloat.is_nan x || PrimFloat.is_infinity x.

Definition number (L : Libm) : JSNumber float := {|
  lit := ofDecimal;
  ofNat n := ofZ (Z.of_nat n);
  add := PrimFloat.add;
  sub := PrimFloat.sub;
  mul := PrimFloat.mul;
  div := PrimFloat.div;
  neg := PrimFloat.opp;
  ltb := PrimFloat.ltb;
  leb := PrimFloat.leb;
  strictEq := PrimFloat.eqb;
  fround := Math_fround;
  NaN := PrimFloat.nan;
  Math_PI := ofDecimal 3.141592653589793;
  Math_sqrt := PrimFloat.sqrt;
  Math_abs := PrimFloat.abs;
  Math_floor := floor;
  Math_sin x := if special x then PrimFloat.nan else libm_sin L x;
  Math_cos x := if special x then PrimFloat.nan else libm_cos L x;
  Math_acos x := if PrimFloat.is_nan x then PrimFloat.nan else libm_acos L x;
  Math_atan2 y x :=
    if PrimFloat.is_nan y || PrimFloat.is_nan x then PrimFloat.nan
    else libm_atan2 L y x;
  Math_pow x n :=
    match n with
    | O => PrimFloat.one
    | _ => if PrimFloat.is_nan x then PrimFloat.nan else libm_pow L x n
    end;
  Math_max := max;
  Math_min := min
|}.

End Binary64.

(** ** Values of the script *)

(** The value of a gesture variable: one of the four strings that
    [detectGesture] returns.  The order of the constructors is the order of
    the keys of [counts] in [smoothGesture]. *)
Inductive gesture : Type := open | closed | neutral | peace.

Definition gesture_eqb (a b : gesture) : bool :=
  match a, b with
  | open, open | closed, closed | neutral, neutral | peace, peace => true
  | _, _ => false
  end.

(** An object with fields x, y, z: a [THREE.Vector3], and also a landmark
    of the pose source. *)
Module Vector3.
Record t (num : Type) : Type := make { x : num; y : num; z : num }.
Arguments make {num} x y z.
Arguments x {num} _.
Arguments y {num} _.
Arguments z {num} _.
End Vector3.

(** A [THREE.Color]: three unclamped channels. *)
Module Color.
Record t (num : Type) : Type := make { r : num; g : num; b : num }.
Arguments make {num} r g b.
Arguments r {num} _.
Arguments g {num} _.
Arguments b {num} _.
End Color.

(** A [THREE.Points] object with its geometry: the two buffer attributes,
    the transform, and whether it is shown and attached to the scene. *)
Module Points.
Record t (num : Type) : Type := make {
  positions : list num;
  colors : list num;
  rotation : Vector3.t num;
  scale : Vector3.t num;
  position : Vector3.t num;
  visible : bool;
  inScene : bool
}.
Arguments make {num}.
Arguments positions {num} _.
Arguments colors {num} _.
Arguments rotation {num} _.
Arguments scale {num} _.
Arguments position {num} _.
Arguments visible {num} _.
Arguments inScene {num} _.
End Points.

(** A [THREE.PointsMaterial]: the tint and the point size. *)
Module Material.
Record t (num : Type) : Type := make { color : Color.t num; size : num }.
Arguments make {num}.
Arguments color {num} _.
Arguments size {num} _.
End Material.

(** The glow mesh [sunCore]: its transform. *)
Module Mesh.
Record t (num : Type) : Type := make {
  scale : Vector3.t num;
  position : Vector3.t num;
  rotation : Vector3.t num;
  visible : bool
}.
Arguments make {num}.
Arguments scale {num} _.
Arguments position {num} _.
Arguments rotation {num} _.
Arguments visible {num} _.
End Mesh.

(** A JavaScript exception, by the [name] and [message] of the error
    object.  The script itself has no [throw]; the only errors are the
    ones the language raises. *)
Record JSError : Type := { name : string; message : string }.

Definition TypeError (msg : string) : JSError :=
  {| name := "TypeError"; message := msg |}.

(** ** Computations: state, exceptions, and loops that may not end *)

Inductive outcome (A : Type) : Type :=
| Return (a : A)
| Throw (e : JSError)
| OutOfFuel.

Arguments Return {A} a.
Arguments Throw {A} e.
Arguments OutOfFuel {A}.

(** A computation over a state [S]; the state outlives an exception, as the
    globals of the script do. *)
Definition M (S A : Type) : Type := S -> outcome A * S.

Definition ret {S A : Type} (a : A) : M S A := fun s => (Return a, s).

Definition throw {S A : Type} (e : JSError) : M S A := fun s => (Throw e, s).

Definition bind {S A B : Type} (m : M S A) (k : A -> M S B) : M S B :=
  fun s =>
    match m s with
    | (Return a, s') => k a s'
    | (Throw e, s') => (Throw e, s')
    | (OutOfFuel, s') => (OutOfFuel, s')
    end.

Definition get {S : Type} : M S S := fun s => (Return s, s).
Definition modify {S : Type} (f : S -> S) : M S unit := fun s => (Return tt, f s).

Declare Scope monad_scope.
Delimit Scope monad_scope with monad.
Notation "x <- m ;; k" := (bind m (fun x => k))
  (at level 61, m at next level, right associativity) : monad_scope.
Notation "m ;;; k" := (bind m (fun _ => k))
  (at level 61, right associativity) : monad_scope.

(** [for (let i = start; i < start + count; i++) acc = body(i, acc)] *)
Fixpoint forLoop {S A : Type} (start count : nat) (body : nat -> A -> M S A)
    (acc : A) : M S A :=
  match count with
  | O => ret acc
  | Datatypes.S c => bind (body start acc) (forLoop (Datatypes.S start) c body)
  end.

(** ** Typed arrays *)

(** [a[k] = v] on a [Float32Array]: the value is rounded to binary32; a
    store outside the array is ignored. *)
Fixpoint update {A : Type} (l : list A) (k : nat) (v : A) : list A :=
  match l, k with
  | [], _ => []
  | _ :: tl, O => v :: tl
  | hd :: tl, Datatypes.S k' => hd :: update tl k' v
  end.

(** ** The script *)

Section Script.

Context {num : Type} {JS : JSNumber num}.

Local Open Scope js_scope.
Local Open Scope monad_scope.

Abbreviation Vec := (Vector3.t num).
Abbreviation Col := (Color.t num).

(** [const particleCount = 35000]; the properties below hold for every
    count, and the examples run on small ones. *)
Variable particleCount : nat.

(** The results of the successive calls of [Math.random()], in call
    order.  The state of a sampling computation is the number of draws
    made so far. *)
Variable random : nat -> num.

Definition Rand (A : Type) : Type := M nat A.

Definition Math_random : Rand num :=
  fun k => (Return (random k), Datatypes.S k).

(** *** three.js: the methods the script calls *)

(** [Vector3.setFromSphericalCoords(radius, phi, theta)] *)
Definition setFromSphericalCoords (radius phi theta : num) : Vec :=
  let sinPhiRadius := Math_sin phi * radius in
  Vector3.make (sinPhiRadius * Math_sin theta)
               (Math_cos phi * radius)
               (sinPhiRadius * Math_cos theta).

(** [Vector3.lerp(v, alpha)] *)
Definition Vector3_lerp (u v : Vec) (alpha : num) : Vec :=
  Vector3.make (Vector3.x u + (Vector3.x v - Vector3.x u) * alpha)
               (Vector3.y u + (Vector3.y v - Vector3.y u) * alpha)
               (Vector3.z u + (Vector3.z v - Vector3.z u) * alpha).

(** [Color.multiplyScalar(s)] *)
Definition multiplyScalar (c : Col) (s : num) : Col :=
  Color.make (Color.r c * s) (Color.g c * s) (Color.b c * s).

(** [Color.lerp(color, alpha)] *)
Definition Color_lerp (c color : Col) (alpha : num) : Col :=
  Color.make (Color.r c + (Color.r color - Color.r c) * alpha)
             (Color.g c + (Color.g color - Color.g c) * alpha)
             (Color.b c + (Color.b color - Color.b c) * alpha).

(** *** Particle template data *)

Definition template : Type := Vec -> nat -> Rand Vec.

Definition galaxy : template := fun pos i =>
  d <- Math_random;;
  let isBulge := d <? lit 0.15 in
  if isBulge then
    d1 <- Math_random;;
    let r := d1 * lit 25 in
    d2 <- Math_random;;
    let theta := d2 * Math_PI * lit 2 in
    d3 <- Math_random;;
    let phi := Math_acos (d3 * lit 2 - lit 1) in
    ret (setFromSphericalCoords r phi theta)
  else
    d1 <- Math_random;;
    let armIndex := Math_floor (d1 * lit 2) in
    d2 <- Math_random;;
    let t := d2 * Math_PI * lit 4 in
    let r := lit 20 + t * lit 15 in
    d3 <- Math_random;;
    let angle := t + armIndex * Math_PI + d3 * lit 0.5 in
    let diskThickness := lit 8 in
    d4 <- Math_random;;
    let z := (d4 - lit 0.5) * diskThickness * (lit 1 - r / lit 100) in
    d5 <- Math_random;;
    let x := r * Math_cos angle * (lit 1 + d5 * lit 0.3) in
    d6 <- Math_random;;
    let y := r * Math_sin angle * (lit 1 + d6 * lit 0.3) in
    ret (Vector3.make x y z).

Definition spiral : template := fun pos i =>
  let t := ofNat i / ofNat particleCount * Math_PI * lit 6 in
  let r := lit 15 + t * lit 12 in
  let angle := t * lit 2 in
  d <- Math_random;;
  let z := (d - lit 0.5) * lit 10 in
  ret (Vector3.make (r * Math_cos angle) (r * Math_sin angle) z).

Definition barred : template := fun pos i =>
  d <- Math_random;;
  let isBar := d <? lit 0.2 in
  if isBar then
    let barLength := lit 40 in
    d1 <- Math_random;;
    let x := (d1 - lit 0.5) * barLength in
    d2 <- Math_random;;
    let y := (d2 - lit 0.5) * lit 8 in
    d3 <- Math_random;;
    let z := (d3 - lit 0.5) * lit 5 in
    ret (Vector3.make x y z)
  else
    d1 <- Math_random;;
    let armSide := if d1 <? lit 0.5 then - lit 1 else lit 1 in
    d2 <- Math_random;;
    let t := d2 * Math_PI * lit 3 in
    let r := lit 25 + t * lit 10 in
    let angle := t + armSide * lit 20 * Math_PI / lit 180 in
    d3 <- Math_random;;
    let z := (d3 - lit 0.5) * lit 8 in
    ret (Vector3.make (r * Math_cos angle) (r * Math_sin angle) z).

Definition sphere : template := fun pos i =>
  d1 <- Math_random;;
  d2 <- Math_random;;
  d3 <- Math_random;;
  ret (setFromSphericalCoords (d1 * lit 80 + lit 20)
                              (Math_acos (d2 * lit 2 - lit 1))
                              (d3 * Math_PI * lit 2)).

Definition heart : template := fun pos i =>
  let t := ofNat i / ofNat particleCount * lit 2 * Math_PI in
  let scale := lit 35 in
  let x := scale * lit 16 * Math_pow (Math_sin t) 3 in
  let y :=
    - scale *
    (lit 13 * Math_cos t
     - lit 5 * Math_cos (lit 2 * t)
     - lit 2 * Math_cos (lit 3 * t)
     - Math_cos (lit 4 * t)) in
  d <- Math_random;;
  let z := (d - lit 0.5) * lit 5 in
  ret (Vector3.make x (y + lit 20) z).

Definition flower : template := fun pos i =>
  let t := ofNat i / ofNat particleCount * lit 4 * Math_PI in
  let scale := lit 25 in
  let x := scale * Math_sin t * Math_cos (t * lit 5) in
  let y := scale * Math_cos t * Math_cos (t * lit 5) in
  let z := scale * Math_sin (t * lit 5) in
  ret (Vector3.make x y z).

(** The [while (!valid)] loop of the saturn template: draw a ring radius,
    "40 to 90"; a radius inside the Cassini band is kept only when a
    second draw is below 0.1.  [fuel] bounds the number of iterations. *)
Fixpoint saturnRingRadius (fuel : nat) : Rand num :=
  match fuel with
  | O => fun k => (OutOfFuel, k)
  | Datatypes.S fuel' =>
      d <- Math_random;;
      let r := d * lit 50 + lit 40 in
      valid <- (if (r >? lit 68) && (r <? lit 72)
                then (d' <- Math_random;; ret (d' <? lit 0.1))
                else ret true);;
      if (valid : bool) then ret r else saturnRingRadius fuel'
  end.

Definition saturn (fuel : nat) : template := fun pos i =>
  d <- Math_random;;
  let isRing := d <? lit 0.7 in
  let tilt := lit 27 * Math_PI / lit 180 in
  let cosTilt := Math_cos tilt in
  let sinTilt := Math_sin tilt in
  if isRing then
    r <- saturnRingRadius fuel;;
    d1 <- Math_random;;
    let theta := ofNat i / ofNat particleCount * Math_PI * lit 2 * lit 20 + d1 in
    let x := r * Math_cos theta in
    d2 <- Math_random;;
    let y := (d2 - lit 0.5) * lit 0.5 in
    let z := r * Math_sin theta in
    let xp := x * cosTilt - y * sinTilt in
    let yp := x * sinTilt + y * cosTilt in
    let zp := z in
    ret (Vector3.make xp yp zp)
  else
    let r := lit 30 in
    d1 <- Math_random;;
    let theta := d1 * Math_PI * lit 2 in
    d2 <- Math_random;;
    let phi := Math_acos (d2 * lit 2 - lit 1) in
    let x := r * Math_sin phi * Math_cos theta in
    let y := r * Math_cos phi in
    let z := r * Math_sin phi * Math_sin theta in
    let y := y * lit 0.9 in
    let xp := x * cosTilt - y * sinTilt in
    let yp := x * sinTilt + y * cosTilt in
    let zp := z in
    ret (Vector3.make xp yp zp).

Definition earth : template := fun pos i =>
  let tilt := lit 23.5 * Math_PI / lit 180 in
  let cosTilt := Math_cos tilt in
  let sinTilt := Math_sin tilt in
  let r := if (i mod 20 =? 0)%nat then lit 37 else lit 35 in
  d1 <- Math_random;;
  let theta := d1 * Math_PI * lit 2 in
  d2 <- Math_random;;
  let phi := Math_acos (d2 * lit 2 - lit 1) in
  let x := r * Math_sin phi * Math_cos theta in
  let y := r * Math_cos phi in
  let z := r * Math_sin phi * Math_sin theta in
  let xp := x * cosTilt - y * sinTilt in
  let yp := x * sinTilt + y * cosTilt in
  let zp := z in
  ret (Vector3.make xp yp zp).

Definition buddha : template := fun pos i =>
  d1 <- Math_random;;
  let r := d1 * lit 20 in
  d2 <- Math_random;;
  let t := d2 * Math_PI * lit 2 in
  d3 <- Math_random;;
  let y_base := d3 * lit 80 in
  let x := r * Math_cos t * (lit 1 - y_base / lit 80) in
  let z := r * Math_sin t * (lit 1 - y_base / lit 80) in
  ret (Vector3.make x (y_base - lit 40) z).

Definition fireworks : template := fun pos i =>
  d1 <- Math_random;;
  d2 <- Math_random;;
  d3 <- Math_random;;
  ret (setFromSphericalCoords (d1 * lit 100)
                              (Math_acos (d2 * lit 2 - lit 1))
                              (d3 * Math_PI * lit 2)).

(** [const templates = { galaxy: ..., ..., fireworks: ... }], in the order
    of the object literal. *)
Definition templates (fuel : nat) : list (string * template) :=
  [ ("galaxy", galaxy); ("spiral", spiral); ("barred", barred);
    ("sphere", sphere); ("heart", heart); ("flower", flower);
    ("saturn", saturn fuel); ("earth", earth); ("buddha", buddha);
    ("fireworks", fireworks) ].

Definition templateKeys : list string := map fst (templates 0).

Fixpoint assoc {A : Type} (key : string) (l : list (string * A)) : option A :=
  match l with
  | [] => None
  | (k, v) :: tl => if String.eqb key k then Some v else assoc key tl
  end.

(** The functions that [templates] inherits from [Object.prototype].
    Called as [templates[key](position, i)], these nine return without
    touching [position]. *)
Definition prototypeInert : list string :=
  [ "constructor"; "hasOwnProperty"; "isPrototypeOf"; "propertyIsEnumerable";
    "toLocaleString"; "toString"; "valueOf";
    "__lookupGetter__"; "__lookupSetter__" ].

(** [__defineGetter__] and [__defineSetter__] reject a second argument
    that is not callable, as the index [i] is. *)
Definition prototypeThrowing : list string :=
  [ "__defineGetter__"; "__defineSetter__" ].

Definition mem (key : string) (l : list string) : bool :=
  existsb (String.eqb key) l.

(** The statement [templates[key](position, i)].  Any other key reads
    [undefined], or for [__proto__] an object, and the call of a value that
    is not a function throws. *)
Definition callTemplate (fuel : nat) (key : string) : template := fun pos i =>
  match assoc key (templates fuel) with
  | Some f => f pos i
  | None =>
      if mem key prototypeInert then ret pos
      else if mem key prototypeThrowing then
        throw (TypeError ("Object.prototype." ++ key ++ ": Expecting function"))
      else throw (TypeError "templates[currentTemplate] is not a function")
  end.

(** *** Colours *)

(** [new THREE.Color(r, g, b)] with three decimal literals *)
Definition rgb (r g b : Q) : Col := Color.make (lit r) (lit g) (lit b).

(** [arr[idx]] for a number [idx]: the element whose index equals [idx],
    [undefined] ([None]) when there is none. *)
Fixpoint itemFrom {A : Type} (k : nat) (arr : list A) (idx : num) : option A :=
  match arr with
  | [] => None
  | a :: tl => if idx === ofNat k then Some a else itemFrom (Datatypes.S k) tl idx
  end.

(** [arr[idx].clone()] *)
Definition cloneItem (arr : list Col) (idx : num) : Rand Col :=
  match itemFrom 0 arr idx with
  | Some c => ret c
  | None => throw (TypeError "Cannot read properties of undefined (reading 'clone')")
  end.

Definition centerColors : list Col :=
  [ rgb 1.0 0.95 0.85; rgb 1.0 0.9 0.75; rgb 0.95 0.85 0.7 ].

Definition armColors : list Col :=
  [ rgb 0.9 0.95 1.0; rgb 0.7 0.85 1.0; rgb 0.5 0.7 1.0; rgb 0.6 0.8 1.0 ].

Definition outerColors : list Col :=
  [ rgb 0.4 0.5 0.8; rgb 0.5 0.4 0.7; rgb 0.6 0.5 0.8 ].

(** One band of [getGalaxyColor]: pick a palette entry and scale its
    brightness by [base + Math.random() * spread]. *)
Definition bandColor (palette : list Col) (base spread : num) : Rand Col :=
  d <- Math_random;;
  let colorIndex := Math_floor (d * ofNat (length palette)) in
  c <- cloneItem palette colorIndex;;
  d' <- Math_random;;
  ret (multiplyScalar c (base + d' * spread)).

Definition clamp01 (v : num) : num := Math_max (lit 0.0) (Math_min (lit 1.0) v).

Definition getGalaxyColor (position : Vec) : Rand Col :=
  let distance :=
    Math_sqrt (Vector3.x position * Vector3.x position
               + Vector3.y position * Vector3.y position
               + Vector3.z position * Vector3.z position) in
  let maxDistance := lit 100 in
  let normalizedDist := Math_min (distance / maxDistance) (lit 1.0) in
  finalColor <-
    (if normalizedDist <? lit 0.25 then bandColor centerColors (lit 1.1) (lit 0.2)
     else if normalizedDist <? lit 0.7 then bandColor armColors (lit 0.9) (lit 0.3)
     else bandColor outerColors (lit 0.7) (lit 0.2));;
  let starVariation := lit 0.1 in
  d1 <- Math_random;;
  let r := Color.r finalColor + (d1 - lit 0.5) * starVariation in
  d2 <- Math_random;;
  let g := Color.g finalColor + (d2 - lit 0.5) * starVariation in
  d3 <- Math_random;;
  let b := Color.b finalColor + (d3 - lit 0.5) * starVariation in
  ret (Color.make (clamp01 r) (clamp01 g) (clamp01 b)).

Definition getSaturnColor (position : Vec) : Rand Col :=
  let distSq :=
    Vector3.x position * Vector3.x position
    + Vector3.y position * Vector3.y position
    + Vector3.z position * Vector3.z position in
  let dist := Math_sqrt distSq in
  if dist >? lit 35 then
    let band := dist in
    let c :=
      if (band >? lit 68) && (band <? lit 72) then rgb 0.1 0.1 0.1
      else if ((band >? lit 45) && (band <? lit 55))
              || ((band >? lit 75) && (band <? lit 85)) then rgb 0.85 0.8 0.7
      else rgb 0.75 0.65 0.5 in
    d <- Math_random;;
    ret (multiplyScalar c (lit 0.8 + d * lit 0.4))
  else
    let tilt := - lit 27 * Math_PI / lit 180 in
    let cosT := Math_cos tilt in
    let sinT := Math_sin tilt in
    let localY := Vector3.x position * sinT + Vector3.y position * cosT in
    let absY := Math_abs localY in
    let color :=
      if absY >? lit 25 then rgb 0.35 0.35 0.3
      else if absY >? lit 18 then rgb 0.7 0.65 0.5
      else if absY >? lit 10 then rgb 0.8 0.7 0.5
      else if absY >? lit 3 then rgb 0.85 0.75 0.55
      else rgb 0.9 0.8 0.6 in
    d <- Math_random;;
    ret (multiplyScalar color (lit 0.9 + d * lit 0.2)).

Definition getEarthColor (position : Vec) : Rand Col :=
  let tilt := - lit 23.5 * Math_PI / lit 180 in
  let cosT := Math_cos tilt in
  let sinT := Math_sin tilt in
  let localX := Vector3.x position * cosT - Vector3.y position * sinT in
  let localY := Vector3.x position * sinT + Vector3.y position * cosT in
  let localZ := Vector3.z position in
  let dist := Math_sqrt (localX * localX + localY * localY + localZ * localZ) in
  if dist >? lit 36 then ret (rgb 1.0 1.0 1.0)
  else
    let lat := localY in
    let absLat := Math_abs lat in
    if absLat >? lit 28 then ret (rgb 0.95 0.98 1.0)
    else
      let nX := localX * lit 0.12 in
      let nY := localY * lit 0.12 in
      let nZ := localZ * lit 0.12 in
      let noise :=
        Math_sin nX * Math_cos nY
        + Math_sin (nY * lit 2.1 + nZ) * lit 0.5
        + Math_cos (nZ * lit 1.5 + nX) * lit 0.3 in
      d <- Math_random;;
      if d >? lit 0.95 then ret (rgb 1.0 1.0 1.0)
      else if noise >? lit 0.2 then
        (if (noise >? lit 0.6) && (absLat <? lit 20) then ret (rgb 0.05 0.35 0.05)
         else if absLat <? lit 22 then ret (rgb 0.2 0.5 0.2)
         else if absLat >? lit 25 then ret (rgb 0.6 0.6 0.6)
         else ret (rgb 0.5 0.4 0.25))
      else
        (if noise <? - lit 0.5 then ret (rgb 0.0 0.1 0.4)
         else ret (rgb 0.0 0.3 0.7)).

(** *** Particle system creation *)

(** [a[k] = v] for a [Float32Array] [a]; [a[k]] read as a number. *)
Definition store (a : list num) (k : nat) (v : num) : list num :=
  update a k (fround v).

Definition load (a : list num) (k : nat) : num := nth k a NaN.

Definition storeVec (a : list num) (i : nat) (v : Vec) : list num :=
  store (store (store a (i * 3) (Vector3.x v)) (i * 3 + 1) (Vector3.y v))
        (i * 3 + 2) (Vector3.z v).

Definition storeColor (a : list num) (i : nat) (c : Col) : list num :=
  store (store (store a (i * 3) (Color.r c)) (i * 3 + 1) (Color.g c))
        (i * 3 + 2) (Color.b c).

(** The colour assigned to a particle of template [key]. *)
Definition colorFor (key : string) (position : Vec) : Rand Col :=
  if String.eqb key "saturn" then getSaturnColor position
  else if String.eqb key "earth" then getEarthColor position
  else getGalaxyColor position.

(** The locals of the first loop of [createParticles]: the scratch vector
    [position] and the two arrays. *)
Record Buffers : Type := {
  scratch : Vec;
  bufPositions : list num;
  bufColors : list num
}.

(** The body of the first loop of [createParticles]. *)
Definition populate (fuel : nat) (key : string) (i : nat) (b : Buffers) : Rand Buffers :=
  position <- callTemplate fuel key (scratch b) i;;
  let positions := storeVec (bufPositions b) i position in
  color <- colorFor key position;;
  let colors := storeColor (bufColors b) i color in
  ret {| scratch := position; bufPositions := positions; bufColors := colors |}.

(** The body of the second loop: one point of the small dense sphere. *)
Definition compress (i : nat) (spherePositions : list num) : Rand (list num) :=
  d1 <- Math_random;;
  d2 <- Math_random;;
  d3 <- Math_random;;
  let tempVec :=
    setFromSphericalCoords (d1 * lit 30)
                           (Math_acos (d2 * lit 2 - lit 1))
                           (d3 * Math_PI * lit 2) in
  ret (storeVec spherePositions i tempVec).

(** [new Float32Array(n)] *)
Definition Float32Array (n : nat) : list num := repeat (lit 0) n.

(** The arrays that [createParticles] builds for template [key]:
    positions, colours, and the compressed-sphere positions. *)
Definition createArrays (fuel : nat) (key : string)
  : Rand (list num * list num * list num) :=
  let positions := Float32Array (particleCount * 3) in
  let colors := Float32Array (particleCount * 3) in
  let position := Vector3.make (lit 0) (lit 0) (lit 0) in
  b <- forLoop 0 particleCount (populate fuel key)
         {| scratch := position; bufPositions := positions; bufColors := colors |};;
  spherePositions <- forLoop 0 particleCount compress
                       (Float32Array (particleCount * 3));;
  ret (bufPositions b, bufColors b, spherePositions).

(** *** The globals of the script *)

(** The hand-tracking variables. *)
Record Hand : Type := {
  handDistance : num;
  handGesture : gesture;
  targetHandPosition : Vec;
  targetHandRotationZ : num;
  targetHandRotationY : num;
  lastHandPosition : option Vec;
  gestureHistory : list gesture;
  lockOnExit : bool
}.

Record World : Type := {
  currentTemplate : string;
  solarSystemEnabled : bool;
  isMouseDown : bool;
  targetRotationX : num;
  targetRotationY : num;
  time : num;
  hand : Hand;
  particles : Points.t num;
  material : Material.t num;
  sunCore : Mesh.t num;
  basePositions : list num;
  spherePositions : list num;
  drawn : nat
}.

Definition set_hand (h : Hand) (w : World) : World :=
  {| currentTemplate := currentTemplate w; solarSystemEnabled := solarSystemEnabled w;
     isMouseDown := isMouseDown w; targetRotationX := targetRotationX w;
     targetRotationY := targetRotationY w; time := time w; hand := h;
     particles := particles w; material := material w; sunCore := sunCore w;
     basePositions := basePositions w; spherePositions := spherePositions w;
     drawn := drawn w |}.

Definition set_particles (p : Points.t num) (w : World) : World :=
  {| currentTemplate := currentTemplate w; solarSystemEnabled := solarSystemEnabled w;
     isMouseDown := isMouseDown w; targetRotationX := targetRotationX w;
     targetRotationY := targetRotationY w; time := time w; hand := hand w;
     particles := p; material := material w; sunCore := sunCore w;
     basePositions := basePositions w; spherePositions := spherePositions w;
     drawn := drawn w |}.

Definition set_material (m : Material.t num) (w : World) : World :=
  {| currentTemplate := currentTemplate w; solarSystemEnabled := solarSystemEnabled w;
     isMouseDown := isMouseDown w; targetRotationX := targetRotationX w;
     targetRotationY := targetRotationY w; time := time w; hand := hand w;
     particles := particles w; material := m; sunCore := sunCore w;
     basePositions := basePositions w; spherePositions := spherePositions w;
     drawn := drawn w |}.

Definition set_sunCore (c : Mesh.t num) (w : World) : World :=
  {| currentTemplate := currentTemplate w; solarSystemEnabled := solarSystemEnabled w;
     isMouseDown := isMouseDown w; targetRotationX := targetRotationX w;
     targetRotationY := targetRotationY w; time := time w; hand := hand w;
     particles := particles w; material := material w; sunCore := c;
     basePositions := basePositions w; spherePositions := spherePositions w;
     drawn := drawn w |}.

Definition set_time (t : num) (w : World) : World :=
  {| currentTemplate := currentTemplate w; solarSystemEnabled := solarSystemEnabled w;
     isMouseDown := isMouseDown w; targetRotationX := targetRotationX w;
     targetRotationY := targetRotationY w; time := t; hand := hand w;
     particles := particles w; material := material w; sunCore := sunCore w;
     basePositions := basePositions w; spherePositions := spherePositions w;
     drawn := drawn w |}.

Definition set_drawn (k : nat) (w : World) : World :=
  {| currentTemplate := currentTemplate w; solarSystemEnabled := solarSystemEnabled w;
     isMouseDown := isMouseDown w; targetRotationX := targetRotationX w;
     targetRotationY := targetRotationY w; time := time w; hand := hand w;
     particles := particles w; material := material w; sunCore := sunCore w;
     basePositions := basePositions w; spherePositions := spherePositions w;
     drawn := k |}.

Definition set_currentTemplate (key : string) (w : World) : World :=
  {| currentTemplate := key; solarSystemEnabled := solarSystemEnabled w;
     isMouseDown := isMouseDown w; targetRotationX := targetRotationX w;
     targetRotationY := targetRotationY w; time := time w; hand := hand w;
     particles := particles w; material := material w; sunCore := sunCore w;
     basePositions := basePositions w; spherePositions := spherePositions w;
     drawn := drawn w |}.

Definition set_solarSystemEnabled (v : bool) (w : World) : World :=
  {| currentTemplate := currentTemplate w; solarSystemEnabled := v;
     isMouseDown := isMouseDown w; targetRotationX := targetRotationX w;
     targetRotationY := targetRotationY w; time := time w; hand := hand w;
     particles := particles w; material := material w; sunCore := sunCore w;
     basePositions := basePositions w; spherePositions := spherePositions w;
     drawn := drawn w |}.

Definition set_positions (a : list num) (p : Points.t num) : Points.t num :=
  Points.make a (Points.colors p) (Points.rotation p) (Points.scale p)
              (Points.position p) (Points.visible p) (Points.inScene p).

Definition set_visible (v : bool) (p : Points.t num) : Points.t num :=
  Points.make (Points.positions p) (Points.colors p) (Points.rotation p)
              (Points.scale p) (Points.position p) v (Points.inScene p).

Definition set_inScene (v : bool) (p : Points.t num) : Points.t num :=
  Points.make (Points.positions p) (Points.colors p) (Points.rotation p)
              (Points.scale p) (Points.position p) (Points.visible p) v.

(** A sampling computation run on the draws of the world. *)
Definition sample {A : Type} (m : Rand A) : M World A :=
  fun w => let (o, k) := m (drawn w) in (o, set_drawn k w).

(** The two stored buffers and the fresh [Points] and [PointsMaterial]
    that the end of [createParticles] installs. *)
Definition install (arrays : list num * list num * list num) (w : World) : World :=
  let '(positions, colors, sphere) := arrays in
  let zero := Vector3.make (lit 0) (lit 0) (lit 0) in
  let one := Vector3.make (lit 1) (lit 1) (lit 1) in
  {| currentTemplate := currentTemplate w; solarSystemEnabled := solarSystemEnabled w;
     isMouseDown := isMouseDown w; targetRotationX := targetRotationX w;
     targetRotationY := targetRotationY w; time := time w; hand := hand w;
     particles := Points.make positions colors zero one zero true true;
     material := Material.make (Color.make (lit 1) (lit 1) (lit 1)) (lit 1.9);
     sunCore := sunCore w;
     basePositions := positions;
     spherePositions := sphere;
     drawn := drawn w |}.

Definition createParticles (fuel : nat) : M World unit :=
  modify (fun w => set_particles (set_inScene false (particles w)) w);;;
  w <- get;;
  arrays <- sample (createArrays fuel (currentTemplate w));;
  modify (install arrays).

(** *** Control functions *)

Definition toggleSolarSystem (show : bool) : M World unit :=
  modify (fun w =>
    set_sunCore (Mesh.make (Mesh.scale (sunCore w)) (Mesh.position (sunCore w))
                           (Mesh.rotation (sunCore w)) (negb show))
      (set_particles (set_visible (negb show) (particles w))
         (set_solarSystemEnabled show w))).

(** [changeTemplate(event)], with [value] for [event.target.value]. *)
Definition changeTemplate (fuel : nat) (value : string) : M World unit :=
  if String.eqb value "solarsystem" then toggleSolarSystem true
  else
    toggleSolarSystem false;;;
    modify (set_currentTemplate value);;;
    createParticles fuel.

(** [changeColor(event)], with [selectedColor] for the colour that
    [new THREE.Color(event.target.value)] parses. *)
Definition changeColor (selectedColor : Col) : M World unit :=
  modify (fun w =>
    set_material (Material.make (Color_lerp (Material.color (material w)) selectedColor (lit 0.3))
                                (Material.size (material w))) w).

(** The body of the loop of [explodeUniverse]. *)
Definition scatter (i : nat) (positions : list num) : Rand (list num) :=
  d1 <- Math_random;;
  d2 <- Math_random;;
  d3 <- Math_random;;
  let tempPos :=
    setFromSphericalCoords (d1 * lit 300 + lit 50)
                           (Math_acos (d2 * lit 2 - lit 1))
                           (d3 * Math_PI * lit 2) in
  ret (storeVec positions i tempPos).

(** [explodeUniverse()].  [count] is [positions.length / 3]; the loop
    [for (i = 0; i < count; i++)] runs once for every started triple. *)
Definition explodeUniverse : M World unit :=
  w <- get;;
  let positions := Points.positions (particles w) in
  let count := ((length positions + 2) / 3)%nat in
  positions' <- sample (forLoop 0 count scatter positions);;
  modify (fun w => set_particles (set_positions positions' (particles w)) w).

(** *** Gesture detection functions *)

(** [obj.y] where [obj] is [handLandmarks[index]]: reading a field of
    [undefined] throws. *)
Definition field {S : Type} (prop : string) (proj : Vec -> num)
    (handLandmarks : list Vec) (index : nat) : M S num :=
  match nth_error handLandmarks index with
  | Some p => ret (proj p)
  | None =>
      throw (TypeError ("Cannot read properties of undefined (reading '" ++ prop ++ "')"))
  end.

Definition isFingerExtended {S : Type} (handLandmarks : list Vec)
    (tipIndex pipIndex : nat) : M S bool :=
  tip_y <- field "y" Vector3.y handLandmarks tipIndex;;
  pip_y <- field "y" Vector3.y handLandmarks pipIndex;;
  ret (tip_y <? pip_y).

(** [[...].filter(Boolean).length] *)
Definition countTrue (flags : list bool) : nat :=
  length (filter (fun f : bool => f) flags).

Definition detectGesture {S : Type} (handLandmarks : list Vec) : M S gesture :=
  thumbExtended <- isFingerExtended handLandmarks 4 3;;
  indexExtended <- isFingerExtended handLandmarks 8 6;;
  middleExtended <- isFingerExtended handLandmarks 12 10;;
  ringExtended <- isFingerExtended handLandmarks 16 14;;
  pinkyExtended <- isFingerExtended handLandmarks 20 18;;
  let extendedFingers :=
    countTrue [indexExtended; middleExtended; ringExtended; pinkyExtended] in
  if indexExtended && middleExtended && negb ringExtended then ret peace
  else if (3 <=? extendedFingers)%nat then ret open
  else if (extendedFingers <=? 1)%nat then ret closed
  else ret neutral.

Definition gestureHistorySize : nat := 5.

(** [gestureHistory.push(newGesture)], then [shift()] when the length
    exceeds [gestureHistorySize]. *)
Definition pushGesture (newGesture : gesture) (history : list gesture) : list gesture :=
  let history := history ++ [newGesture] in
  if (gestureHistorySize <? length history)%nat then tl history else history.

(** [counts[g]++] on the object [{ open: 0, closed: 0, neutral: 0, peace: 0 }],
    kept as the list of its entries in key order. *)
Definition increment (counts : list (gesture * nat)) (g : gesture) : list (gesture * nat) :=
  map (fun entry : gesture * nat =>
         if gesture_eqb (fst entry) g then (fst entry, Datatypes.S (snd entry)) else entry)
      counts.

Definition countGestures (history : list gesture) : list (gesture * nat) :=
  fold_left increment history [(open, 0); (closed, 0); (neutral, 0); (peace, 0)].

(** The scan [for (const [gesture, count] of Object.entries(counts))],
    from [maxCount = 0] and [result = 'neutral']. *)
Definition mostCommon (counts : list (gesture * nat)) : gesture :=
  snd (fold_left
         (fun (acc : nat * gesture) (entry : gesture * nat) =>
            if (fst acc <? snd entry)%nat then (snd entry, fst entry) else acc)
         counts (0, neutral)).

Definition set_gestureHistory (history : list gesture) (h : Hand) : Hand :=
  {| handDistance := handDistance h; handGesture := handGesture h;
     targetHandPosition := targetHandPosition h;
     targetHandRotationZ := targetHandRotationZ h;
     targetHandRotationY := targetHandRotationY h;
     lastHandPosition := lastHandPosition h;
     gestureHistory := history; lockOnExit := lockOnExit h |}.

Definition smoothGesture (newGesture : gesture) : M World gesture :=
  modify (fun w =>
    set_hand (set_gestureHistory (pushGesture newGesture (gestureHistory (hand w)))
                                 (hand w)) w);;;
  w <- get;;
  ret (mostCommon (countGestures (gestureHistory (hand w)))).

Definition positionSmoothing : num := lit 0.15.
Definition rotationSmoothing : num := lit 0.1.
Definition positionScale : num := lit 200.

(** [updateHandPosition(handLandmarks)]: the new [targetHandPosition]. *)
Definition updateHandPosition {S : Type} (handLandmarks : list Vec) : M S Vec :=
  x0 <- field "x" Vector3.x handLandmarks 0;;
  y0 <- field "y" Vector3.y handLandmarks 0;;
  z0 <- field "z" Vector3.z handLandmarks 0;;
  ret (Vector3.make ((x0 - lit 0.5) * positionScale)
                    ((lit 0.5 - y0) * positionScale)
                    (z0 * positionScale * lit 0.5)).

Definition getHandRoll {S : Type} (handLandmarks : list Vec) : M S num :=
  p2x <- field "x" Vector3.x handLandmarks 9;;
  p1x <- field "x" Vector3.x handLandmarks 0;;
  let dx := p2x - p1x in
  p2y <- field "y" Vector3.y handLandmarks 9;;
  p1y <- field "y" Vector3.y handLandmarks 0;;
  let dy := p2y - p1y in
  ret (Math_atan2 dy dx + Math_PI / lit 2).

Definition getHandYaw {S : Type} (handLandmarks : list Vec) : M S num :=
  let sensitivity := lit 8.0 in
  iz <- field "z" Vector3.z handLandmarks 5;;
  pz <- field "z" Vector3.z handLandmarks 17;;
  ret ((iz - pz) * sensitivity).

(** *** The pose callback *)

(** [onResults(results)], with [landmarks] for
    [results.multiHandLandmarks] ([None] when it is undefined). *)
Definition onResults (landmarks : option (list (list Vec))) : M World unit :=
  match landmarks with
  | Some [hand1; hand2] =>
      w1x <- field "x" Vector3.x hand1 0;;
      w2x <- field "x" Vector3.x hand2 0;;
      let dx := w1x - w2x in
      w1y <- field "y" Vector3.y hand1 0;;
      w2y <- field "y" Vector3.y hand2 0;;
      let dy := w1y - w2y in
      let distance := Math_sqrt (dx * dx + dy * dy) in
      let MIN_DIST := lit 0.05 in
      let MAX_DIST := lit 0.7 in
      let handDistance' :=
        Math_max (lit 0) (Math_min (lit 1) ((distance - MIN_DIST) / (MAX_DIST - MIN_DIST))) in
      modify (fun w =>
        set_hand {| handDistance := handDistance'; handGesture := handGesture (hand w);
                    targetHandPosition := targetHandPosition (hand w);
                    targetHandRotationZ := targetHandRotationZ (hand w);
                    targetHandRotationY := targetHandRotationY (hand w);
                    lastHandPosition := lastHandPosition (hand w);
                    gestureHistory := gestureHistory (hand w);
                    lockOnExit := lockOnExit (hand w) |} w);;;
      let avgX := (w1x + w2x) / lit 2 in
      let avgY := (w1y + w2y) / lit 2 in
      w1z <- field "z" Vector3.z hand1 0;;
      w2z <- field "z" Vector3.z hand2 0;;
      let avgZ := (w1z + w2z) / lit 2 in
      modify (fun w =>
        set_hand {| handDistance := handDistance (hand w); handGesture := neutral;
                    targetHandPosition :=
                      Vector3.make ((avgX - lit 0.5) * positionScale)
                                   ((lit 0.5 - avgY) * positionScale)
                                   (avgZ * positionScale * lit 0.5);
                    targetHandRotationZ := targetHandRotationZ (hand w);
                    targetHandRotationY := targetHandRotationY (hand w);
                    lastHandPosition := lastHandPosition (hand w);
                    gestureHistory := [];
                    lockOnExit := lockOnExit (hand w) |} w)
  | Some [hand1] =>
      detectedGesture <- detectGesture hand1;;
      smoothed <- smoothGesture detectedGesture;;
      modify (fun w =>
        set_hand {| handDistance := handDistance (hand w); handGesture := smoothed;
                    targetHandPosition := targetHandPosition (hand w);
                    targetHandRotationZ := targetHandRotationZ (hand w);
                    targetHandRotationY := targetHandRotationY (hand w);
                    lastHandPosition := lastHandPosition (hand w);
                    gestureHistory := gestureHistory (hand w);
                    lockOnExit := lockOnExit (hand w) |} w);;;
      target <- updateHandPosition hand1;;
      modify (fun w =>
        set_hand {| handDistance := handDistance (hand w); handGesture := handGesture (hand w);
                    targetHandPosition := target;
                    targetHandRotationZ := targetHandRotationZ (hand w);
                    targetHandRotationY := targetHandRotationY (hand w);
                    lastHandPosition := lastHandPosition (hand w);
                    gestureHistory := gestureHistory (hand w);
                    lockOnExit := lockOnExit (hand w) |} w);;;
      roll <- getHandRoll hand1;;
      modify (fun w =>
        set_hand {| handDistance := handDistance (hand w); handGesture := handGesture (hand w);
                    targetHandPosition := targetHandPosition (hand w);
                    targetHandRotationZ := - roll;
                    targetHandRotationY := targetHandRotationY (hand w);
                    lastHandPosition := lastHandPosition (hand w);
                    gestureHistory := gestureHistory (hand w);
                    lockOnExit := lockOnExit (hand w) |} w);;;
      yaw <- getHandYaw hand1;;
      modify (fun w =>
        set_hand {| handDistance := lit 0.5; handGesture := handGesture (hand w);
                    targetHandPosition := targetHandPosition (hand w);
                    targetHandRotationZ := targetHandRotationZ (hand w);
                    targetHandRotationY := yaw * lit 2.0;
                    lastHandPosition := lastHandPosition (hand w);
                    gestureHistory := gestureHistory (hand w);
                    lockOnExit := lockOnExit (hand w) |} w)
  | _ =>
      w <- get;;
      (if lockOnExit (hand w) then ret tt
       else
         smoothed <- smoothGesture neutral;;
         modify (fun w =>
           set_hand {| handDistance := lit 0.5; handGesture := smoothed;
                       targetHandPosition :=
                         Vector3_lerp (targetHandPosition (hand w))
                                      (Vector3.make (lit 0) (lit 0) (lit 0)) (lit 0.1);
                       targetHandRotationZ := targetHandRotationZ (hand w);
                       targetHandRotationY := targetHandRotationY (hand w);
                       lastHandPosition := lastHandPosition (hand w);
                       gestureHistory := gestureHistory (hand w);
                       lockOnExit := lockOnExit (hand w) |} w));;;
      modify (fun w =>
        set_hand {| handDistance := handDistance (hand w); handGesture := handGesture (hand w);
                    targetHandPosition := targetHandPosition (hand w);
                    targetHandRotationZ := targetHandRotationZ (hand w);
                    targetHandRotationY := targetHandRotationY (hand w);
                    lastHandPosition := None;
                    gestureHistory := [];
                    lockOnExit := lockOnExit (hand w) |} w)
  end.

(** *** The animation loop *)

Definition morphSpeed : num := lit 0.08.

(** Step 1 of [animate]: mouse rotation while dragging, hand rotation
    while a gesture history is present, ambient rotation otherwise. *)
Definition rotate (w : World) : Vec :=
  let rot := Points.rotation (particles w) in
  if isMouseDown w then
    Vector3.make
      (Vector3.x rot + (targetRotationX w - Vector3.x rot) * lit 0.05)
      (Vector3.y rot + (targetRotationY w - Vector3.y rot) * lit 0.05)
      (Vector3.z rot)
  else if (0 <? length (gestureHistory (hand w)))%nat then
    Vector3.make
      (Vector3.x rot)
      (Vector3.y rot + (targetHandRotationY (hand w) - Vector3.y rot) * rotationSmoothing)
      (Vector3.z rot + (targetHandRotationZ (hand w) - Vector3.z rot) * rotationSmoothing)
  else
    Vector3.make (Vector3.x rot) (Vector3.y rot + lit 0.0008) (Vector3.z rot + lit 0.0001).

(** Step 2: the scale that the particle system is blended towards. *)
Definition targetScale (h : Hand) : num :=
  if gesture_eqb (handGesture h) neutral && (handDistance h !== lit 0.5) then
    let minScale := lit 0.5 in
    let maxScale := lit 2.0 in
    minScale + (maxScale - minScale) * handDistance h
  else if gesture_eqb (handGesture h) open then lit 2.5
  else if gesture_eqb (handGesture h) closed then lit 0.7
  else lit 1.0.

(** Step 3: the tint and point size of the gesture. *)
Definition targetTintColor (g : gesture) : Col :=
  match g with
  | closed => rgb 1.5 0.9 0.2
  | open => rgb 0.5 1.0 1.3
  | _ => rgb 1.0 1.0 1.0
  end.

Definition gestureSize (g : gesture) : num :=
  match g with
  | closed => lit 1.0
  | open => lit 3.0
  | _ => lit 1.8
  end.

(** [material.color.lerp(targetTintColor, 0.15)] followed by the three
    [Math.max(0.3, _)]. *)
Definition tint (g : gesture) (m : Material.t num) : Material.t num :=
  let c := Color_lerp (Material.color m) (targetTintColor g) (lit 0.15) in
  Material.make
    (Color.make (Math_max (lit 0.3) (Color.r c))
                (Math_max (lit 0.3) (Color.g c))
                (Math_max (lit 0.3) (Color.b c)))
    (gestureSize g).

(** [for (let i = 0; i < count; i++) acc = body(i, acc)] without effects. *)
Definition loop {A : Type} (count : nat) (body : nat -> A -> A) (acc : A) : A :=
  fold_left (fun a i => body i a) (seq 0 count) acc.

(** The displacement factor of the closed morph for the compressed point
    (bx, by, bz) at clock [t]. *)
Definition scaleVarOf (t bx by_ bz : num) : num :=
  let dist := Math_sqrt (bx * bx + by_ * by_ + bz * bz) in
  let nx := bx / dist in
  let ny := by_ / dist in
  let nz := bz / dist in
  let noise :=
    Math_sin (nx * lit 4 + t) * Math_cos (ny * lit 4 + t)
      * Math_sin (nz * lit 4 + t * lit 1.5)
    + Math_sin (nx * lit 10 - t * lit 2) * lit 0.5 in
  lit 1.0 + noise * lit 0.05.

(** [current += (target - current) * morphSpeed] *)
Definition blend (current target : num) : num :=
  current + (target - current) * morphSpeed.

(** The body of the loop of the closed gesture. *)
Definition morphClosed (t : num) (sphere : list num) (i : nat)
    (currentPositions : list num) : list num :=
  let ix := (i * 3)%nat in
  let iy := (i * 3 + 1)%nat in
  let iz := (i * 3 + 2)%nat in
  let bx := load sphere ix in
  let by_ := load sphere iy in
  let bz := load sphere iz in
  let scaleVar := scaleVarOf t bx by_ bz in
  let p := store currentPositions ix (blend (load currentPositions ix) (bx * scaleVar)) in
  let p := store p iy (blend (load p iy) (by_ * scaleVar)) in
  store p iz (blend (load p iz) (bz * scaleVar)).

(** The body of the loop of the open gesture. *)
Definition morphOpen (base : list num) (i : nat) (currentPositions : list num) : list num :=
  store currentPositions i (blend (load currentPositions i) (load base i)).

(** Step 5: the positions after the morph of the current gesture. *)
Definition morph (w : World) : list num :=
  let currentPositions := Points.positions (particles w) in
  let count := particleCount in
  match handGesture (hand w) with
  | closed => loop count (morphClosed (time w) (spherePositions w)) currentPositions
  | open => loop (count * 3) (morphOpen (basePositions w)) currentPositions
  | _ => currentPositions
  end.

Definition targetCoreScale (w : World) : num :=
  match handGesture (hand w) with
  | closed => lit 0.8 + Math_sin (time w * lit 0.5) * lit 0.1
  | _ => lit 0
  end.

Definition uniform (s : num) : Vec := Vector3.make s s s.

(** The phases of a frame, each on the globals it writes. *)

(** [time += 0.05] *)
Definition tick (w : World) : World := set_time (time w + lit 0.05) w.

(** Steps 1 and 2: rotation, and the blend of the scale. *)
Definition transform (w : World) : World :=
  let p := particles w in
  set_particles
    (Points.make (Points.positions p) (Points.colors p) (rotate w)
       (Vector3_lerp (Points.scale p) (uniform (targetScale (hand w))) (lit 0.1))
       (Points.position p) (Points.visible p) (Points.inScene p)) w.

(** Step 3: the tint and the point size. *)
Definition tintFrame (w : World) : World :=
  set_material (tint (handGesture (hand w)) (material w)) w.

(** Step 5: the morph of the positions. *)
Definition morphFrame (w : World) : World :=
  set_particles (set_positions (morph w) (particles w)) w.

(** The glow mesh: its scale, and position and rotation copied from the
    particle system. *)
Definition coreFrame (w : World) : World :=
  let p := particles w in
  set_sunCore
    (Mesh.make
       (Vector3_lerp (Mesh.scale (sunCore w)) (uniform (targetCoreScale w)) (lit 0.1))
       (Points.position p) (Points.rotation p) (Mesh.visible (sunCore w))) w.

(** Step 6: the particle system follows the hand. *)
Definition follow (w : World) : World :=
  let p := particles w in
  set_particles
    (Points.make (Points.positions p) (Points.colors p) (Points.rotation p)
       (Points.scale p)
       (Vector3_lerp (Points.position p) (targetHandPosition (hand w)) positionSmoothing)
       (Points.visible p) (Points.inScene p)) w.

(** One frame: [animate()] without the camera, the solar system and the
    call of the renderer. *)
Definition animate : M World unit :=
  modify tick;;;
  w <- get;;
  if solarSystemEnabled w then ret tt
  else
    modify transform;;;
    modify tintFrame;;;
    w <- get;;
    (if gesture_eqb (handGesture (hand w)) peace then explodeUniverse else ret tt);;;
    modify morphFrame;;;
    modify coreFrame;;;
    modify follow.

(** *** The session *)

(** The globals after [init()] for a particle count of 0: the values of the
    declarations at the top of the script, the material and the (empty)
    buffers that [createParticles] installs, and [sunCore] scaled to 0. *)
Definition initialWorld : World :=
  let zero := Vector3.make (lit 0) (lit 0) (lit 0) in
  {| currentTemplate := "galaxy";
     solarSystemEnabled := false;
     isMouseDown := false;
     targetRotationX := lit 0;
     targetRotationY := lit 0;
     time := lit 0;
     hand := {| handDistance := lit 1.0; handGesture := neutral;
                targetHandPosition := zero;
                targetHandRotationZ := lit 0; targetHandRotationY := lit 0;
                lastHandPosition := None; gestureHistory := []; lockOnExit := true |};
     particles := Points.make [] [] zero (uniform (lit 1)) zero true true;
     material := Material.make (Color.make (lit 1) (lit 1) (lit 1)) (lit 1.9);
     sunCore := Mesh.make zero zero zero true;
     basePositions := [];
     spherePositions := [];
     drawn := 0 |}.

(** What the browser delivers to the script: an animation frame, and the
    events of the listeners that [init()] registers and of the pose
    source. *)
Inductive event : Type :=
| Frame
| TemplateSelected (value : string)
| ColorSelected (selectedColor : Col)
| LockToggled (checked : bool)
| Results (landmarks : option (list (list Vec))).

Definition set_lockOnExit (checked : bool) (h : Hand) : Hand :=
  {| handDistance := handDistance h; handGesture := handGesture h;
     targetHandPosition := targetHandPosition h;
     targetHandRotationZ := targetHandRotationZ h;
     targetHandRotationY := targetHandRotationY h;
     lastHandPosition := lastHandPosition h;
     gestureHistory := gestureHistory h; lockOnExit := checked |}.

Definition handler (fuel : nat) (e : event) : M World unit :=
  match e with
  | Frame => animate
  | TemplateSelected value => changeTemplate fuel value
  | ColorSelected selectedColor => changeColor selectedColor
  | LockToggled checked => modify (fun w => set_hand (set_lockOnExit checked (hand w)) w)
  | Results landmarks => onResults landmarks
  end.

(** A session: the handlers run one after the other on the globals.  An
    exception ends its handler only; a handler that does not end ([None])
    ends the session. *)
Fixpoint run (fuel : nat) (events : list event) (w : World) : option World :=
  match events with
  | [] => Some w
  | e :: rest =>
      match handler fuel e w with
      | (OutOfFuel, _) => None
      | (_, w') => run fuel rest w'
      end
  end.

End Script.

(** ** Vocabulary of the properties *)

Section Vocabulary.

Context {num : Type} {JS : JSNumber num}.

(** The fingertip at index [tip] is above the joint at index [pip]: its y
    is smaller. *)
Definition tipAbove (handLandmarks : list (Vector3.t num)) (tip pip : nat) : bool :=
  match nth_error handLandmarks tip, nth_error handLandmarks pip with
  | Some t, Some p => ltb (Vector3.y t) (Vector3.y p)
  | _, _ => false
  end.

(** How many of index, middle, ring and pinky are extended: one for each
    of the four fingers whose tip is above its PIP joint. *)
Definition extendedCount (handLandmarks : list (Vector3.t num)) : nat :=
  Nat.b2n (tipAbove handLandmarks 8 6) + Nat.b2n (tipAbove handLandmarks 12 10)
  + Nat.b2n (tipAbove handLandmarks 16 14) + Nat.b2n (tipAbove handLandmarks 20 18).

(** The number of samples of a history that are the gesture [g]. *)
Definition occurrences (g : gesture) (history : list gesture) : nat :=
  length (filter (gesture_eqb g) history).

(** The place of a gesture in the enumeration open, closed, neutral, peace. *)
Definition rank (g : gesture) : nat :=
  match g with open => 0 | closed => 1 | neutral => 2 | peace => 3 end.

(** The point with spherical coordinates (radius, phi, theta) about the
    y axis, each coordinate computed from left to right. *)
Definition sphericalPoint (radius phi theta : num) : Vector3.t num :=
  Vector3.make (mul (mul (Math_sin phi) radius) (Math_sin theta))
               (mul (Math_cos phi) radius)
               (mul (mul (Math_sin phi) radius) (Math_cos theta)).

Section Draws.

Variable random : nat -> num.

(** The radius that [explodeUniverse] computes from draw [k]. *)
Definition explosionRadius (k : nat) : num :=
  add (mul (random k) (lit 300)) (lit 50).

(** The point that [explodeUniverse] builds from the three draws that
    start at draw [k]: the radius, the polar angle, the azimuth. *)
Definition explosionPoint (k : nat) : Vector3.t num :=
  sphericalPoint (explosionRadius k)
                 (Math_acos (sub (mul (random (k + 1)) (lit 2)) (lit 1)))
                 (mul (mul (random (k + 2)) Math_PI) (lit 2)).

(** The point of radius [radius] whose polar angle and azimuth come from
    the two draws after draw [k]. *)
Definition anglesPoint (radius : num) (k : nat) : Vector3.t num :=
  sphericalPoint radius
                 (Math_acos (sub (mul (random (k + 1)) (lit 2)) (lit 1)))
                 (mul (mul (random (k + 2)) Math_PI) (lit 2)).

(** The radius of a point of the compressed sphere, from draw [k], and
    the point of the three draws that start there. *)
Definition compressedRadius (k : nat) : num := mul (random k) (lit 30).

Definition compressedPoint (k : nat) : Vector3.t num :=
  sphericalPoint (compressedRadius k)
                 (Math_acos (sub (mul (random (k + 1)) (lit 2)) (lit 1)))
                 (mul (mul (random (k + 2)) Math_PI) (lit 2)).

(** The ring radius that the saturn template computes from a draw. *)
Definition ringRadius (d : num) : num := add (mul d (lit 50)) (lit 40).

(** A radius inside the band (68, 72) of the Cassini division. *)
Definition inGap (r : num) : bool := ltb (lit 68) r && ltb r (lit 72).

(** The resample that starts at draw [k] is kept: its radius is outside
    the band, or the sparseness draw that follows is below 0.1. *)
Definition kept (k : nat) : bool :=
  negb (inGap (ringRadius (random k))) || ltb (random (k + 1)) (lit 0.1).

(** The number of draws that the resample at draw [k] uses. *)
Definition resampleDraws (k : nat) : nat :=
  if inGap (ringRadius (random k)) then 2 else 1.

End Draws.

End Vocabulary.

(** The draws of one saturn particle: ring (0.2 < 0.7), radius
    0.2 * 50 + 40 = 50, angle offset 0, height (0.5 - 0.5) * 0.5 = 0,
    brightness 0.99; every later draw is 0.5. *)
Definition brightRingDraws (k : nat) : R := nth k [0.2; 0.2; 0; 0.5; 0.99]%R 0.5%R.

(** A zero of either sign. *)
Definition zero (negative : bool) : float :=
  if negative then PrimFloat.opp PrimFloat.zero else PrimFloat.zero.

(** A session of one particle at (cx, cy, cz) whose compressed position is
    a zero vector, with the closed gesture as the smoothed gesture and the
    clock at [t]. *)
Definition closedAtOrigin (L : Binary64.Libm) (t cx cy cz : float) (sx sy sz : bool)
  : @World float :=
  let w := initialWorld (JS := Binary64.number L) in
  {| currentTemplate := currentTemplate w;
     solarSystemEnabled := false;
     isMouseDown := isMouseDown w;
     targetRotationX := targetRotationX w;
     targetRotationY := targetRotationY w;
     time := t;
     hand := {| handDistance := handDistance (hand w); handGesture := closed;
                targetHandPosition := targetHandPosition (hand w);
                targetHandRotationZ := targetHandRotationZ (hand w);
                targetHandRotationY := targetHandRotationY (hand w);
                lastHandPosition := None;
                gestureHistory := [closed];
                lockOnExit := lockOnExit (hand w) |};
     particles := set_positions [cx; cy; cz] (particles w);
     material := material w;
     sunCore := sunCore w;
     basePositions := [cx; cy; cz];
     spherePositions := [zero sx; zero sy; zero sz];
     drawn := 0 |}.

(** The colours of the earth template: clouds and atmosphere, ice, jungle,
    green, tundra, plains, deep and shallow ocean. *)
Definition earthPalette {num : Type} {JS : JSNumber num} : list (Color.t num) :=
  [ rgb 1.0 1.0 1.0; rgb 0.95 0.98 1.0; rgb 0.05 0.35 0.05; rgb 0.2 0.5 0.2;
    rgb 0.6 0.6 0.6; rgb 0.5 0.4 0.25; rgb 0.0 0.1 0.4; rgb 0.0 0.3 0.7 ].

(** A double between 0 and 1. *)
Definition inUnit (x : float) : Prop :=
  PrimFloat.leb 0 x = true /\ PrimFloat.leb x 1 = true.

(** The number of hands of a result of the pose source. *)
Definition handCount {A : Type} (landmarks : option (list A)) : nat :=
  match landmarks with
  | Some hands => length hands
  | None => 0
  end.

(** A computation keeps [P]: however it ends, by returning, by an
    exception or for want of fuel, [P] holds of the state it leaves when
    it held of the state it found. *)
Definition keeps {S A : Type} (P : S -> Prop) (m : M S A) : Prop :=
  forall (s : S) (o : outcome A) (s' : S), m s = (o, s') -> P s -> P s'.

(** The gesture history holds at most [gestureHistorySize] samples. *)
Definition historyBounded {num : Type} (w : @World num) : Prop :=
  length (gestureHistory (hand w)) <= gestureHistorySize.

(** A double that is NaN or lies between 0 and 1. *)
Definition unitOrNaN (x : float) : Prop :=
  PrimFloat.is_nan x = true \/ (PrimFloat.leb 0 x = true /\ PrimFloat.leb x 1 = true).

(** The value of a finite double that is not negative, in units of
    2^-2200: [m * 2^e] is [scaled m e] units. *)
Definition scaled (m e : Z) : Z := (m * 2 ^ (e + 2200))%Z.

Definition magnitude (x : spec_float) : option Z :=
  match x with
  | S754_zero _ => Some 0%Z
  | S754_finite false m e => Some (scaled (Zpos m) e)
  | _ => None
  end.

(** After [k] halvings of the mantissa [M]: the quotient, and a round bit
    that is set only when something was shifted out. *)
Definition halved (M : Z) (k : Z) (mrs : shr_record) : Prop :=
  shr_m mrs = (M / 2 ^ k)%Z /\ (shr_r mrs = true -> (M mod 2 ^ k)%Z <> 0%Z).



(** A stand-in for the implementation's libm, for running the script where
    the values of the functions do not matter. *)
Definition crudeLibm : Binary64.Libm :=
  {| Binary64.libm_sin := fun x => x;
     Binary64.libm_cos := fun _ => 1%float;
     Binary64.libm_acos := fun _ => 0%float;
     Binary64.libm_atan2 := fun y _ => y;
     Binary64.libm_pow := fun x _ => x |}.

(** The globals with one particle, at the origin. *)
Definition oneParticle (L : Binary64.Libm) : @World float :=
  let w := initialWorld (JS := Binary64.number L) in
  set_particles (set_positions [0; 0; 0]%float (particles w)) w.

(** * Properties *)

Import Exact.

(** ** Comparisons of the exact instance *)

(** Read the operations of [JSNumber] at the exact instance. *)
Ltac exact_arith :=
  cbn [ltb leb strictEq mul add sub div neg lit ofNat fround Exact.number Qnum Qden
       Math_PI Math_sqrt Math_abs Math_floor Math_sin Math_cos Math_acos Math_max Math_min]
    in *.

Lemma Rltb_true (a b : R) : (a < b)%R -> Exact.Rltb a b = true.
Proof. intros H; unfold Exact.Rltb; destruct (Rlt_dec a b); [reflexivity | contradiction]. Qed.

Lemma Rltb_false (a b : R) : (b <= a)%R -> Exact.Rltb a b = false.
Proof. intros H; unfold Exact.Rltb; destruct (Rlt_dec a b); [lra | reflexivity]. Qed.

Lemma Rltb_iff (a b : R) : Exact.Rltb a b = true <-> (a < b)%R.
Proof. unfold Exact.Rltb; destruct (Rlt_dec a b); split; intros; try easy. Qed.

(** ** Lists and typed arrays *)

Lemma update_length {A : Type} (l : list A) (k : nat) (v : A) :
  length (update l k v) = length l.
Proof.
  revert k; induction l as [|hd tl IH]; intros [|k]; simpl; auto.
Qed.

Lemma nth_update_eq {A : Type} (l : list A) (k : nat) (v d : A) :
  k < length l -> nth k (update l k v) d = v.
Proof.
  revert k; induction l as [|hd tl IH]; intros [|k] Hk; simpl in *; try lia; auto.
  apply IH; lia.
Qed.

Lemma nth_update_neq {A : Type} (l : list A) (k j : nat) (v d : A) :
  j <> k -> nth j (update l k v) d = nth j l d.
Proof.
  revert k j; induction l as [|hd tl IH]; intros [|k] [|j] Hjk; simpl;
    try congruence; auto.
Qed.

Lemma gesture_eqb_eq (a b : gesture) : gesture_eqb a b = true <-> a = b.
Proof. destruct a, b; simpl; split; congruence. Qed.

(** ** The gesture classifier *)

Section Classifier.

Context {num : Type} {JS : JSNumber num}.

Lemma landmark_present (handLandmarks : list (Vector3.t num)) (k : nat) :
  k < length handLandmarks -> exists p, nth_error handLandmarks k = Some p.
Proof.
  intros Hk. destruct (nth_error handLandmarks k) as [p|] eqn:E; eauto.
  apply nth_error_None in E; lia.
Qed.

Lemma isFingerExtended_present (S : Type) (handLandmarks : list (Vector3.t num))
    (tip pip : nat) (s : S) :
  tip < length handLandmarks -> pip < length handLandmarks ->
  isFingerExtended handLandmarks tip pip s = (Return (tipAbove handLandmarks tip pip), s).
Proof.
  intros Ht Hp.
  destruct (landmark_present handLandmarks Ht) as [t Et].
  destruct (landmark_present handLandmarks Hp) as [p Ep].
  unfold isFingerExtended, field, bind, ret, tipAbove. rewrite Et, Ep. reflexivity.
Qed.

(** C1.  For a hand with all 21 landmarks, [detectGesture] returns without
    touching the state, and its result is [peace] exactly when the index and
    middle fingertips are above their PIP joints and the ring fingertip is
    not (thumb and pinky play no part); otherwise it is [open] exactly when
    at least 3 of index, middle, ring, pinky are extended, [closed] exactly
    when at most 1 is, and [neutral] exactly when 2 are. *)
Theorem detectGesture_classification (S : Type)
    (handLandmarks : list (Vector3.t num)) (s : S) :
  21 <= length handLandmarks ->
  exists g : gesture,
    detectGesture handLandmarks s = (Return g, s)
    /\ (g = peace <->
        tipAbove handLandmarks 8 6 = true
        /\ tipAbove handLandmarks 12 10 = true
        /\ tipAbove handLandmarks 16 14 = false)
    /\ (g <> peace ->
        (g = open <-> 3 <= extendedCount handLandmarks)
        /\ (g = closed <-> extendedCount handLandmarks <= 1)
        /\ (g = neutral <-> extendedCount handLandmarks = 2)).
Proof.
  intros Hlen.
  unfold detectGesture, bind.
  rewrite !isFingerExtended_present by lia.
  unfold extendedCount.
  destruct (tipAbove handLandmarks 8 6), (tipAbove handLandmarks 12 10),
           (tipAbove handLandmarks 16 14), (tipAbove handLandmarks 20 18);
    cbn; eexists; (split; [reflexivity|]);
    repeat split; intros; try congruence; try lia; try tauto;
    try (exfalso; lia); intuition congruence.
Qed.

End Classifier.

(** A hand of 21 landmarks at the origin. *)
Lemma detectGesture_classification_witness :
  exists g : gesture,
    detectGesture (repeat (Vector3.make 0 0 0)%R 21) tt = (Return g, tt).
Proof.
  destruct (@detectGesture_classification R Exact.number unit
              (repeat (Vector3.make 0 0 0)%R 21) tt) as (g & E & _).
  - simpl. lia.
  - exists g. exact E.
Defined.

(** ** Gesture smoothing *)

Lemma occurrences_total (history : list gesture) :
  occurrences open history + occurrences closed history
  + occurrences neutral history + occurrences peace history = length history.
Proof.
  unfold occurrences. induction history as [|g tl IH]; simpl; [reflexivity|].
  destruct g; simpl; lia.
Qed.

Lemma countGestures_from (history : list gesture) (a b c d : nat) :
  fold_left increment history [(open, a); (closed, b); (neutral, c); (peace, d)]
  = [ (open, a + occurrences open history); (closed, b + occurrences closed history);
      (neutral, c + occurrences neutral history); (peace, d + occurrences peace history) ].
Proof.
  unfold occurrences. revert a b c d.
  induction history as [|g tl IH]; intros a b c d; simpl.
  - repeat (first [reflexivity | lia | f_equal]).
  - destruct g; simpl; rewrite IH; repeat (first [reflexivity | lia | f_equal]).
Qed.

Lemma countGestures_occurrences (history : list gesture) :
  countGestures history
  = [ (open, occurrences open history); (closed, occurrences closed history);
      (neutral, occurrences neutral history); (peace, occurrences peace history) ].
Proof. unfold countGestures. rewrite countGestures_from. reflexivity. Qed.

(** The scan keeps the first entry that reaches the largest count. *)
Lemma mostCommon_first_max (a b c d : nat) :
  0 < a + b + c + d ->
  let count g := match g with open => a | closed => b | neutral => c | peace => d end in
  let result := mostCommon [(open, a); (closed, b); (neutral, c); (peace, d)] in
  (forall g, count g <= count result)
  /\ (forall g, count g = count result -> rank result <= rank g).
Proof.
  intros Hpos count result. subst result count. unfold mostCommon. simpl.
  destruct (0 <? a) eqn:Ea; simpl;
    [ destruct (a <? b) eqn:Eb | destruct (0 <? b) eqn:Eb ]; simpl;
    [ destruct (b <? c) eqn:Ec | destruct (a <? c) eqn:Ec
    | destruct (b <? c) eqn:Ec | destruct (0 <? c) eqn:Ec ]; simpl;
    repeat match goal with
           | |- context [?x <? ?y] => destruct (x <? y) eqn:?; simpl
           end;
    repeat match goal with
           | H : (_ <? _) = true |- _ => apply Nat.ltb_lt in H
           | H : (_ <? _) = false |- _ => apply Nat.ltb_ge in H
           end;
    try lia;
    split; intros [] ; simpl; lia.
Qed.

Lemma pushGesture_length (g : gesture) (history : list gesture) :
  length history <= gestureHistorySize ->
  length (pushGesture g history) <= gestureHistorySize
  /\ 0 < length (pushGesture g history).
Proof.
  unfold pushGesture, gestureHistorySize. intros H.
  assert (Hl : length (history ++ [g]) = Datatypes.S (length history))
    by (rewrite length_app; simpl; lia).
  remember (history ++ [g]) as appended eqn:Happ. clear Happ.
  destruct (5 <? length appended) eqn:E.
  - apply Nat.ltb_lt in E. destruct appended as [|x rest]; simpl in *; lia.
  - apply Nat.ltb_ge in E. lia.
Qed.

Section Smoothing.

Context {num : Type}.

(** C2.  For a history of at most 5 samples, [smoothGesture] appends the
    new sample, drops the oldest one when that makes 6, changes nothing
    else, and returns a gesture that no gesture outnumbers in the kept
    samples; among gestures with that same count it is the first in the
    order open, closed, neutral, peace; and a gesture that holds a strict
    majority of the kept samples is the one returned. *)
Theorem smoothGesture_most_frequent (w : @World num) (newGesture : gesture) :
  length (gestureHistory (hand w)) <= 5 ->
  let appended := gestureHistory (hand w) ++ [newGesture] in
  let kept := if 5 <? length appended then tl appended else appended in
  exists result : gesture,
    smoothGesture newGesture w
    = (Return result, set_hand (set_gestureHistory kept (hand w)) w)
    /\ length kept <= 5
    /\ (forall g, occurrences g kept <= occurrences result kept)
    /\ (forall g, occurrences g kept = occurrences result kept -> rank result <= rank g)
    /\ (forall m, length kept < 2 * occurrences m kept -> result = m).
Proof.
  intros Hlen appended kept.
  assert (Hkept : kept = pushGesture newGesture (gestureHistory (hand w))) by reflexivity.
  destruct (pushGesture_length newGesture (gestureHistory (hand w)) Hlen) as [Hle Hpos].
  rewrite <- Hkept in Hle, Hpos. unfold gestureHistorySize in Hle.
  exists (mostCommon (countGestures kept)).
  split; [reflexivity|]. split; [exact Hle|].
  rewrite countGestures_occurrences.
  pose proof (occurrences_total kept) as Htot.
  assert (Hsum : 0 < occurrences open kept + occurrences closed kept
                     + occurrences neutral kept + occurrences peace kept) by lia.
  destruct (mostCommon_first_max _ _ _ _ Hsum) as [Hmax Hfirst].
  set (result := mostCommon _) in *.
  assert (Hcount : forall g,
             match g with
             | open => occurrences open kept | closed => occurrences closed kept
             | neutral => occurrences neutral kept | peace => occurrences peace kept
             end = occurrences g kept) by (intros []; reflexivity).
  repeat split.
  - intros g. specialize (Hmax g). rewrite !Hcount in Hmax. exact Hmax.
  - intros g Hg. apply Hfirst. rewrite !Hcount. exact Hg.
  - intros m Hm.
    pose proof (Hmax m) as Hm'. rewrite !Hcount in Hm'.
    destruct result, m; try reflexivity; lia.
Qed.

End Smoothing.

(** The first sample of a session. *)
Lemma smoothGesture_most_frequent_witness :
  exists (result : gesture) (w' : @World R),
    smoothGesture peace initialWorld = (Return result, w')
    /\ gestureHistory (hand w') = [peace].
Proof.
  destruct (@smoothGesture_most_frequent R initialWorld peace) as (result & E & _).
  - simpl. lia.
  - eexists _, _. split; [exact E | reflexivity].
Defined.

(** ** Loops *)

(** A loop whose body always returns, and keeps [P], returns and keeps [P]. *)
Lemma forLoop_total {S A : Type} (P : A -> S -> Prop) (body : nat -> A -> M S A) :
  (forall i a s, P a s -> exists a' s', body i a s = (Return a', s') /\ P a' s') ->
  forall count start a s, P a s ->
    exists a' s', forLoop start count body a s = (Return a', s') /\ P a' s'.
Proof.
  intros Hbody. induction count as [|c IH]; intros start a s HP; simpl.
  - exists a, s. split; [reflexivity | exact HP].
  - destruct (Hbody start a s HP) as (a1 & s1 & E1 & HP1).
    unfold bind. rewrite E1. apply IH. exact HP1.
Qed.

(** A property that every returning run of the body keeps is kept by
    every returning run of the loop. *)
Lemma forLoop_preserves {S A : Type} (P : A -> Prop) (body : nat -> A -> M S A) :
  (forall i a s a' s', P a -> body i a s = (Return a', s') -> P a') ->
  forall count start a s a' s',
    P a -> forLoop start count body a s = (Return a', s') -> P a'.
Proof.
  intros Hbody. induction count as [|c IH]; intros start a s a' s' HP E; simpl in E.
  - unfold ret in E. inversion E; subst; exact HP.
  - unfold bind in E. destruct (body start a s) as [[a1| |] s1] eqn:E1; try discriminate.
    eapply IH; [|exact E]. eapply Hbody; eauto.
Qed.

Lemma forLoop_once {S A : Type} (body : nat -> A -> M S A) (start : nat) (a a' : A)
    (s s' : S) :
  body start a s = (Return a', s') -> forLoop start 1 body a s = (Return a', s').
Proof. intros E. simpl. unfold bind. rewrite E. reflexivity. Qed.

(** ** Stores of triples *)

Section Triples.

Context {num : Type} {JS : JSNumber num}.

Lemma store_length (a : list num) (k : nat) (v : num) :
  length (store a k v) = length a.
Proof. apply update_length. Qed.

Lemma storeVec_length (a : list num) (i : nat) (v : Vector3.t num) :
  length (storeVec a i v) = length a.
Proof. unfold storeVec. rewrite !store_length. reflexivity. Qed.

Lemma storeColor_length (a : list num) (i : nat) (c : Color.t num) :
  length (storeColor a i c) = length a.
Proof. unfold storeColor. rewrite !store_length. reflexivity. Qed.

Lemma storeVec_other (a : list num) (i j : nat) (v : Vector3.t num) (d : num) :
  j < i * 3 \/ i * 3 + 3 <= j -> nth j (storeVec a i v) d = nth j a d.
Proof.
  intros Hj. unfold storeVec, store.
  rewrite !nth_update_neq by lia. reflexivity.
Qed.

Lemma storeVec_here (a : list num) (i : nat) (v : Vector3.t num) (d : num) :
  i * 3 + 2 < length a ->
  nth (i * 3) (storeVec a i v) d = fround (Vector3.x v)
  /\ nth (i * 3 + 1) (storeVec a i v) d = fround (Vector3.y v)
  /\ nth (i * 3 + 2) (storeVec a i v) d = fround (Vector3.z v).
Proof.
  intros Hi. unfold storeVec, store. repeat split.
  - rewrite !nth_update_neq by lia. apply nth_update_eq. lia.
  - rewrite nth_update_neq by lia. apply nth_update_eq.
    rewrite update_length. lia.
  - apply nth_update_eq. rewrite !update_length. lia.
Qed.

Lemma storeColor_here (a : list num) (i : nat) (c : Color.t num) (d : num) :
  i * 3 + 2 < length a ->
  nth (i * 3) (storeColor a i c) d = fround (Color.r c)
  /\ nth (i * 3 + 1) (storeColor a i c) d = fround (Color.g c)
  /\ nth (i * 3 + 2) (storeColor a i c) d = fround (Color.b c).
Proof.
  intros Hi. unfold storeColor, store. repeat split.
  - rewrite !nth_update_neq by lia. apply nth_update_eq. lia.
  - rewrite nth_update_neq by lia. apply nth_update_eq.
    rewrite update_length. lia.
  - apply nth_update_eq. rewrite !update_length. lia.
Qed.

End Triples.

(** ** Rounding of binary64 against representable bounds

    The operations of doubles round to nearest; what a sum or a product of
    doubles that are not negative is rounded to lies on the same side of
    every double as the exact result does. *)

Unset Implicit Arguments.

Section Binary64Rounding.

Local Open Scope Z_scope.


Lemma digits2_pos_bounds (m : positive) :
  2 ^ (Zpos (digits2_pos m) - 1) <= Zpos m < 2 ^ Zpos (digits2_pos m).
Proof.
  induction m as [m IH|m IH|]; cbn [digits2_pos].
  - rewrite Pos2Z.inj_succ, Pos2Z.inj_xI.
    replace (Z.succ (Zpos (digits2_pos m)) - 1) with (Z.succ (Zpos (digits2_pos m) - 1)) by lia.
    rewrite !Z.pow_succ_r by lia.
    generalize dependent (2 ^ (Zpos (digits2_pos m) - 1)).
    generalize (2 ^ Zpos (digits2_pos m)). intros; lia.
  - rewrite Pos2Z.inj_succ. rewrite (Pos2Z.inj_xO m).
    replace (Z.succ (Zpos (digits2_pos m)) - 1) with (Z.succ (Zpos (digits2_pos m) - 1)) by lia.
    rewrite !Z.pow_succ_r by lia.
    generalize dependent (2 ^ (Zpos (digits2_pos m) - 1)).
    generalize (2 ^ Zpos (digits2_pos m)). intros; lia.
  - cbn. lia.
Qed.

Lemma iter_pos_invariant {A : Type} (f : A -> A) (P : Z -> A -> Prop) :
  (forall k x, 0 <= k -> P k x -> P (k + 1) (f x)) ->
  forall (p : positive) (k : Z) (x : A), 0 <= k -> P k x -> P (k + Zpos p) (iter_pos f p x).
Proof.
  intros Hstep. induction p as [p IH|p IH|]; intros k x Hk Hx; cbn [iter_pos].
  - replace (k + Zpos p~1) with (k + 1 + Zpos p + Zpos p) by lia.
    apply IH; [lia|]. apply IH; [lia|]. apply Hstep; assumption.
  - replace (k + Zpos p~0) with (k + Zpos p + Zpos p) by lia.
    apply IH; [lia|]. apply IH; assumption.
  - apply Hstep; assumption.
Qed.

Lemma shr_1_halved (M : Z) (k : Z) (mrs : shr_record) :
  0 <= M -> 0 <= k -> halved M k mrs -> halved M (k + 1) (shr_1 mrs).
Proof.
  intros HM Hk [Hm Hr].
  assert (Hpow : 0 < 2 ^ k) by (apply Z.pow_pos_nonneg; lia).
  assert (Hdiv : M / 2 ^ (k + 1) = M / 2 ^ k / 2).
  { rewrite Z.pow_add_r by lia. rewrite Z.div_div by lia. reflexivity. }
  assert (Hodd : M / 2 ^ k mod 2 = 1 -> M mod 2 ^ (k + 1) <> 0).
  { intros Ho Hz. rewrite Z.pow_add_r in Hz by lia.
    rewrite Z.rem_mul_r in Hz by lia. change (2 ^ 1) with 2 in Hz.
    assert (0 <= M mod 2 ^ k) by (apply Z.mod_pos_bound; lia). lia. }
  assert (Hq : 0 <= M / 2 ^ k) by (apply Z.div_pos; lia).
  destruct mrs as [m r s]. cbn [shr_m shr_r] in *.
  unfold halved, shr_1. rewrite Hdiv. rewrite <- Hm in *.
  destruct m as [|[p|p|]|p]; cbn [shr_m shr_r].
  - split; [reflexivity | discriminate].
  - split.
    + rewrite Pos2Z.inj_xI. apply Z.div_unique with 1; lia.
    + intros _. apply Hodd. rewrite Pos2Z.inj_xI.
      symmetry. apply Z.mod_unique with (Zpos p); lia.
  - split.
    + rewrite (Pos2Z.inj_xO p). apply Z.div_unique with 0; lia.
    + discriminate.
  - split; [reflexivity|]. intros _. apply Hodd. reflexivity.
  - lia.
Qed.

Lemma shr_halved (M : Z) (p : positive) :
  0 <= M -> halved M (Zpos p) (iter_pos shr_1 p (Build_shr_record M false false)).
Proof.
  intros HM.
  apply (iter_pos_invariant shr_1 (halved M)) with (k := 0).
  - intros k x Hk Hx. apply shr_1_halved; assumption.
  - lia.
  - split; cbn; [rewrite Z.div_1_r; reflexivity | discriminate].
Qed.

Lemma fexp_binary64 (e : Z) : fexp prec emax e = Z.max (e - 53) (-1074).
Proof. reflexivity. Qed.

Lemma pow2_pos (k : Z) : 0 <= k -> 0 < 2 ^ k.
Proof. intros. apply Z.pow_pos_nonneg; lia. Qed.

Lemma pow2_le (a b : Z) : 0 <= a <= b -> 2 ^ a <= 2 ^ b.
Proof. intros. apply Z.pow_le_mono_r; lia. Qed.

Lemma pow2_split (a b : Z) : 0 <= a -> 0 <= b -> 2 ^ (a + b) = 2 ^ a * 2 ^ b.
Proof. intros. apply Z.pow_add_r; assumption. Qed.

Lemma Zdigits2_bounds (m : Z) :
  0 < m -> 2 ^ (Zdigits2 m - 1) <= m < 2 ^ Zdigits2 m.
Proof.
  destruct m as [|p|p]; try lia. intros _. apply digits2_pos_bounds.
Qed.

Lemma Zdigits2_pos (m : Z) : 0 < m -> 0 < Zdigits2 m.
Proof. destruct m; cbn; lia. Qed.

(** A positive integer below 2^k has at most k binary digits, one that
    is at least 2^(k-1) has at least k. *)
Lemma Zdigits2_le (m k : Z) : 0 < m -> 0 <= k -> m < 2 ^ k -> Zdigits2 m <= k.
Proof.
  intros Hm Hk Hlt. destruct (Zdigits2_bounds m Hm) as [Hlo _].
  pose proof (Zdigits2_pos m Hm).
  destruct (Z_le_gt_dec (Zdigits2 m) k) as [|Hgt]; [assumption|exfalso].
  assert (2 ^ k <= 2 ^ (Zdigits2 m - 1)) by (apply pow2_le; lia). lia.
Qed.

Lemma Zdigits2_ge (m k : Z) : 0 < m -> 0 < k -> 2 ^ (k - 1) <= m -> k <= Zdigits2 m.
Proof.
  intros Hm Hk Hge. destruct (Zdigits2_bounds m Hm) as [_ Hhi].
  pose proof (Zdigits2_pos m Hm).
  destruct (Z_le_gt_dec k (Zdigits2 m)) as [|Hgt]; [assumption|exfalso].
  assert (2 ^ Zdigits2 m <= 2 ^ (k - 1)) by (apply pow2_le; lia). lia.
Qed.

(** The rounded mantissa: the quotient or its successor, and the quotient
    when nothing was shifted out. *)
Lemma round_nearest_even_halved (M k : Z) (mrs : shr_record) :
  0 <= M -> 0 <= k -> halved M k mrs ->
  let m := round_nearest_even (shr_m mrs) (loc_of_shr_record mrs) in
  M / 2 ^ k <= m <= M / 2 ^ k + 1 /\ (M mod 2 ^ k = 0 -> m = M / 2 ^ k).
Proof.
  intros HM Hk [Hm Hr]. destruct mrs as [m r s]. cbn [shr_m shr_r] in *. subst m.
  destruct r, s; cbn [loc_of_shr_record round_nearest_even].
  - split; [lia|]. intros Hz. exfalso. apply Hr; [reflexivity | exact Hz].
  - destruct (Z.even (M / 2 ^ k)); (split; [lia|]); intros Hz;
      try reflexivity; exfalso; apply Hr; [reflexivity | exact Hz].
  - split; [lia | reflexivity].
  - split; [lia | reflexivity].
Qed.

Lemma shr_nonpos (mrs : shr_record) (e n : Z) : n <= 0 -> shr mrs e n = (mrs, e).
Proof. destruct n; [reflexivity | lia | reflexivity]. Qed.

Lemma shr_fexp_fits (m e : Z) :
  Zdigits2 m <= 53 -> -1074 <= e ->
  shr_fexp prec emax m e loc_Exact = (Build_shr_record m false false, e).
Proof.
  intros Hd He. unfold shr_fexp. rewrite fexp_binary64.
  apply shr_nonpos. lia.
Qed.

Lemma scaled_mono (m m' e : Z) : -2200 <= e -> m <= m' -> scaled m e <= scaled m' e.
Proof.
  intros He Hm. unfold scaled.
  apply Z.mul_le_mono_nonneg_r; [|exact Hm].
  apply Z.lt_le_incl, pow2_pos; lia.
Qed.

Lemma scaled_shift (m e s : Z) :
  -2200 <= e -> 0 <= s -> scaled m (e + s) = scaled (m * 2 ^ s) e.
Proof.
  intros He Hs. unfold scaled.
  replace (e + s + 2200) with (s + (e + 2200)) by lia.
  rewrite pow2_split by lia. ring.
Qed.

Lemma binary_round_aux_magnitude (mx : positive) (ex : Z) :
  -2200 <= ex ->
  exists (m e s : Z),
    0 <= s /\ e = ex + s
    /\ Zpos mx / 2 ^ s <= m <= Zpos mx / 2 ^ s + 1
    /\ (Zpos mx mod 2 ^ s = 0 -> m = Zpos mx / 2 ^ s)
    /\ (0 < s -> -1074 <= e /\ (-1074 < e -> 2 ^ 52 <= Zpos mx / 2 ^ s))
    /\ ((binary_round_aux prec emax false (Zpos mx) ex loc_Exact = S754_infinity false
         /\ (ex <= fexp prec emax (Zpos (digits2_pos mx) + ex) ->
             2 ^ (1024 + 2200) <= scaled m e))
        \/ magnitude (binary_round_aux prec emax false (Zpos mx) ex loc_Exact)
           = Some (scaled m e)).
Proof.
  intros Hex.
  pose proof (digits2_pos_bounds mx) as Hd.
  set (d := Zpos (digits2_pos mx)) in *.
  assert (Hdpos : 0 < d) by (unfold d; lia).
  assert (aligned :
    Z.max (d + ex - 53) (-1074) - ex <= 0 ->
    exists m e s : Z,
      0 <= s /\ e = ex + s
      /\ Zpos mx / 2 ^ s <= m <= Zpos mx / 2 ^ s + 1
      /\ (Zpos mx mod 2 ^ s = 0 -> m = Zpos mx / 2 ^ s)
      /\ (0 < s -> -1074 <= e /\ (-1074 < e -> 2 ^ 52 <= Zpos mx / 2 ^ s))
      /\ ((binary_round_aux prec emax false (Zpos mx) ex loc_Exact = S754_infinity false
           /\ (ex <= fexp prec emax (d + ex) -> 2 ^ (1024 + 2200) <= scaled m e))
          \/ magnitude (binary_round_aux prec emax false (Zpos mx) ex loc_Exact)
             = Some (scaled m e))).
  { intros En.
    assert (E1 : shr_fexp prec emax (Zpos mx) ex loc_Exact
                 = (Build_shr_record (Zpos mx) false false, ex)).
    { unfold shr_fexp. rewrite fexp_binary64. cbn [Zdigits2]. fold d.
      apply shr_nonpos. exact En. }
    unfold binary_round_aux. change (emax - prec) with 971.
    rewrite E1. cbn [shr_m loc_of_shr_record round_nearest_even]. rewrite E1. cbn [shr_m].
    exists (Zpos mx), ex, 0.
    split; [lia|]. split; [lia|]. rewrite Z.div_1_r.
    split; [lia|]. split; [reflexivity|]. split; [lia|].
    destruct (ex <=? 971) eqn:Ele.
    + right. reflexivity.
    + left. split; [reflexivity|]. rewrite fexp_binary64. intros Hal.
      apply Z.leb_gt in Ele.
      assert (d = 53) by lia.
      assert (2 ^ 52 <= Zpos mx) by (replace 52 with (d - 1) by lia; apply Hd).
      unfold scaled.
      replace (1024 + 2200) with (52 + (972 + 2200)) by lia.
      rewrite pow2_split by lia.
      assert (2 ^ (972 + 2200) <= 2 ^ (ex + 2200)) by (apply pow2_le; lia).
      assert (0 < 2 ^ (972 + 2200)) by (apply pow2_pos; lia).
      apply Z.mul_le_mono_nonneg; lia. }
  unfold binary_round_aux.
  change (emax - prec) with 971.
  destruct (Z.max (d + ex - 53) (-1074) - ex) as [|p|p] eqn:En.
  - (* aligned already *)
    apply aligned; lia.
  - (* a shift by [Zpos p] *)
    assert (E1 : shr_fexp prec emax (Zpos mx) ex loc_Exact
                 = (iter_pos shr_1 p (Build_shr_record (Zpos mx) false false), ex + Zpos p)).
    { unfold shr_fexp. rewrite fexp_binary64. cbn [Zdigits2]. fold d. rewrite En. reflexivity. }
    rewrite E1.
    pose proof (shr_halved (Zpos mx) p ltac:(lia)) as Hh.
    set (mrs := iter_pos shr_1 p (Build_shr_record (Zpos mx) false false)) in *.
    destruct (round_nearest_even_halved (Zpos mx) (Zpos p) mrs ltac:(lia) ltac:(lia) Hh)
      as [Hm Hexact].
    set (m2 := round_nearest_even (shr_m mrs) (loc_of_shr_record mrs)) in *.
    set (n := Zpos p) in *.
    assert (Hn : 0 < n) by (unfold n; lia).
    assert (Hpn : 0 < 2 ^ n) by (apply pow2_pos; lia).
    assert (Hq : 0 <= Zpos mx / 2 ^ n) by (apply Z.div_pos; lia).
    assert (Hhi : Zpos mx / 2 ^ n < 2 ^ 53).
    { apply Z.div_lt_upper_bound; [lia|].
      rewrite <- pow2_split by lia.
      assert (2 ^ d <= 2 ^ (n + 53)) by (apply pow2_le; lia). lia. }
    assert (Hlo : -1074 < ex + n -> 2 ^ 52 <= Zpos mx / 2 ^ n).
    { intros Hnorm. apply Z.div_le_lower_bound; [lia|].
      rewrite <- pow2_split by lia.
      replace (n + 52) with (d - 1) by lia. apply Hd. }
    exists m2, (ex + n), n.
    split; [lia|]. split; [reflexivity|]. split; [exact Hm|]. split; [exact Hexact|].
    split; [intros _; split; [lia | exact Hlo]|].
    destruct (Z.eq_dec m2 (2 ^ 53)) as [Hcarry|Hnocarry].
    + (* the rounding carries into a 54th digit *)
      rewrite Hcarry.
      assert (E2 : shr_fexp prec emax (2 ^ 53) (ex + n) loc_Exact
                   = (Build_shr_record (Zpos 4503599627370496) false false, ex + n + 1)).
      { unfold shr_fexp. rewrite fexp_binary64.
        change (Zdigits2 (2 ^ 53)) with 54.
        replace (Z.max (54 + (ex + n) - 53) (-1074) - (ex + n)) with 1 by lia.
        reflexivity. }
      rewrite E2. cbn [shr_m].
      assert (Hval : scaled (Zpos 4503599627370496) (ex + n + 1) = scaled (2 ^ 53) (ex + n)).
      { rewrite scaled_shift by lia. reflexivity. }
      destruct (ex + n + 1 <=? 971) eqn:Ele.
      * right. cbn [magnitude]. rewrite Hval. reflexivity.
      * left. split; [reflexivity|]. intros _. apply Z.leb_gt in Ele.
        unfold scaled.
        replace (1024 + 2200) with (53 + (971 + 2200)) by lia.
        rewrite pow2_split by lia.
        assert (2 ^ (971 + 2200) <= 2 ^ (ex + n + 2200)) by (apply pow2_le; lia).
        assert (0 < 2 ^ (971 + 2200)) by (apply pow2_pos; lia).
        apply Z.mul_le_mono_nonneg; lia.
    + rewrite shr_fexp_fits.
      * cbn [shr_m].
        destruct m2 as [|q|q] eqn:Em2.
        -- right. cbn [magnitude]. unfold scaled. reflexivity.
        -- destruct (ex + n <=? 971) eqn:Ele.
           ++ right. reflexivity.
           ++ left. split; [reflexivity|]. intros _. apply Z.leb_gt in Ele.
              unfold scaled.
              replace (1024 + 2200) with (52 + (972 + 2200)) by lia.
              rewrite pow2_split by lia.
              assert (2 ^ (972 + 2200) <= 2 ^ (ex + n + 2200)) by (apply pow2_le; lia).
              assert (0 < 2 ^ (972 + 2200)) by (apply pow2_pos; lia).
              assert (2 ^ 52 <= Zpos q) by lia.
              apply Z.mul_le_mono_nonneg; lia.
        -- lia.
      * destruct (Z.eq_dec m2 0) as [E0|Hnz]; [rewrite E0; cbn; lia|].
        apply Zdigits2_le; lia.
      * lia.
  - (* more digits would be kept than there are: nothing is shifted *)
    apply aligned; lia.
Qed.

Lemma scaled_pos (m : positive) (e : Z) : -2200 <= e -> 0 < scaled (Zpos m) e.
Proof.
  intros He. unfold scaled. apply Z.mul_pos_pos; [lia | apply pow2_pos; lia].
Qed.

Lemma scaled_cancel (m m' e : Z) : -2200 <= e -> scaled m e <= scaled m' e -> m <= m'.
Proof.
  intros He H. unfold scaled in H.
  apply Z.mul_le_mono_pos_r in H; [exact H | apply pow2_pos; lia].
Qed.

(** A mantissa below 2^53 at a smaller exponent is below a normalised
    mantissa at a larger one. *)
Lemma scaled_lt_normal (m1 e1 m2 e2 : Z) :
  -2200 <= e1 -> m1 < 2 ^ 53 -> 2 ^ 52 <= m2 -> e1 < e2 ->
  scaled m1 e1 < scaled m2 e2.
Proof.
  intros He Hm1 Hm2 Hlt.
  apply Z.lt_le_trans with (scaled (2 ^ 53) e1).
  - unfold scaled. apply Z.mul_lt_mono_pos_r; [apply pow2_pos; lia | exact Hm1].
  - apply Z.le_trans with (scaled (2 ^ 52) (e1 + 1)).
    + rewrite scaled_shift by lia. apply Z.eq_le_incl. reflexivity.
    + apply Z.le_trans with (scaled (2 ^ 52) e2).
      * unfold scaled. apply Z.mul_le_mono_nonneg_l; [lia | apply pow2_le; lia].
      * apply scaled_mono; lia.
Qed.

Lemma bounded_facts (m : positive) (e : Z) :
  bounded prec emax m e = true ->
  -1074 <= e <= 971 /\ Zpos m < 2 ^ 53 /\ (-1074 < e -> 2 ^ 52 <= Zpos m).
Proof.
  unfold bounded, canonical_mantissa. rewrite fexp_binary64.
  change (emax - prec) with 971. intros H.
  apply andb_true_iff in H as [Hc He]. apply Z.eqb_eq in Hc. apply Z.leb_le in He.
  pose proof (digits2_pos_bounds m) as Hd.
  set (d := Zpos (digits2_pos m)) in *.
  assert (Hdpos : 0 < d) by (unfold d; lia).
  split; [lia|]. split.
  - assert (2 ^ d <= 2 ^ 53) by (apply pow2_le; lia). lia.
  - intros Hn. replace 52 with (d - 1) by lia. apply Hd.
Qed.

(** Doubles that are finite and positive compare as their values do. *)
Lemma SFcompare_bounded (m1 : positive) (e1 : Z) (m2 : positive) (e2 : Z) :
  bounded prec emax m1 e1 = true -> bounded prec emax m2 e2 = true ->
  SFcompare (S754_finite false m1 e1) (S754_finite false m2 e2)
  = Some (scaled (Zpos m1) e1 ?= scaled (Zpos m2) e2).
Proof.
  intros H1 H2.
  destruct (bounded_facts m1 e1 H1) as (He1 & Hhi1 & Hlo1).
  destruct (bounded_facts m2 e2 H2) as (He2 & Hhi2 & Hlo2).
  cbn [SFcompare]. f_equal. symmetry.
  destruct (Z.compare_spec e1 e2) as [Heq|Hlt|Hgt].
  - subst e2. rewrite Pos.compare_cont_spec. cbn [Pos.switch_Eq].
    unfold scaled. rewrite <- Zmult_compare_compat_r by (apply Z.lt_gt, pow2_pos; lia).
    destruct (Zpos m1 ?= Zpos m2) eqn:E; cbn in E; rewrite E; reflexivity.
  - apply Z.compare_lt_iff. apply scaled_lt_normal; lia.
  - apply Z.compare_gt_iff. apply scaled_lt_normal; lia.
Qed.

Section RoundingBound.

(** A representable bound: a finite positive double [b]. *)
Variables (mb : positive) (eb : Z).
Hypothesis Hb : bounded prec emax mb eb = true.

(** The mantissa that rounding keeps, against a representable bound. *)
Lemma kept_le_bound (mx : positive) (ex m e s : Z) :
  -2200 <= ex -> 0 <= s -> e = ex + s ->
  m <= Zpos mx / 2 ^ s + 1 ->
  (Zpos mx mod 2 ^ s = 0 -> m = Zpos mx / 2 ^ s) ->
  (0 < s -> -1074 <= e /\ (-1074 < e -> 2 ^ 52 <= Zpos mx / 2 ^ s)) ->
  scaled (Zpos mx) ex <= scaled (Zpos mb) eb ->
  scaled m e <= scaled (Zpos mb) eb.
Proof.
  intros Hex Hs He Hm Hexact Hshift Hle.
  destruct (bounded_facts mb eb Hb) as (Heb & Hhib & Hlob).
  assert (Hps : 0 < 2 ^ s) by (apply pow2_pos; lia).
  destruct (Z.eq_dec s 0) as [->|Hs0].
  - rewrite Z.mod_1_r in Hexact. rewrite Z.div_1_r in Hexact.
    rewrite Hexact by reflexivity. replace e with ex by lia. exact Hle.
  - destruct Hshift as [Hemin Hnorm]; [lia|].
    pose proof (Z.div_mod (Zpos mx) (2 ^ s) ltac:(lia)) as Hdm.
    pose proof (Z.mod_pos_bound (Zpos mx) (2 ^ s) Hps) as Hrem.
    set (q := Zpos mx / 2 ^ s) in *. set (r := Zpos mx mod 2 ^ s) in *.
    destruct (Z_le_gt_dec e eb) as [Hee|Hee].
    + (* the bound is a multiple of the kept unit *)
      replace eb with (e + (eb - e)) by lia.
      rewrite scaled_shift by lia.
      apply scaled_mono; [lia|].
      set (B := Zpos mb * 2 ^ (eb - e)).
      assert (HB : Zpos mx <= B * 2 ^ s).
      { apply scaled_cancel with ex; [lia|].
        rewrite <- scaled_shift by lia. rewrite <- He.
        unfold B. rewrite <- scaled_shift by lia.
        replace (e + (eb - e)) with eb by lia. exact Hle. }
      destruct (Z.eq_dec r 0) as [Hr0|Hr0].
      * rewrite (Hexact Hr0). nia.
      * assert (q < B) by nia. lia.
    + (* the bound lies below every double with the kept exponent *)
      exfalso.
      assert (scaled (Zpos mb) eb < scaled q e)
        by (apply scaled_lt_normal; lia).
      assert (scaled q e <= scaled (Zpos mx) ex).
      { rewrite He, scaled_shift by lia. apply scaled_mono; [lia|]. nia. }
      lia.
Qed.

Lemma kept_ge_bound (mx : positive) (ex m e s : Z) :
  -2200 <= ex -> 0 <= s -> e = ex + s ->
  Zpos mx / 2 ^ s <= m ->
  (0 < s -> -1074 <= e /\ (-1074 < e -> 2 ^ 52 <= Zpos mx / 2 ^ s)) ->
  scaled (Zpos mb) eb <= scaled (Zpos mx) ex ->
  scaled (Zpos mb) eb <= scaled m e.
Proof.
  intros Hex Hs He Hm Hshift Hle.
  destruct (bounded_facts mb eb Hb) as (Heb & Hhib & Hlob).
  assert (Hps : 0 < 2 ^ s) by (apply pow2_pos; lia).
  destruct (Z.eq_dec s 0) as [->|Hs0].
  - rewrite Z.div_1_r in Hm. replace e with ex by lia.
    apply Z.le_trans with (scaled (Zpos mx) ex); [exact Hle|].
    apply scaled_mono; lia.
  - destruct Hshift as [Hemin Hnorm]; [lia|].
    set (q := Zpos mx / 2 ^ s) in *.
    apply Z.le_trans with (scaled q e); [|apply scaled_mono; lia].
    destruct (Z_le_gt_dec e eb) as [Hee|Hee].
    + replace eb with (e + (eb - e)) by lia.
      rewrite scaled_shift by lia.
      apply scaled_mono; [lia|].
      set (B := Zpos mb * 2 ^ (eb - e)).
      assert (HB : B * 2 ^ s <= Zpos mx).
      { apply scaled_cancel with ex; [lia|].
        rewrite <- scaled_shift by lia. rewrite <- He.
        unfold B. rewrite <- scaled_shift by lia.
        replace (e + (eb - e)) with eb by lia. exact Hle. }
      unfold q. apply Z.div_le_lower_bound; [lia|]. lia.
    + apply Z.lt_le_incl. apply scaled_lt_normal; lia.
Qed.

(** Rounding does not cross a representable bound: from below ... *)
Lemma round_le_bound (mx : positive) (ex : Z) :
  -2200 <= ex ->
  ex <= fexp prec emax (Zpos (digits2_pos mx) + ex) ->
  scaled (Zpos mx) ex <= scaled (Zpos mb) eb ->
  exists v : Z,
    magnitude (binary_round_aux prec emax false (Zpos mx) ex loc_Exact) = Some v
    /\ v <= scaled (Zpos mb) eb.
Proof.
  intros Hex Hal Hle.
  destruct (binary_round_aux_magnitude mx ex Hex)
    as (m & e & s & Hs & He & Hm & Hexact & Hshift & Hr).
  assert (Hke : scaled m e <= scaled (Zpos mb) eb)
    by (apply (kept_le_bound mx ex m e s); try assumption; lia).
  destruct Hr as [[_ Hbig]|Hr].
  - exfalso. specialize (Hbig Hal).
    destruct (bounded_facts mb eb Hb) as (Heb & Hhib & _).
    assert (scaled (Zpos mb) eb < 2 ^ (1024 + 2200)).
    { replace (1024 + 2200) with (53 + (971 + 2200)) by lia.
      rewrite pow2_split by lia. unfold scaled.
      assert (2 ^ (eb + 2200) <= 2 ^ (971 + 2200)) by (apply pow2_le; lia).
      assert (0 < 2 ^ (eb + 2200)) by (apply pow2_pos; lia).
      apply Z.lt_le_trans with (2 ^ 53 * 2 ^ (eb + 2200)).
      - apply Z.mul_lt_mono_pos_r; lia.
      - apply Z.mul_le_mono_nonneg_l; lia. }
    lia.
  - exists (scaled m e). split; assumption.
Qed.

(** ... and from above. *)
Lemma round_ge_bound (mx : positive) (ex : Z) :
  -2200 <= ex ->
  scaled (Zpos mb) eb <= scaled (Zpos mx) ex ->
  binary_round_aux prec emax false (Zpos mx) ex loc_Exact = S754_infinity false
  \/ exists v : Z,
       magnitude (binary_round_aux prec emax false (Zpos mx) ex loc_Exact) = Some v
       /\ scaled (Zpos mb) eb <= v.
Proof.
  intros Hex Hle.
  destruct (binary_round_aux_magnitude mx ex Hex)
    as (m & e & s & Hs & He & Hm & Hexact & Hshift & Hr).
  destruct Hr as [[Hinf _]|Hr]; [left; exact Hinf|].
  right. exists (scaled m e). split; [exact Hr|].
  apply (kept_ge_bound mx ex m e s); try assumption; lia.
Qed.

End RoundingBound.

Lemma some_eq {A : Type} (a b : A) : Some a = Some b -> a = b.
Proof. congruence. Qed.

Lemma iter_xO_value (m d : positive) : Zpos (Pos.iter xO m d) = Zpos m * 2 ^ Zpos d.
Proof.
  induction d as [|d IH] using Pos.peano_ind.
  - cbn [Pos.iter]. rewrite (Pos2Z.inj_xO m). change (2 ^ 1) with 2. ring.
  - rewrite Pos.iter_succ, (Pos2Z.inj_xO (Pos.iter xO m d)), IH, Pos2Z.inj_succ.
    rewrite Z.pow_succ_r by lia. ring.
Qed.

Lemma iter_xO_digits (m d : positive) :
  Zpos (digits2_pos (Pos.iter xO m d)) = Zpos (digits2_pos m) + Zpos d.
Proof.
  induction d as [|d IH] using Pos.peano_ind.
  - cbn [Pos.iter digits2_pos]. lia.
  - rewrite Pos.iter_succ. cbn [digits2_pos]. rewrite Pos2Z.inj_succ, IH. lia.
Qed.

(** Aligning a mantissa to a smaller exponent keeps the value. *)
Lemma shl_align_spec (mx : positive) (ex e' : Z) :
  -2200 <= ex -> -2200 <= e' ->
  snd (shl_align mx ex e') = Z.min ex e'
  /\ scaled (Zpos (fst (shl_align mx ex e'))) (Z.min ex e') = scaled (Zpos mx) ex
  /\ Zpos (digits2_pos (fst (shl_align mx ex e'))) + Z.min ex e'
     = Zpos (digits2_pos mx) + ex.
Proof.
  intros Hex He'. unfold shl_align.
  destruct (e' - ex) as [|d|d] eqn:Ed; cbn [fst snd].
  - replace (Z.min ex e') with ex by lia. repeat split.
  - replace (Z.min ex e') with ex by lia. repeat split.
  - replace (Z.min ex e') with e' by lia.
    assert (Hd : ex = e' + Zpos d) by lia.
    split; [reflexivity|]. split.
    + rewrite iter_xO_value, Hd, scaled_shift by lia. reflexivity.
    + rewrite iter_xO_digits. lia.
Qed.

Section OperationBound.

Variables (mb : positive) (eb : Z).
Hypothesis Hb : bounded prec emax mb eb = true.

Lemma binary_round_le_bound (m : positive) (e : Z) :
  -2200 <= e ->
  scaled (Zpos m) e <= scaled (Zpos mb) eb ->
  exists v : Z,
    magnitude (binary_round prec emax false m e) = Some v
    /\ v <= scaled (Zpos mb) eb.
Proof.
  intros He Hle. unfold binary_round.
  assert (Hf : -2200 <= fexp prec emax (Zpos (digits2_pos m) + e))
    by (rewrite fexp_binary64; lia).
  destruct (shl_align_spec m e (fexp prec emax (Zpos (digits2_pos m) + e)) He Hf)
    as (He' & Hv & Hd).
  destruct (shl_align m e (fexp prec emax (Zpos (digits2_pos m) + e))) as [mz ez].
  cbn [fst snd] in *. subst ez.
  apply (round_le_bound mb eb Hb).
  - lia.
  - rewrite Hd. lia.
  - rewrite Hv. exact Hle.
Qed.

Lemma binary_round_ge_bound (m : positive) (e : Z) :
  -2200 <= e ->
  scaled (Zpos mb) eb <= scaled (Zpos m) e ->
  binary_round prec emax false m e = S754_infinity false
  \/ exists v : Z,
       magnitude (binary_round prec emax false m e) = Some v
       /\ scaled (Zpos mb) eb <= v.
Proof.
  intros He Hle. unfold binary_round.
  assert (Hf : -2200 <= fexp prec emax (Zpos (digits2_pos m) + e))
    by (rewrite fexp_binary64; lia).
  destruct (shl_align_spec m e (fexp prec emax (Zpos (digits2_pos m) + e)) He Hf)
    as (He' & Hv & Hd).
  destruct (shl_align m e (fexp prec emax (Zpos (digits2_pos m) + e))) as [mz ez].
  cbn [fst snd] in *. subst ez.
  apply (round_ge_bound mb eb Hb).
  - lia.
  - rewrite Hv. exact Hle.
Qed.

(** The product of two doubles that are not negative stays below a
    representable bound of the exact product. *)
Lemma SFmul_le_bound (x y : spec_float) (vx vy : Z) :
  valid_binary x = true -> valid_binary y = true ->
  magnitude x = Some vx -> magnitude y = Some vy ->
  vx * vy <= scaled (Zpos mb) eb * 2 ^ 2200 ->
  exists v : Z, magnitude (SF64mul x y) = Some v /\ 0 <= v <= scaled (Zpos mb) eb.
Proof.
  intros Hx Hy Ex Ey Hle.
  destruct (bounded_facts mb eb Hb) as (Heb & _).
  pose proof (scaled_pos mb eb ltac:(lia)) as HB.
  destruct x as [sx|sx| |sx mx ex], y as [sy|sy| |sy my ey];
    try discriminate Ex; try discriminate Ey;
    try (destruct sx; try discriminate Ex); try (destruct sy; try discriminate Ey);
    try (exists 0; split; [reflexivity | lia]).
  unfold magnitude in Ex, Ey. apply some_eq in Ex, Ey. subst vx vy.
  cbn [valid_binary] in Hx, Hy.
  destruct (bounded_facts mx ex Hx) as (Hex & Hhix & Hlox).
  destruct (bounded_facts my ey Hy) as (Hey & Hhiy & Hloy).
  unfold SF64mul. cbn [SFmul xorb].
  assert (Hprod : scaled (Zpos mx) ex * scaled (Zpos my) ey
                  = scaled (Zpos (mx * my)) (ex + ey) * 2 ^ 2200).
  { assert (Hp : 2 ^ (ex + ey + 2200) * 2 ^ 2200 = 2 ^ (ex + 2200) * 2 ^ (ey + 2200))
      by (rewrite <- !pow2_split by lia; f_equal; lia).
    unfold scaled. rewrite Pos2Z.inj_mul.
    transitivity (Zpos mx * Zpos my * (2 ^ (ex + ey + 2200) * 2 ^ 2200)); [|ring].
    rewrite Hp. ring. }
  destruct (round_le_bound mb eb Hb (mx * my) (ex + ey)) as (v & Ev & Hv).
  - lia.
  - rewrite fexp_binary64.
    destruct (Z_le_gt_dec (ex + ey) (-1074)) as [|Hbig]; [lia|].
    assert (2 ^ 52 <= Zpos (mx * my)).
    { rewrite Pos2Z.inj_mul.
      destruct (Z_le_gt_dec ex (-1074)) as [|Hnx].
      - assert (2 ^ 52 <= Zpos my) by (apply Hloy; lia). nia.
      - assert (2 ^ 52 <= Zpos mx) by (apply Hlox; lia). nia. }
    assert (53 <= Zdigits2 (Zpos (mx * my))) by (apply Zdigits2_ge; lia).
    cbn [Zdigits2] in *. lia.
  - apply Z.mul_le_mono_pos_r with (2 ^ 2200); [apply pow2_pos; lia|].
    rewrite <- Hprod. exact Hle.
  - exists v. split; [exact Ev|]. split; [|exact Hv].
    destruct (binary_round_aux prec emax false (Zpos (mx * my)) (ex + ey) loc_Exact)
      as [s|s| |s m e]; try discriminate Ev; unfold magnitude in Ev.
    + apply some_eq in Ev. subst v. lia.
    + destruct s; [discriminate Ev|]. apply some_eq in Ev. subst v.
      unfold scaled. apply Z.mul_nonneg_nonneg; [lia|]. apply Z.pow_nonneg. lia.
Qed.

Lemma magnitude_nonneg (x : spec_float) (v : Z) :
  valid_binary x = true -> magnitude x = Some v -> 0 <= v.
Proof.
  intros Hx E. destruct x as [s|s| |s m e]; try discriminate E; unfold magnitude in E.
  - apply some_eq in E. subst v. lia.
  - destruct s; [discriminate E|]. apply some_eq in E. subst v.
    destruct (bounded_facts m e Hx) as (He & _).
    apply Z.lt_le_incl, scaled_pos. lia.
Qed.

Lemma SFadd_finite (mx : positive) (ex : Z) (my : positive) (ey : Z) :
  SF64add (S754_finite false mx ex) (S754_finite false my ey)
  = binary_round prec emax false
      (fst (shl_align mx ex (Z.min ex ey)) + fst (shl_align my ey (Z.min ex ey)))
      (Z.min ex ey).
Proof. reflexivity. Qed.

Lemma SFadd_finite_value (mx : positive) (ex : Z) (my : positive) (ey : Z) :
  -2200 <= ex -> -2200 <= ey ->
  scaled (Zpos (fst (shl_align mx ex (Z.min ex ey)) + fst (shl_align my ey (Z.min ex ey))))
         (Z.min ex ey)
  = scaled (Zpos mx) ex + scaled (Zpos my) ey.
Proof.
  intros Hex Hey.
  destruct (shl_align_spec mx ex (Z.min ex ey) Hex ltac:(lia)) as (_ & Hx & _).
  destruct (shl_align_spec my ey (Z.min ex ey) Hey ltac:(lia)) as (_ & Hy & _).
  replace (Z.min ex (Z.min ex ey)) with (Z.min ex ey) in Hx by lia.
  replace (Z.min ey (Z.min ex ey)) with (Z.min ex ey) in Hy by lia.
  rewrite <- Hx, <- Hy. unfold scaled. rewrite Pos2Z.inj_add. ring.
Qed.

(** The sum of two doubles that are not negative stays on its side of a
    representable bound of the exact sum. *)
Lemma SFadd_le_bound (x y : spec_float) (vx vy : Z) :
  valid_binary x = true -> valid_binary y = true ->
  magnitude x = Some vx -> magnitude y = Some vy ->
  vx + vy <= scaled (Zpos mb) eb ->
  exists v : Z, magnitude (SF64add x y) = Some v /\ v <= scaled (Zpos mb) eb.
Proof.
  intros Hx Hy Ex Ey Hle.
  pose proof (magnitude_nonneg x vx Hx Ex) as Hvx.
  pose proof (magnitude_nonneg y vy Hy Ey) as Hvy.
  destruct x as [sx|sx| |sx mx ex], y as [sy|sy| |sy my ey];
    try discriminate Ex; try discriminate Ey;
    try (destruct sx; try discriminate Ex); try (destruct sy; try discriminate Ey);
    unfold magnitude in Ex, Ey; apply some_eq in Ex, Ey; subst vx vy;
    try (exists 0; split; [reflexivity | lia]);
    try (eexists; split; [reflexivity | lia]).
  cbn [valid_binary] in Hx, Hy.
  destruct (bounded_facts mx ex Hx) as (Hex & _).
  destruct (bounded_facts my ey Hy) as (Hey & _).
  rewrite SFadd_finite.
  apply binary_round_le_bound; [lia|].
  rewrite SFadd_finite_value by lia. exact Hle.
Qed.

Lemma SFadd_ge_bound (x y : spec_float) (vx vy : Z) :
  valid_binary x = true -> valid_binary y = true ->
  magnitude x = Some vx -> magnitude y = Some vy ->
  scaled (Zpos mb) eb <= vx + vy ->
  SF64add x y = S754_infinity false
  \/ exists v : Z, magnitude (SF64add x y) = Some v /\ scaled (Zpos mb) eb <= v.
Proof.
  intros Hx Hy Ex Ey Hle.
  destruct (bounded_facts mb eb Hb) as (Heb & _).
  pose proof (scaled_pos mb eb ltac:(lia)) as HB.
  destruct x as [sx|sx| |sx mx ex], y as [sy|sy| |sy my ey];
    try discriminate Ex; try discriminate Ey;
    try (destruct sx; try discriminate Ex); try (destruct sy; try discriminate Ey);
    unfold magnitude in Ex, Ey; apply some_eq in Ex, Ey; subst vx vy;
    try (exfalso; lia);
    try (right; eexists; split; [reflexivity | lia]).
  cbn [valid_binary] in Hx, Hy.
  destruct (bounded_facts mx ex Hx) as (Hex & _).
  destruct (bounded_facts my ey Hy) as (Hey & _).
  rewrite SFadd_finite.
  apply binary_round_ge_bound; [lia|].
  rewrite SFadd_finite_value by lia. exact Hle.
Qed.

End OperationBound.

Lemma finite_bounded (x : float) (m : positive) (e : Z) (s : bool) :
  Prim2SF x = S754_finite s m e -> bounded prec emax m e = true.
Proof.
  intros E. pose proof (Prim2SF_valid x) as H. rewrite E in H. exact H.
Qed.

(** Doubles that are not negative compare as their values do. *)
Lemma leb_of_magnitude (x y : float) (vx vy : Z) :
  magnitude (Prim2SF x) = Some vx -> magnitude (Prim2SF y) = Some vy ->
  vx <= vy -> PrimFloat.leb x y = true.
Proof.
  intros Ex Ey Hle. rewrite FloatAxioms.leb_spec. unfold SFleb.
  destruct (Prim2SF x) as [sx|sx| |sx mx ex] eqn:Px; try discriminate Ex;
    destruct (Prim2SF y) as [sy|sy| |sy my ey] eqn:Py; try discriminate Ey;
    try (destruct sx; try discriminate Ex); try (destruct sy; try discriminate Ey);
    try reflexivity.
  all: unfold magnitude in Ex, Ey; apply some_eq in Ex, Ey; subst vx vy.
  all: pose proof (finite_bounded x mx ex false Px) as Bx.
  all: destruct (bounded_facts mx ex Bx) as (He & _).
  all: pose proof (scaled_pos mx ex ltac:(lia)).
  1, 2: exfalso; lia.
  rewrite SFcompare_bounded by (eapply finite_bounded; eassumption).
  destruct (Z.compare_spec (scaled (Zpos mx) ex) (scaled (Zpos my) ey));
    [reflexivity | reflexivity | lia].
Qed.

(** A double in [0, 1): its value is below that of 1. *)
Lemma magnitude_unit (d : float) :
  PrimFloat.leb 0 d = true -> PrimFloat.ltb d 1 = true ->
  exists v : Z, magnitude (Prim2SF d) = Some v /\ 0 <= v < 2 ^ 2200.
Proof.
  rewrite FloatAxioms.leb_spec, FloatAxioms.ltb_spec.
  change (Prim2SF 0) with (S754_zero false).
  change (Prim2SF 1) with (S754_finite false 4503599627370496 (-52)).
  unfold SFleb, SFltb.
  destruct (Prim2SF d) as [s|s| |s m e] eqn:Pd; try destruct s; try discriminate.
  - intros _ _. exists 0. split; [reflexivity|]. split; [lia | apply pow2_pos; lia].
  - intros _ _. exists 0. split; [reflexivity|]. split; [lia | apply pow2_pos; lia].
  - intros _. rewrite SFcompare_bounded;
      [|eapply finite_bounded; eassumption | reflexivity].
    destruct (Z.compare_spec (scaled (Zpos m) e) (scaled (Zpos 4503599627370496) (-52)))
      as [|Hlt|]; try discriminate.
    intros _. exists (scaled (Zpos m) e). split; [reflexivity|].
    destruct (bounded_facts m e (finite_bounded d m e false Pd)) as (He & _).
    pose proof (scaled_pos m e ltac:(lia)).
    replace (2 ^ 2200) with (scaled (Zpos 4503599627370496) (-52)); [lia|].
    unfold scaled. change (Zpos 4503599627370496) with (2 ^ 52).
    rewrite <- pow2_split by lia. reflexivity.
Qed.

(** For a draw [d] in [0, 1), a positive scale [a] and a positive offset
    [c] whose exact sum is the double [b]: [d * a + c] is computed between
    [c] and [b]. *)
Lemma unit_affine_bounds (d a c b : float)
    (ma : positive) (ea : Z) (mc : positive) (ec : Z) (mb : positive) (eb : Z) :
  Prim2SF a = S754_finite false ma ea ->
  Prim2SF c = S754_finite false mc ec ->
  Prim2SF b = S754_finite false mb eb ->
  scaled (Zpos ma) ea + scaled (Zpos mc) ec = scaled (Zpos mb) eb ->
  PrimFloat.leb 0 d = true -> PrimFloat.ltb d 1 = true ->
  PrimFloat.leb c (d * a + c) = true /\ PrimFloat.leb (d * a + c) b = true.
Proof.
  intros Pa Pc Pb Hsum H0 H1.
  destruct (magnitude_unit d H0 H1) as (vd & Ed & Hvd).
  pose proof (finite_bounded a ma ea false Pa) as Ba.
  pose proof (finite_bounded c mc ec false Pc) as Bc.
  pose proof (finite_bounded b mb eb false Pb) as Bb.
  destruct (bounded_facts ma ea Ba) as (Hea & _).
  destruct (bounded_facts mc ec Bc) as (Hec & _).
  pose proof (scaled_pos ma ea ltac:(lia)) as Hva.
  assert (Ea : magnitude (Prim2SF a) = Some (scaled (Zpos ma) ea)) by (rewrite Pa; reflexivity).
  assert (Ec : magnitude (Prim2SF c) = Some (scaled (Zpos mc) ec)) by (rewrite Pc; reflexivity).
  assert (Eb : magnitude (Prim2SF b) = Some (scaled (Zpos mb) eb)) by (rewrite Pb; reflexivity).
  destruct (SFmul_le_bound ma ea Ba (Prim2SF d) (Prim2SF a) vd (scaled (Zpos ma) ea)
              (Prim2SF_valid d) (Prim2SF_valid a) Ed Ea) as (vp & Ep & Hvp).
  { set (P := 2 ^ 2200) in *. set (va := scaled (Zpos ma) ea) in *. nia. }
  rewrite <- FloatAxioms.mul_spec in Ep.
  destruct (SFadd_le_bound mb eb Bb (Prim2SF (d * a)) (Prim2SF c) vp (scaled (Zpos mc) ec)
              (Prim2SF_valid _) (Prim2SF_valid c) Ep Ec) as (vs & Es & Hvs).
  { lia. }
  destruct (SFadd_ge_bound mc ec Bc (Prim2SF (d * a)) (Prim2SF c) vp (scaled (Zpos mc) ec)
              (Prim2SF_valid _) (Prim2SF_valid c) Ep Ec) as [Hinf|(vs' & Es' & Hvs')].
  { lia. }
  { rewrite Hinf in Es. discriminate Es. }
  rewrite <- FloatAxioms.add_spec in Es, Es'.
  assert (vs' = vs) by congruence. subst vs'.
  split.
  - exact (leb_of_magnitude c (d * a + c) _ _ Ec Es Hvs').
  - exact (leb_of_magnitude (d * a + c) b _ _ Es Eb Hvs).
Qed.

(** For a draw [d] in [0, 1) and a positive scale [a]: [d * a] is
    computed between 0 and [a]. *)
Lemma unit_scale_bounds (d a : float) (ma : positive) (ea : Z) :
  Prim2SF a = S754_finite false ma ea ->
  PrimFloat.leb 0 d = true -> PrimFloat.ltb d 1 = true ->
  PrimFloat.leb 0 (d * a) = true /\ PrimFloat.leb (d * a) a = true.
Proof.
  intros Pa H0 H1.
  destruct (magnitude_unit d H0 H1) as (vd & Ed & Hvd).
  pose proof (finite_bounded a ma ea false Pa) as Ba.
  destruct (bounded_facts ma ea Ba) as (Hea & _).
  pose proof (scaled_pos ma ea ltac:(lia)) as Hva.
  assert (Ea : magnitude (Prim2SF a) = Some (scaled (Zpos ma) ea)) by (rewrite Pa; reflexivity).
  destruct (SFmul_le_bound ma ea Ba (Prim2SF d) (Prim2SF a) vd (scaled (Zpos ma) ea)
              (Prim2SF_valid d) (Prim2SF_valid a) Ed Ea) as (vp & Ep & Hvp).
  { set (P := 2 ^ 2200) in *. set (va := scaled (Zpos ma) ea) in *. nia. }
  rewrite <- FloatAxioms.mul_spec in Ep.
  split.
  - apply (leb_of_magnitude 0 (d * a) 0 vp); [reflexivity | exact Ep | lia].
  - apply (leb_of_magnitude (d * a) a vp (scaled (Zpos ma) ea)); [exact Ep | exact Ea | lia].
Qed.

End Binary64Rounding.

Set Implicit Arguments.

(** ** The explode operation *)

Section Explode.

Context {num : Type} {JS : JSNumber num}.

Variable random : nat -> num.

(** The point that three.js computes is the spherical point. *)
Lemma setFromSphericalCoords_spherical (radius phi theta : num) :
  setFromSphericalCoords radius phi theta = sphericalPoint radius phi theta.
Proof. reflexivity. Qed.

Lemma scatter_step (i : nat) (positions : list num) (k : nat) :
  scatter random i positions k
  = (Return (storeVec positions i (explosionPoint random k)), k + 3).
Proof.
  unfold scatter, bind, Math_random, ret, explosionPoint, explosionRadius.
  rewrite setFromSphericalCoords_spherical.
  replace (k + 1) with (Datatypes.S k) by lia.
  replace (k + 2) with (Datatypes.S (Datatypes.S k)) by lia.
  replace (k + 3) with (Datatypes.S (Datatypes.S (Datatypes.S k))) by lia.
  reflexivity.
Qed.

(** A loop that stores, for each particle in turn, the point of the next
    three draws: what is stored in a triple is the rounding of the point
    of its draws. *)
Lemma fill_loop (body : nat -> list num -> Rand (list num)) (point : nat -> Vector3.t num) :
  (forall i a k, body i a k = (Return (storeVec a i (point k)), k + 3)) ->
  forall (count start : nat) (positions : list num) (k : nat),
  exists positions' : list num,
    forLoop start count body positions k = (Return positions', k + 3 * count)
    /\ length positions' = length positions
    /\ (forall j d, j < start * 3 -> nth j positions' d = nth j positions d)
    /\ (forall i d, start <= i < start + count ->
                    i * 3 + 2 < length positions ->
          nth (i * 3) positions' d = fround (Vector3.x (point (k + 3 * (i - start))))
          /\ nth (i * 3 + 1) positions' d = fround (Vector3.y (point (k + 3 * (i - start))))
          /\ nth (i * 3 + 2) positions' d = fround (Vector3.z (point (k + 3 * (i - start))))).
Proof.
  intros Hbody count.
  induction count as [|c IH]; intros start positions k; simpl forLoop.
  - exists positions. unfold ret. repeat split; try lia.
    f_equal. lia.
  - unfold bind. rewrite Hbody.
    destruct (IH (Datatypes.S start) (storeVec positions start (point k)) (k + 3))
      as (positions' & E & Hlen & Hlow & Hnew).
    exists positions'. rewrite E. rewrite storeVec_length in Hlen, Hnew.
    split; [f_equal; lia|]. split; [exact Hlen|]. split.
    + intros j d Hj. rewrite Hlow by lia. apply storeVec_other. lia.
    + intros i d Hi Hin.
      destruct (Nat.eq_dec i start) as [->|Hne].
      * replace (k + 3 * (start - start)) with k by lia.
        rewrite !Hlow by lia.
        exact (@storeVec_here _ _ positions start (point k) d Hin).
      * replace (k + 3 * (i - start))
          with (k + 3 + 3 * (i - Datatypes.S start)) by lia.
        apply Hnew; lia.
Qed.

(** The loop of [explodeUniverse], from particle [start] and draw [k]. *)
Lemma scatter_loop (count start : nat) (positions : list num) (k : nat) :
  exists positions' : list num,
    forLoop start count (scatter random) positions k
    = (Return positions', k + 3 * count)
    /\ length positions' = length positions
    /\ (forall j d, j < start * 3 -> nth j positions' d = nth j positions d)
    /\ (forall i d, start <= i < start + count ->
                    i * 3 + 2 < length positions ->
          nth (i * 3) positions' d
          = fround (Vector3.x (explosionPoint random (k + 3 * (i - start))))
          /\ nth (i * 3 + 1) positions' d
             = fround (Vector3.y (explosionPoint random (k + 3 * (i - start))))
          /\ nth (i * 3 + 2) positions' d
             = fround (Vector3.z (explosionPoint random (k + 3 * (i - start))))).
Proof. exact (fill_loop _ _ scatter_step count start positions k). Qed.

(** The second loop of [createParticles] is of the same kind. *)
Lemma compress_step (i : nat) (sphere : list num) (k : nat) :
  compress random i sphere k
  = (Return (storeVec sphere i (compressedPoint random k)), k + 3).
Proof.
  unfold compress, bind, Math_random, ret, compressedPoint, compressedRadius.
  rewrite setFromSphericalCoords_spherical.
  replace (k + 1) with (Datatypes.S k) by lia.
  replace (k + 2) with (Datatypes.S (Datatypes.S k)) by lia.
  replace (k + 3) with (Datatypes.S (Datatypes.S (Datatypes.S k))) by lia.
  reflexivity.
Qed.

(** [explodeUniverse] on any numbers: it returns, changes nothing but the
    positions and the number of draws made, and every complete triple of
    the positions is the rounding of the point of the particle's three
    draws. *)
Lemma explodeUniverse_points (w : @World num) :
  exists w' : @World num,
    explodeUniverse random w = (Return tt, w')
    /\ w' = set_particles (set_positions (Points.positions (particles w')) (particles w))
                          (set_drawn (drawn w') w)
    /\ drawn w' = drawn w + 3 * ((length (Points.positions (particles w)) + 2) / 3)
    /\ length (Points.positions (particles w')) = length (Points.positions (particles w))
    /\ forall i d : _,
         i * 3 + 2 < length (Points.positions (particles w)) ->
         nth (i * 3) (Points.positions (particles w')) d
         = fround (Vector3.x (explosionPoint random (drawn w + 3 * i)))
         /\ nth (i * 3 + 1) (Points.positions (particles w')) d
            = fround (Vector3.y (explosionPoint random (drawn w + 3 * i)))
         /\ nth (i * 3 + 2) (Points.positions (particles w')) d
            = fround (Vector3.z (explosionPoint random (drawn w + 3 * i))).
Proof.
  destruct (scatter_loop ((length (Points.positions (particles w)) + 2) / 3) 0
              (Points.positions (particles w)) (drawn w))
    as (positions' & E & Hlen & _ & Hnew).
  unfold explodeUniverse, bind, get, sample, modify. rewrite E.
  eexists. split; [reflexivity|]. cbn.
  split; [reflexivity|]. split; [reflexivity|]. split; [exact Hlen|].
  intros i d Hi.
  assert (Hcount : 0 <= i < 0 + (length (Points.positions (particles w)) + 2) / 3).
  { split; [lia|]. rewrite Nat.add_0_l. unfold lt.
    apply Nat.div_le_lower_bound; lia. }
  destruct (Hnew i d Hcount Hi) as (Hx & Hy & Hz).
  rewrite Nat.sub_0_r in Hx, Hy, Hz. repeat split; assumption.
Qed.

End Explode.

(** *** In exact arithmetic: the shell *)

Section ExplodeExact.

Local Open Scope R_scope.

Variable random : nat -> R.

(** A point given by spherical coordinates lies at distance [radius] from
    the origin. *)
Lemma sphericalPoint_norm (radius phi theta : R) :
  let p := sphericalPoint radius phi theta in
  Vector3.x p * Vector3.x p + Vector3.y p * Vector3.y p + Vector3.z p * Vector3.z p
  = radius * radius.
Proof.
  cbn.
  assert (Hphi : sin phi * sin phi + cos phi * cos phi = 1)
    by (pose proof (sin2_cos2 phi) as H; unfold Rsqr in H; exact H).
  assert (Htheta : sin theta * sin theta + cos theta * cos theta = 1)
    by (pose proof (sin2_cos2 theta) as H; unfold Rsqr in H; exact H).
  transitivity (radius * radius
                * (sin phi * sin phi * (sin theta * sin theta + cos theta * cos theta)
                   + cos phi * cos phi)); [ring|].
  rewrite Htheta, Rmult_1_r, Hphi. ring.
Qed.

(** Without rounding, the point of an explosion lies in the shell. *)
Lemma explosion_radius (k : nat) :
  0 <= random k < 1 ->
  let p := explosionPoint random k in
  50 <= R_sqrt.sqrt (Vector3.x p * Vector3.x p + Vector3.y p * Vector3.y p
              + Vector3.z p * Vector3.z p) < 350.
Proof.
  intros Hk p. subst p. unfold explosionPoint.
  rewrite sphericalPoint_norm.
  assert (Hr : explosionRadius random k = random k * 300 + 50).
  { unfold explosionRadius. exact_arith. lra. }
  rewrite Hr, sqrt_square by lra. lra.
Qed.

End ExplodeExact.

(** *** In binary64, with stores into a [Float32Array] *)

Section ExplodeBinary64.

Variable L : Binary64.Libm.



End ExplodeBinary64.




(** ** Frames *)

Section Frames.

Context {num : Type} {JS : JSNumber num}.

Variable particleCount : nat.
Variable random : nat -> num.

Lemma scatter_returns (i : nat) (positions : list num) (k : nat) :
  exists (positions' : list num) (k' : nat),
    scatter random i positions k = (Return positions', k').
Proof. unfold scatter, bind, Math_random, ret. eexists _, _. reflexivity. Qed.

Lemma explodeUniverse_returns (w : @World num) :
  exists (positions' : list num) (k : nat),
    explodeUniverse random w
    = (Return tt, set_particles (set_positions positions' (particles w)) (set_drawn k w)).
Proof.
  destruct (@forLoop_total nat (list num) (fun _ _ => True) (scatter random))
    with (count := ((length (Points.positions (particles w)) + 2) / 3)%nat)
         (start := 0) (a := Points.positions (particles w)) (s := drawn w)
    as (positions' & k & E & _).
  - intros i a s _. destruct (scatter_returns i a s) as (a' & s' & E). eauto.
  - exact I.
  - unfold explodeUniverse, bind, get, sample, modify. rewrite E.
    eexists _, _. reflexivity.
Qed.

(** A frame with the solar-system view off: the phases in order, with the
    explosion between the tint and the morph when the gesture is [peace]. *)
Lemma animate_phases (w : @World num) :
  solarSystemEnabled w = false ->
  exists w1 : @World num,
    animate particleCount random w
    = (Return tt, follow (coreFrame (morphFrame particleCount w1)))
    /\ material w1 = material (tintFrame (transform (tick w)))
    /\ hand w1 = hand w.
Proof.
  intros Es. unfold animate, bind, modify, get.
  replace (solarSystemEnabled (tick w)) with false by (symmetry; exact Es).
  replace (handGesture (hand (tintFrame (transform (tick w)))))
    with (handGesture (hand w)) by reflexivity.
  destruct (gesture_eqb (handGesture (hand w)) peace).
  - destruct (explodeUniverse_returns (tintFrame (transform (tick w)))) as (p & k & E).
    rewrite E. eexists. split; [reflexivity|]. split; reflexivity.
  - eexists. split; [reflexivity|]. split; reflexivity.
Qed.

(** A frame of the closed gesture: no explosion, and the positions are the
    loop of [morphClosed] at the advanced clock. *)
Lemma animate_closed (w : @World num) :
  solarSystemEnabled w = false ->
  handGesture (hand w) = closed ->
  exists w' : @World num,
    animate particleCount random w = (Return tt, w')
    /\ Points.positions (particles w')
       = loop particleCount
              (morphClosed (add (time w) (lit 0.05)) (spherePositions w))
              (Points.positions (particles w)).
Proof.
  intros Es Hg. unfold animate, bind, modify, get.
  replace (solarSystemEnabled (tick w)) with false by (symmetry; exact Es).
  replace (handGesture (hand (tintFrame (transform (tick w)))))
    with (handGesture (hand w)) by reflexivity.
  rewrite Hg. cbn [gesture_eqb]. unfold ret.
  eexists. split; [reflexivity|].
  change (Points.positions
            (particles
               (follow (coreFrame (morphFrame particleCount (tintFrame (transform (tick w))))))))
    with (morph particleCount (tintFrame (transform (tick w)))).
  unfold morph.
  replace (handGesture (hand (tintFrame (transform (tick w)))))
    with (handGesture (hand w)) by reflexivity.
  rewrite Hg. reflexivity.
Qed.

(** [animate] always returns. *)
Lemma animate_returns (w : @World num) :
  exists w' : @World num, animate particleCount random w = (Return tt, w').
Proof.
  destruct (solarSystemEnabled w) eqn:Es.
  - unfold animate, bind, modify, get.
    replace (solarSystemEnabled (tick w)) with true by (symmetry; exact Es).
    eexists. reflexivity.
  - destruct (animate_phases w Es) as (w1 & E & _). eauto.
Qed.

End Frames.

(** ** The tint *)

Section Tint.

Local Open Scope R_scope.

Variable particleCount : nat.
Variable random : nat -> R.

(** C4, amended.  Whatever the tint is before a frame (so after any
    sequence of tint blends), when the solar-system view is off the frame's
    blend ends with every channel of the tint at 0.3 or more. *)
Theorem animate_tint_floor (w : @World R) :
  solarSystemEnabled w = false ->
  exists w' : @World R,
    animate particleCount random w = (Return tt, w')
    /\ 0.3 <= Color.r (Material.color (material w'))
    /\ 0.3 <= Color.g (Material.color (material w'))
    /\ 0.3 <= Color.b (Material.color (material w')).
Proof.
  intros Es. destruct (animate_phases particleCount random w Es) as (w1 & E & Hm & _).
  eexists. split; [exact E|].
  change (material (follow (coreFrame (morphFrame particleCount w1)))) with (material w1).
  rewrite Hm. cbn [material tintFrame set_material tint Material.color Color.r Color.g Color.b].
  repeat split; (eapply Rle_trans; [|apply Rmax_l]); cbn; lra.
Qed.

End Tint.

(** From the white tint, one frame of the neutral gesture. *)
Lemma animate_tint_floor_witness :
  exists w' : @World R,
    animate 0 (fun _ => 0%R) initialWorld = (Return tt, w')
    /\ (0.3 <= Color.b (Material.color (material w')))%R.
Proof.
  destruct (@animate_tint_floor 0 (fun _ => 0%R) initialWorld) as (w' & E & _ & _ & Hb).
  - reflexivity.
  - exists w'. split; assumption.
Defined.

(** A handler that returns hands its world to the rest of the session. *)
Lemma run_step (num : Type) (JS : JSNumber num) (particleCount : nat)
    (random : nat -> num) (fuel : nat) (e : event) (rest : list event)
    (w w' : @World num) :
  handler particleCount random fuel e w = (Return tt, w') ->
  run particleCount random fuel (e :: rest) w = run particleCount random fuel rest w'.
Proof. intros E. cbn [run]. rewrite E. reflexivity. Qed.

(** C4, as stated, fails: four colour-picker events for black, from the
    white tint, leave every channel at 0.2401; and in the solar-system view,
    where a frame does not blend the tint, a frame after them leaves it
    there. *)
Lemma tint_below_floor_after_color_input :
  let black := Color.make 0%R 0%R 0%R in
  let inputs := [ColorSelected black; ColorSelected black;
                 ColorSelected black; ColorSelected black] in
  (exists w' : @World R,
      run 0 (fun _ => 0%R) 0 inputs initialWorld = Some w'
      /\ (Color.r (Material.color (material w')) < 0.3)%R
      /\ (Color.g (Material.color (material w')) < 0.3)%R
      /\ (Color.b (Material.color (material w')) < 0.3)%R)
  /\ (exists w' : @World R,
        run 0 (fun _ => 0%R) 0 (TemplateSelected "solarsystem" :: inputs ++ [Frame])
            initialWorld = Some w'
        /\ (Color.r (Material.color (material w')) < 0.3)%R).
Proof.
  cbv zeta. cbn [app]. split.
  - eexists. split; [reflexivity|]. cbn. repeat split; lra.
  - eexists. split.
    + do 5 (erewrite run_step by reflexivity).
      erewrite run_step; [reflexivity|].
      unfold handler, animate, bind, modify, get.
      cbn [solarSystemEnabled tick set_time]. reflexivity.
    + cbn. lra.
Qed.

(** ** The ring of saturn *)

Section SaturnRing.

Local Open Scope R_scope.

Variable random : nat -> R.

(** One turn of the loop. *)
Lemma saturnRingRadius_step (fuel k : nat) :
  saturnRingRadius random (Datatypes.S fuel) k
  = let r := random k * 50 + 40 in
    if Rltb 68 r && Rltb r 72 then
      if Rltb (random (Datatypes.S k)) 0.1 then (Return r, Datatypes.S (Datatypes.S k))
      else saturnRingRadius random fuel (Datatypes.S (Datatypes.S k))
    else (Return r, Datatypes.S k).
Proof.
  cbn [saturnRingRadius]. unfold bind, Math_random, ret. exact_arith.
  replace (50 / 1) with 50 by lra. replace (40 / 1) with 40 by lra.
  replace (68 / 1) with 68 by lra. replace (72 / 1) with 72 by lra.
  replace (1 / 10) with 0.1 by lra.
  cbv zeta.
  destruct (Rltb 68 (random k * 50 + 40) && Rltb (random k * 50 + 40) 72); [|reflexivity].
  destruct (Rltb (random (Datatypes.S k)) 0.1); reflexivity.
Qed.

End SaturnRing.

Section SaturnTemplate.

Local Open Scope R_scope.

Variable particleCount : nat.

(** With every draw 0.58 the radius 69 falls in the band and the second
    draw is not below 0.1: the loop only uses up its fuel. *)
Lemma saturnRingRadius_stuck (fuel k : nat) :
  saturnRingRadius (fun _ => 0.58) fuel k = (OutOfFuel, (k + 2 * fuel)%nat).
Proof.
  revert k. induction fuel as [|fuel IH]; intros k.
  - simpl. f_equal. lia.
  - rewrite saturnRingRadius_step. cbv zeta.
    rewrite (@Rltb_true 68 (0.58 * 50 + 40)) by lra.
    rewrite (@Rltb_true (0.58 * 50 + 40) 72) by lra.
    rewrite (@Rltb_false 0.58 0.1) by lra.
    simpl andb. cbv iota. rewrite IH. f_equal. lia.
Qed.

End SaturnTemplate.

(** C10, as stated, fails: there is a stream of draws in [0, 1), the
    constant 0.58, on which generating a saturn particle never ends,
    whatever the fuel. *)
Lemma saturn_diverges_on_constant_stream :
  exists random : nat -> R,
    (forall k, (0 <= random k < 1)%R)
    /\ forall (particleCount fuel i : nat) (pos : Vector3.t R),
         exists k' : nat, saturn particleCount random fuel pos i 0 = (OutOfFuel, k').
Proof.
  exists (fun _ => 0.58%R). split; [intros k; lra|].
  intros particleCount fuel i pos.
  unfold saturn, bind, Math_random, ret. exact_arith.
  rewrite (@Rltb_true 0.58 (7 / 10)) by lra.
  rewrite saturnRingRadius_stuck. eexists. reflexivity.
Qed.

(** *** The loop on any numbers *)

Section SaturnLoop.

Context {num : Type} {JS : JSNumber num}.

Variable particleCount : nat.
Variable random : nat -> num.

(** One turn of the loop: a resample that is kept ends it. *)
Lemma saturnRingRadius_turn (fuel k : nat) :
  saturnRingRadius random (Datatypes.S fuel) k
  = if kept random k
    then (Return (ringRadius (random k)), k + resampleDraws random k)
    else saturnRingRadius random fuel (k + 2).
Proof.
  cbn [saturnRingRadius]. unfold bind, Math_random, ret, kept, resampleDraws, inGap, ringRadius.
  replace (k + 1) with (Datatypes.S k) by lia.
  replace (k + 2) with (Datatypes.S (Datatypes.S k)) by lia.
  destruct (ltb (lit 68) (add (mul (random k) (lit 50)) (lit 40))
            && ltb (add (mul (random k) (lit 50)) (lit 40)) (lit 72)).
  - cbn [negb orb]. destruct (ltb (random (Datatypes.S k)) (lit 0.1)).
    + f_equal. lia.
    + reflexivity.
  - cbn [negb orb]. f_equal. lia.
Qed.

(** The loop returns the first resample that is kept ... *)
Lemma saturnRingRadius_kept (n : nat) :
  forall fuel k : nat,
    n < fuel ->
    (forall j, j < n -> kept random (k + 2 * j) = false) ->
    kept random (k + 2 * n) = true ->
    saturnRingRadius random fuel k
    = (Return (ringRadius (random (k + 2 * n))),
       k + 2 * n + resampleDraws random (k + 2 * n)).
Proof.
  induction n as [|n IH]; intros fuel k Hfuel Hrej Hkept;
    (destruct fuel as [|fuel]; [lia|]); rewrite saturnRingRadius_turn.
  - replace (k + 2 * 0) with k in * by lia. rewrite Hkept. reflexivity.
  - pose proof (Hrej 0 ltac:(lia)) as H0.
    replace (k + 2 * 0) with k in H0 by lia. rewrite H0.
    rewrite (IH fuel (k + 2)).
    + replace (k + 2 + 2 * n) with (k + 2 * Datatypes.S n) by lia. reflexivity.
    + lia.
    + intros j Hj. replace (k + 2 + 2 * j) with (k + 2 * Datatypes.S j) by lia.
      apply Hrej. lia.
    + replace (k + 2 + 2 * n) with (k + 2 * Datatypes.S n) by lia. exact Hkept.
Qed.

(** ... and only uses up its fuel while every resample is rejected. *)
Lemma saturnRingRadius_rejected (fuel : nat) :
  forall k : nat,
    (forall j, j < fuel -> kept random (k + 2 * j) = false) ->
    saturnRingRadius random fuel k = (OutOfFuel, k + 2 * fuel).
Proof.
  induction fuel as [|fuel IH]; intros k Hrej.
  - cbn [saturnRingRadius]. f_equal. lia.
  - rewrite saturnRingRadius_turn.
    pose proof (Hrej 0 ltac:(lia)) as H0.
    replace (k + 2 * 0) with k in H0 by lia. rewrite H0.
    rewrite IH.
    + f_equal. lia.
    + intros j Hj. replace (k + 2 + 2 * j) with (k + 2 * Datatypes.S j) by lia.
      apply Hrej. lia.
Qed.

(** The template returns when the loop does; for a ring particle it does
    not end when the loop does not. *)
Lemma saturn_after_loop (fuel : nat) (pos : Vector3.t num) (i k : nat) :
  (forall (r : num) (k' : nat),
      saturnRingRadius random fuel (Datatypes.S k) = (Return r, k') ->
      exists (v : Vector3.t num) (k'' : nat),
        saturn particleCount random fuel pos i k = (Return v, k''))
  /\ (forall k' : nat,
        ltb (random k) (lit 0.7) = true ->
        saturnRingRadius random fuel (Datatypes.S k) = (OutOfFuel, k') ->
        saturn particleCount random fuel pos i k = (OutOfFuel, k')).
Proof.
  unfold saturn, bind, Math_random, ret.
  destruct (ltb (random k) (lit 0.7)); split.
  - intros r k' E. rewrite E. eexists _, _. reflexivity.
  - intros k' _ E. rewrite E. reflexivity.
  - intros r k' _. eexists _, _. reflexivity.
  - discriminate.
Qed.

End SaturnLoop.

(** *** The loop in binary64 *)

Section SaturnBinary64.

Variable L : Binary64.Libm.
Variable particleCount : nat.

(** [Math.random() * 50 + 40] is computed between 40 and 90. *)
Lemma ringRadius_bounds (d : float) :
  PrimFloat.leb 0 d = true -> PrimFloat.ltb d 1 = true ->
  PrimFloat.leb 40 (ringRadius (JS := Binary64.number L) d) = true
  /\ PrimFloat.leb (ringRadius (JS := Binary64.number L) d) 90 = true.
Proof.
  intros H0 H1.
  exact (unit_affine_bounds d 50 40 90
           7036874417766400 (-47) 5629499534213120 (-47) 6333186975989760 (-46)
           eq_refl eq_refl eq_refl eq_refl H0 H1).
Qed.

(** C10, amended.  For draws in [0, 1) and a saturn particle whose first
    draw is draw [k], so that the loop starts at the next draw and its
    resample [j] at draw [k + 1 + 2 j]:
    - when resample [n] is the first that is kept, the loop, given fuel for
      it, returns the radius of that resample, which is between 40 and 90,
      having used the draws of the resamples up to it, and the template
      returns a position;
    - when every resample is rejected, the loop uses up every fuel, and so
      does the template for a ring particle. *)
Theorem saturnRingRadius_returns_first_kept (random : nat -> float) (k : nat) :
  (forall j, PrimFloat.leb 0 (random j) = true /\ PrimFloat.ltb (random j) 1 = true) ->
  (forall n : nat,
      (forall j, j < n -> kept (JS := Binary64.number L) random (Datatypes.S k + 2 * j) = false) ->
      kept (JS := Binary64.number L) random (Datatypes.S k + 2 * n) = true ->
      forall (fuel i : nat) (pos : Vector3.t float),
        n < fuel ->
        let r := ringRadius (JS := Binary64.number L) (random (Datatypes.S k + 2 * n)) in
        saturnRingRadius (JS := Binary64.number L) random fuel (Datatypes.S k)
        = (Return r, Datatypes.S k + 2 * n
                     + resampleDraws (JS := Binary64.number L) random (Datatypes.S k + 2 * n))
        /\ PrimFloat.leb 40 r = true /\ PrimFloat.leb r 90 = true
        /\ exists (v : Vector3.t float) (k' : nat),
             saturn (JS := Binary64.number L) particleCount random fuel pos i k
             = (Return v, k'))
  /\ ((forall j, kept (JS := Binary64.number L) random (Datatypes.S k + 2 * j) = false) ->
      forall (fuel i : nat) (pos : Vector3.t float),
        saturnRingRadius (JS := Binary64.number L) random fuel (Datatypes.S k)
        = (OutOfFuel, Datatypes.S k + 2 * fuel)
        /\ (PrimFloat.ltb (random k) (Binary64.ofDecimal 0.7) = true ->
            saturn (JS := Binary64.number L) particleCount random fuel pos i k
            = (OutOfFuel, Datatypes.S k + 2 * fuel))).
Proof.
  intros Hrange. split.
  - intros n Hrej Hkept fuel i pos Hfuel r.
    pose proof (@saturnRingRadius_kept float (Binary64.number L) random n fuel
                  (Datatypes.S k) Hfuel Hrej Hkept) as E.
    split; [exact E|].
    destruct (Hrange (Datatypes.S k + 2 * n)) as [H0 H1].
    destruct (ringRadius_bounds H0 H1) as [Hlo Hhi].
    split; [exact Hlo|]. split; [exact Hhi|].
    destruct (@saturn_after_loop float (Binary64.number L) particleCount random fuel pos i k)
      as [Hret _].
    exact (Hret _ _ E).
  - intros Hrej fuel i pos.
    assert (E : saturnRingRadius (JS := Binary64.number L) random fuel (Datatypes.S k)
                = (OutOfFuel, Datatypes.S k + 2 * fuel))
      by (apply saturnRingRadius_rejected; intros j _; apply Hrej).
    split; [exact E|]. intros Hring.
    destruct (@saturn_after_loop float (Binary64.number L) particleCount random fuel pos i k)
      as [_ Hout].
    exact (Hout _ Hring E).
Qed.

End SaturnBinary64.

(** Every draw 1/2: the first radius, 65, is outside the band and kept. *)
Lemma saturnRingRadius_returns_first_kept_witness :
  saturnRingRadius (JS := Binary64.number crudeLibm) (fun _ => 0.5%float) 1 1
  = (Return 65%float, 2)
  /\ exists (v : Vector3.t float) (k' : nat),
       saturn (JS := Binary64.number crudeLibm) 1 (fun _ => 0.5%float) 1
              (Vector3.make 0 0 0)%float 0 0 = (Return v, k').
Proof.
  destruct (@saturnRingRadius_returns_first_kept crudeLibm 1 (fun _ => 0.5%float) 0)
    as [Hkept _].
  - intros j. split; reflexivity.
  - destruct (Hkept 0) with (fuel := 1) (i := 0) (pos := (Vector3.make 0 0 0)%float)
      as (E & _ & _ & Hs).
    + intros j Hj. lia.
    + reflexivity.
    + lia.
    + split; [exact E | exact Hs].
Defined.

(** In binary64 too, the constant stream 0.58 keeps the loop turning: the
    radius, 69, is in the band and 0.58 is not below 0.1. *)
Lemma saturnRingRadius_stuck_binary64 (L : Binary64.Libm) (fuel k : nat) :
  saturnRingRadius (JS := Binary64.number L) (fun _ => Binary64.ofDecimal 0.58) fuel k
  = (OutOfFuel, k + 2 * fuel).
Proof.
  apply saturnRingRadius_rejected. intros j _. reflexivity.
Qed.

(** ** Errors *)

Lemma compress_returns {num : Type} {JS : JSNumber num} (random : nat -> num)
    (i : nat) (a : list num) (k : nat) :
  exists (a' : list num) (k' : nat), compress random i a k = (Return a', k').
Proof. unfold compress, bind, Math_random, ret. eexists _, _. reflexivity. Qed.

Lemma assoc_absent {A : Type} (key : string) (l : list (string * A)) :
  ~ In key (map fst l) -> assoc key l = None.
Proof.
  induction l as [|[k v] tl IH]; simpl; intros H; [reflexivity|].
  destruct (String.eqb key k) eqn:E.
  - apply String.eqb_eq in E. subst. tauto.
  - apply IH. tauto.
Qed.

Lemma mem_absent (key : string) (l : list string) :
  ~ In key l -> mem key l = false.
Proof.
  unfold mem. induction l as [|k tl IH]; simpl; intros H; [reflexivity|].
  destruct (String.eqb key k) eqn:E.
  - apply String.eqb_eq in E. subst. tauto.
  - apply IH. tauto.
Qed.

Section Errors.

Context {num : Type} {JS : JSNumber num}.

Variable particleCount : nat.
Variable random : nat -> num.

(** The message of the error raised by [templates[key](position, i)] for a
    key that names no function accepting the call. *)
Lemma callTemplate_unknown (fuel : nat) (key : string) (pos : Vector3.t num) (i k : nat) :
  ~ In key (templateKeys particleCount random) ->
  ~ In key prototypeInert ->
  exists e : JSError,
    callTemplate particleCount random fuel key pos i k = (Throw e, k)
    /\ name e = "TypeError"
    /\ (In key prototypeThrowing ->
        message e = ("Object.prototype." ++ key ++ ": Expecting function")%string)
    /\ (~ In key prototypeThrowing ->
        message e = "templates[currentTemplate] is not a function").
Proof.
  intros Hreg Hproto. unfold callTemplate.
  rewrite assoc_absent by exact Hreg.
  rewrite (mem_absent _ _ Hproto).
  destruct (mem key prototypeThrowing) eqn:E.
  - eexists. split; [reflexivity|]. split; [reflexivity|]. split; [reflexivity|].
    intros Hn. rewrite (mem_absent _ _ Hn) in E. discriminate.
  - eexists. split; [reflexivity|]. split; [reflexivity|]. split; [|reflexivity].
    intros Hin. exfalso. unfold mem in E.
    assert (existsb (String.eqb key) prototypeThrowing = true); [|congruence].
    apply existsb_exists. exists key. split; [exact Hin | apply String.eqb_refl].
Qed.

Lemma createArrays_unknown (fuel : nat) (key : string) (k : nat) :
  0 < particleCount ->
  ~ In key (templateKeys particleCount random) ->
  ~ In key prototypeInert ->
  exists e : JSError,
    createArrays particleCount random fuel key k = (Throw e, k)
    /\ name e = "TypeError"
    /\ (In key prototypeThrowing ->
        message e = ("Object.prototype." ++ key ++ ": Expecting function")%string)
    /\ (~ In key prototypeThrowing ->
        message e = "templates[currentTemplate] is not a function").
Proof.
  intros Hpos Hreg Hproto.
  destruct particleCount as [|n] eqn:En; [lia|].
  destruct (callTemplate_unknown fuel (Vector3.make (lit 0) (lit 0) (lit 0)) 0 k Hreg Hproto)
    as (e & E & He).
  exists e. split; [|exact He].
  unfold createArrays.
  cbn [forLoop]. unfold bind at 1. unfold bind at 1. unfold populate at 1.
  unfold bind at 1. cbn [scratch]. rewrite <- En. rewrite E.
  reflexivity.
Qed.

(** C6, amended.  A template key that is neither in the registry, nor
    'solarsystem', nor the name of one of the nine inherited functions that
    accept the call, makes shape generation fail at the first particle with
    a TypeError: the one of a call of something that is not a function, or,
    for [__defineGetter__] and [__defineSetter__], the one that these raise.
    No shape is substituted: the four arrays are the old ones, the old
    particle system has left the scene, and the unknown key has become the
    current template. *)
Theorem changeTemplate_unknown_key (fuel : nat) (key : string) (w : @World num) :
  0 < particleCount ->
  key <> "solarsystem" ->
  ~ In key (templateKeys particleCount random) ->
  ~ In key prototypeInert ->
  exists (e : JSError) (w' : @World num),
    changeTemplate particleCount random fuel key w = (Throw e, w')
    /\ name e = "TypeError"
    /\ (In key prototypeThrowing ->
        message e = ("Object.prototype." ++ key ++ ": Expecting function")%string)
    /\ (~ In key prototypeThrowing ->
        message e = "templates[currentTemplate] is not a function")
    /\ currentTemplate w' = key
    /\ Points.inScene (particles w') = false
    /\ Points.positions (particles w') = Points.positions (particles w)
    /\ Points.colors (particles w') = Points.colors (particles w)
    /\ basePositions w' = basePositions w
    /\ spherePositions w' = spherePositions w
    /\ drawn w' = drawn w.
Proof.
  intros Hpos Hsolar Hreg Hproto.
  unfold changeTemplate.
  destruct (String.eqb key "solarsystem") eqn:E.
  { apply String.eqb_eq in E. contradiction. }
  destruct (createArrays_unknown fuel (drawn w) Hpos Hreg Hproto)
    as (e & Ee & Hname & Hthrowing & Hother).
  cbv [bind toggleSolarSystem modify createParticles get sample].
  cbn [currentTemplate set_currentTemplate set_particles set_sunCore
       set_solarSystemEnabled drawn].
  rewrite Ee.
  eexists e, _. split; [reflexivity|]. cbn. repeat split; assumption.
Qed.

Lemma detectGesture_incomplete (S : Type) (handLandmarks : list (Vector3.t num)) (s : S) :
  length handLandmarks < 21 ->
  detectGesture handLandmarks s
  = (Throw (TypeError "Cannot read properties of undefined (reading 'y')"), s).
Proof.
  intros Hlen.
  assert (H20 : nth_error handLandmarks 20 = None) by (apply nth_error_None; lia).
  unfold detectGesture, isFingerExtended, field, bind, ret, throw.
  rewrite H20.
  repeat match goal with
         | |- context [nth_error handLandmarks ?k] =>
             destruct (nth_error handLandmarks k); try reflexivity
         end.
Qed.

(** C7, amended.  For a one-hand observation with fewer than 21 landmarks
    the callback ends with a TypeError, raised before any global is
    written: the smoothed gesture, the history and every control signal are
    as before; and the next frame on these globals returns. *)
Theorem onResults_incomplete_hand (handLandmarks : list (Vector3.t num)) (w : @World num) :
  length handLandmarks < 21 ->
  onResults (Some [handLandmarks]) w
  = (Throw (TypeError "Cannot read properties of undefined (reading 'y')"), w)
  /\ exists w' : @World num, animate particleCount random w = (Return tt, w').
Proof.
  intros Hlen. split.
  - unfold onResults, bind. rewrite detectGesture_incomplete by exact Hlen. reflexivity.
  - apply animate_returns.
Qed.

End Errors.

(** ** The stellar colouring always returns *)

Section GalaxyColour.

Local Open Scope R_scope.

Variable random : nat -> R.

Lemma itemFrom_found {A : Type} (arr : list A) (k j : nat) :
  (k <= j < k + length arr)%nat ->
  exists a : A, itemFrom k arr (INR j) = Some a.
Proof.
  revert k. induction arr as [|a tl IH]; intros k Hj; simpl in Hj; [lia|].
  cbn [itemFrom]. exact_arith.
  destruct (Reqb (INR j) (INR k)) eqn:E; [eauto|].
  apply IH. split; [|lia].
  destruct (Nat.eq_dec j k) as [->|Hne]; [|lia].
  unfold Reqb in E. destruct (Req_dec_T (INR k) (INR k)); [discriminate | congruence].
Qed.

(** [Math.floor(Math.random() * palette.length)] is an index of the
    palette. *)
Lemma floor_index (n : nat) (d : R) :
  0 <= d < 1 -> (0 < n)%nat ->
  exists j : nat, (j < n)%nat /\ IZR (Int_part (d * INR n)) = INR j.
Proof.
  intros Hd Hn.
  assert (Hpos : 0 < INR n) by (apply lt_0_INR; exact Hn).
  destruct (base_Int_part (d * INR n)) as [Hlo Hhi].
  assert (H0 : (0 <= Int_part (d * INR n))%Z).
  { assert (Hm : (-1 < Int_part (d * INR n))%Z) by (apply lt_IZR; nra). lia. }
  assert (H1 : (Int_part (d * INR n) < Z.of_nat n)%Z).
  { apply lt_IZR. rewrite <- INR_IZR_INZ. nra. }
  exists (Z.to_nat (Int_part (d * INR n))). split; [lia|].
  rewrite (INR_IZR_INZ (Z.to_nat (Int_part (d * INR n)))).
  rewrite Z2Nat.id by exact H0. reflexivity.
Qed.

Lemma bandColor_returns (palette : list (Color.t R)) (base spread : R) (k : nat) :
  0 <= random k < 1 -> palette <> [] ->
  exists c : Color.t R,
    bandColor random palette base spread k = (Return c, Datatypes.S (Datatypes.S k)).
Proof.
  intros Hd Hne.
  assert (Hn : (0 < length palette)%nat) by (destruct palette; [congruence | simpl; lia]).
  destruct (floor_index Hd Hn) as (j & Hj & Ej).
  destruct (@itemFrom_found _ palette 0 j ltac:(lia)) as [c Ec].
  unfold bandColor, bind, Math_random, cloneItem, ret. exact_arith.
  rewrite Ej, Ec. eexists. reflexivity.
Qed.

Lemma getGalaxyColor_returns (position : Vector3.t R) (k : nat) :
  0 <= random k < 1 ->
  exists c : Color.t R,
    getGalaxyColor random position k
    = (Return c, Datatypes.S (Datatypes.S (Datatypes.S (Datatypes.S (Datatypes.S k))))).
Proof.
  intros Hd. unfold getGalaxyColor. unfold bind at 1.
  match goal with
  | |- exists c, (let (o, s') := ?X in _) = _ =>
      assert (Hband : exists c : Color.t R,
                 X = (Return c, Datatypes.S (Datatypes.S k)))
  end.
  { destruct (ltb _ (lit 0.25)); [|destruct (ltb _ (lit 0.7))];
      apply bandColor_returns; try exact Hd; discriminate. }
  destruct Hband as [c Ec]. rewrite Ec.
  unfold bind, Math_random, ret. eexists. reflexivity.
Qed.

End GalaxyColour.

(** A key that no property of the registry answers to, and one that names
    an inherited function refusing the call. *)
Lemma changeTemplate_unknown_key_witness :
  (exists w' : @World R,
      changeTemplate 1 (fun _ => 0%R) 0 "nebula" initialWorld
      = (Throw (TypeError "templates[currentTemplate] is not a function"), w')
      /\ currentTemplate w' = "nebula")
  /\ (exists w' : @World R,
        changeTemplate 1 (fun _ => 0%R) 0 "__defineGetter__" initialWorld
        = (Throw (TypeError "Object.prototype.__defineGetter__: Expecting function"), w')).
Proof.
  split.
  - destruct (@changeTemplate_unknown_key R Exact.number 1 (fun _ => 0%R) 0 "nebula" initialWorld)
      as (e & w' & E & Hn & _ & Hm & Hc & _).
    + lia.
    + discriminate.
    + simpl. intuition discriminate.
    + simpl. intuition discriminate.
    + exists w'. split; [|exact Hc].
      rewrite E. destruct e as [n m]. simpl in Hn, Hm.
      rewrite Hn, Hm; [reflexivity|]. simpl. intuition discriminate.
  - destruct (@changeTemplate_unknown_key R Exact.number 1 (fun _ => 0%R) 0
                "__defineGetter__" initialWorld)
      as (e & w' & E & Hn & Hm & _).
    + lia.
    + discriminate.
    + simpl. intuition discriminate.
    + simpl. intuition discriminate.
    + exists w'. rewrite E. destruct e as [n m]. simpl in Hn, Hm.
      rewrite Hn, Hm; [reflexivity|]. simpl. tauto.
Defined.

(** C6, as stated, fails: the error of an unknown key is a TypeError, not
    an UnknownTemplate error; the key 'solarsystem', which is not in the
    registry either, raises no error at all; and for the key 'toString',
    which the registry object inherits, shape generation returns with the
    particle at the origin. *)
Lemma changeTemplate_error_is_TypeError :
  (exists (e : JSError) (w' : @World R),
      changeTemplate 1 (fun _ => 0%R) 0 "nebula" initialWorld = (Throw e, w')
      /\ name e = "TypeError" /\ name e <> "UnknownTemplate")
  /\ (~ In "solarsystem" (templateKeys (JS := Exact.number) 1 (fun _ => 0%R))
      /\ exists w' : @World R,
           changeTemplate 1 (fun _ => 0%R) 0 "solarsystem" initialWorld = (Return tt, w'))
  /\ (~ In "toString" (templateKeys (JS := Exact.number) 1 (fun _ => 0%R))
      /\ exists w' : @World R,
           changeTemplate 1 (fun _ => 0%R) 0 "toString" initialWorld = (Return tt, w')
           /\ Points.positions (particles w') = [0; 0; 0]%R
           /\ currentTemplate w' = "toString").
Proof.
  split; [|split].
  - eexists _, _. split; [reflexivity|]. split; [reflexivity | discriminate].
  - split.
    + simpl. intuition discriminate.
    + eexists. reflexivity.
  - split.
    + simpl. intuition discriminate.
    + destruct (@getGalaxyColor_returns (fun _ => 0%R)
                  (Vector3.make (lit 0) (lit 0) (lit 0)) 0 ltac:(lra)) as [c Ec].
      destruct (compress_returns (fun _ => 0%R) 0 (Float32Array (num := R) 3) 5)
        as (sphere & k & Es).
      assert (E : createArrays 1 (fun _ => 0%R) 0 "toString" 0
                  = (Return ([0; 0; 0]%R, storeColor (Float32Array 3) 0 c, sphere), k)).
      { unfold createArrays. change (1 * 3) with 3.
        unfold bind at 1.
        rewrite (@forLoop_once nat Buffers _ 0
                   {| scratch := Vector3.make (lit 0) (lit 0) (lit 0);
                      bufPositions := Float32Array 3; bufColors := Float32Array 3 |}
                   {| scratch := Vector3.make (lit 0) (lit 0) (lit 0);
                      bufPositions := storeVec (Float32Array 3) 0
                                        (Vector3.make (lit 0) (lit 0) (lit 0));
                      bufColors := storeColor (Float32Array 3) 0 c |} 0 5).
        - unfold bind at 1. rewrite (forLoop_once _ _ _ _ Es). unfold ret.
          cbn [bufPositions bufColors]. do 3 f_equal.
          unfold storeVec, store, Float32Array. cbn. repeat f_equal; lra.
        - unfold populate. cbn [scratch bufPositions bufColors].
          change (callTemplate 1 (fun _ => 0%R) 0 "toString"
                    (Vector3.make (lit 0) (lit 0) (lit 0)) 0)
            with (ret (S := nat) (Vector3.make (lit (num := R) 0) (lit 0) (lit 0))).
          change (colorFor (fun _ => 0%R) "toString") with (getGalaxyColor (fun _ => 0%R)).
          unfold bind, ret. rewrite Ec. reflexivity. }
      cbv [changeTemplate String.eqb Ascii.eqb Bool.eqb
           bind toggleSolarSystem modify createParticles get sample].
      cbn [currentTemplate set_currentTemplate set_particles set_sunCore
           set_solarSystemEnabled drawn initialWorld].
      rewrite E. eexists. split; [reflexivity|]. split; reflexivity.
Qed.

(** An observation of one hand with no landmark. *)
Lemma onResults_incomplete_hand_witness :
  onResults (Some [[]]) (initialWorld (JS := Exact.number))
  = (Throw (TypeError "Cannot read properties of undefined (reading 'y')"), initialWorld).
Proof.
  apply (@onResults_incomplete_hand R Exact.number 0 (fun _ => 0%R) [] initialWorld).
  simpl. lia.
Defined.

(** C7, as stated, fails: the error of an incomplete hand is a TypeError,
    not a MalformedObservation error. *)
Lemma onResults_error_is_TypeError :
  exists e : JSError,
    onResults (Some [repeat (Vector3.make 0 0 0)%R 20]) (initialWorld (JS := Exact.number))
    = (Throw e, initialWorld)
    /\ name e = "TypeError" /\ name e <> "MalformedObservation".
Proof.
  eexists. split; [reflexivity|]. split; [reflexivity | discriminate].
Qed.

(** ** Colours of the saturn template *)

Section SaturnColour.

Local Open Scope R_scope.

Variable particleCount : nat.
Variable random : nat -> R.

Lemma sqrt_between (a b s : R) :
  0 <= a -> 0 <= b -> a * a < s < b * b -> a < R_sqrt.sqrt s < b.
Proof.
  intros Ha Hb [Hlo Hhi].
  assert (Hs : 0 <= s) by nra.
  split.
  - rewrite <- (sqrt_square a Ha). apply sqrt_lt_1; nra.
  - rewrite <- (sqrt_square b Hb). apply sqrt_lt_1; nra.
Qed.

(** A ring particle: the first draw is below 0.7 and the radius drawn next
    is outside the Cassini band.  Its position is the point (r cos theta,
    y, r sin theta) of a thin flat ring, turned by the tilt about the z
    axis. *)
Lemma saturn_ring_particle (fuel i k : nat) (pos : Vector3.t R) :
  (forall j, 0 <= random j < 1) ->
  random k < 0.7 ->
  let r := random (Datatypes.S k) * 50 + 40 in
  ~ (68 < r < 72) ->
  exists theta y0 : R,
    let tilt := 27 * PI / 180 in
    saturn particleCount random (Datatypes.S fuel) pos i k
    = (Return (Vector3.make (r * cos theta * cos tilt - y0 * sin tilt)
                            (r * cos theta * sin tilt + y0 * cos tilt)
                            (r * sin theta)),
       Datatypes.S (Datatypes.S (Datatypes.S (Datatypes.S k))))
    /\ - 0.25 <= y0 < 0.25.
Proof.
  intros Hrange Hring r Hgap.
  unfold saturn. unfold bind at 1. unfold Math_random at 1. exact_arith.
  rewrite (@Rltb_true (random k) (7 / 10)) by lra.
  unfold bind at 1. rewrite saturnRingRadius_step. cbv zeta. fold r.
  assert (Egap : Rltb 68 r && Rltb r 72 = false).
  { destruct (Rltb 68 r) eqn:E1; [|reflexivity].
    destruct (Rltb r 72) eqn:E2; [|reflexivity].
    apply Rltb_iff in E1. apply Rltb_iff in E2. exfalso. apply Hgap. lra. }
  rewrite Egap.
  unfold bind, Math_random, ret.
  eexists _, ((random (Datatypes.S (Datatypes.S (Datatypes.S k))) - 5 / 10) * (5 / 10)).
  cbv zeta. split.
  - replace (27 * PI / 180) with (27 / 1 * PI / (180 / 1)) by lra. reflexivity.
  - pose proof (Hrange (Datatypes.S (Datatypes.S (Datatypes.S k)))). lra.
Qed.

(** Turning about the z axis keeps the distance to the origin. *)
Lemma tilted_ring_norm (r theta y0 tilt : R) :
  let x := r * cos theta * cos tilt - y0 * sin tilt in
  let y := r * cos theta * sin tilt + y0 * cos tilt in
  let z := r * sin theta in
  x * x + y * y + z * z = r * r + y0 * y0.
Proof.
  cbv zeta.
  assert (Ht : sin tilt * sin tilt + cos tilt * cos tilt = 1)
    by (pose proof (sin2_cos2 tilt) as H; unfold Rsqr in H; exact H).
  assert (Hth : sin theta * sin theta + cos theta * cos theta = 1)
    by (pose proof (sin2_cos2 theta) as H; unfold Rsqr in H; exact H).
  transitivity ((r * r * (cos theta * cos theta) + y0 * y0)
                * (sin tilt * sin tilt + cos tilt * cos tilt)
                + r * r * (sin theta * sin theta)); [ring|].
  rewrite Ht, Rmult_1_r.
  transitivity (r * r * (sin theta * sin theta + cos theta * cos theta) + y0 * y0); [ring|].
  rewrite Hth. ring.
Qed.

(** The colour of a particle in one of the brighter ring bands: the band
    colour times [0.8 + Math.random() * 0.4], with no clamp. *)
Lemma getSaturnColor_bright_band (p : Vector3.t R) (k : nat) :
  let dist := R_sqrt.sqrt (Vector3.x p * Vector3.x p + Vector3.y p * Vector3.y p
                           + Vector3.z p * Vector3.z p) in
  45 < dist < 55 ->
  getSaturnColor random p k
  = (Return (Color.make (0.85 * (0.8 + random k * 0.4))
                        (0.8 * (0.8 + random k * 0.4))
                        (0.7 * (0.8 + random k * 0.4))),
     Datatypes.S k).
Proof.
  intros dist Hband. unfold getSaturnColor. exact_arith.
  change (R_sqrt.sqrt (Vector3.x p * Vector3.x p + Vector3.y p * Vector3.y p
                       + Vector3.z p * Vector3.z p)) with dist.
  clearbody dist.
  rewrite (@Rltb_true (35 / 1) dist) by lra.
  rewrite (@Rltb_false (68 / 1) dist) by lra. rewrite andb_false_l.
  rewrite (@Rltb_true (45 / 1) dist), (@Rltb_true dist (55 / 1)) by lra.
  simpl orb. cbv iota.
  unfold bind, Math_random, ret, multiplyScalar, rgb. exact_arith.
  cbn [Color.r Color.g Color.b]. reflexivity.
Qed.

(** The first loop of [createParticles] on a ring particle of a brighter
    band: five draws, and the red channel stored is
    0.85 * (0.8 + 0.4 * draw), the fifth draw being the brightness. *)
Lemma populate_saturn_bright_band (fuel i k : nat) (b : Buffers) :
  (forall j, 0 <= random j < 1) ->
  (i * 3 + 2 < length (bufColors b))%nat ->
  random k < 0.7 ->
  46 <= random (Datatypes.S k) * 50 + 40 <= 54 ->
  exists b' : Buffers,
    populate particleCount random (Datatypes.S fuel) "saturn" i b k = (Return b', (k + 5)%nat)
    /\ length (bufColors b') = length (bufColors b)
    /\ nth (i * 3) (bufColors b') 0 = 0.85 * (0.8 + random (k + 4)%nat * 0.4).
Proof.
  intros Hrange Hin Hring Hr.
  destruct (@saturn_ring_particle fuel i k (scratch b) Hrange Hring) as (theta & y0 & E & Hy).
  { lra. }
  cbv zeta in E.
  unfold populate.
  change (callTemplate particleCount random (Datatypes.S fuel) "saturn" (scratch b) i)
    with (saturn particleCount random (Datatypes.S fuel) (scratch b) i).
  unfold bind at 1. rewrite E.
  change (colorFor random "saturn") with (getSaturnColor random).
  unfold bind at 1.
  rewrite getSaturnColor_bright_band.
  - unfold ret. eexists. split; [f_equal; lia|]. cbn [bufColors].
    split; [apply storeColor_length|].
    destruct (@storeColor_here R _ (bufColors b) i
                (Color.make
                   (0.85 * (0.8 + random (Datatypes.S (Datatypes.S (Datatypes.S (Datatypes.S k)))) * 0.4))
                   (0.8 * (0.8 + random (Datatypes.S (Datatypes.S (Datatypes.S (Datatypes.S k)))) * 0.4))
                   (0.7 * (0.8 + random (Datatypes.S (Datatypes.S (Datatypes.S (Datatypes.S k)))) * 0.4)))
                0 Hin) as (Hred & _).
    rewrite Hred. cbn [Color.r fround number].
    replace (k + 4)%nat with (Datatypes.S (Datatypes.S (Datatypes.S (Datatypes.S k)))) by lia.
    reflexivity.
  - cbn [Vector3.x Vector3.y Vector3.z]. rewrite tilted_ring_norm.
    apply sqrt_between; nra.
Qed.

End SaturnColour.

Lemma createArrays_saturn_bright_ring :
  exists (positions colors sphere : list R) (k : nat),
    createArrays 1 brightRingDraws 1 "saturn" 0 = (Return (positions, colors, sphere), k)
    /\ length colors = 3
    /\ nth 0 colors 0%R = (0.85 * (0.8 + 0.99 * 0.4))%R.
Proof.
  destruct (@populate_saturn_bright_band 1 brightRingDraws 0 0 0
              {| scratch := Vector3.make (lit 0) (lit 0) (lit 0);
                 bufPositions := Float32Array 3; bufColors := Float32Array 3 |})
    as (b' & E & Hlen & Hred).
  - intros j. unfold brightRingDraws.
    do 5 (destruct j as [|j]; [simpl; lra|]). destruct j; simpl; lra.
  - simpl. lia.
  - unfold brightRingDraws. simpl. lra.
  - unfold brightRingDraws. simpl. lra.
  - destruct (@forLoop_total nat (list R) (fun _ _ => True) (compress brightRingDraws))
      with (count := 1) (start := 0) (a := Float32Array (num := R) 3) (s := 5)
      as (sphere & k & Es & _).
    { intros i a s _. destruct (compress_returns brightRingDraws i a s) as (a' & s' & Ec). eauto. }
    { exact I. }
    unfold createArrays. change (1 * 3) with 3.
    change (0 + 5)%nat with 5%nat in E.
    unfold bind at 1. rewrite (forLoop_once _ _ _ _ E).
    unfold bind at 1. rewrite Es. unfold ret.
    eexists _, _, _, _. split; [reflexivity|].
    split; [exact Hlen|].
    change (0 * 3)%nat with 0%nat in Hred. cbn [bufColors fst snd].
    rewrite Hred. reflexivity.
Qed.

(** C3, at a failing input.  Selecting the saturn template with one
    particle and the draws [brightRingDraws] returns, and installs a colour
    array of three channels whose red channel is 0.85 * 1.196 = 1.0166,
    above 1. *)
Theorem changeTemplate_saturn_channel_above_one :
  exists w' : @World R,
    changeTemplate 1 brightRingDraws 1 "saturn" initialWorld = (Return tt, w')
    /\ length (Points.colors (particles w')) = 3
    /\ (1 < nth 0 (Points.colors (particles w')) 0)%R.
Proof.
  destruct createArrays_saturn_bright_ring as (positions & colors & sphere & k & E & Hlen & Hred).
  cbv [changeTemplate String.eqb Ascii.eqb Bool.eqb
       bind toggleSolarSystem modify createParticles get sample].
  cbn [currentTemplate set_currentTemplate set_particles set_sunCore
       set_solarSystemEnabled drawn initialWorld].
  rewrite E.
  eexists. split; [reflexivity|]. cbn [install particles Points.colors].
  split; [exact Hlen|]. rewrite Hred. lra.
Qed.

(** ** What shape generation does keep *)

Section Generation.

Context {num : Type} {JS : JSNumber num}.

Variable particleCount : nat.
Variable random : nat -> num.

Lemma populate_lengths (fuel : nat) (key : string) (n i : nat) (b b' : Buffers) (k k' : nat) :
  length (bufPositions b) = n /\ length (bufColors b) = n ->
  populate particleCount random fuel key i b k = (Return b', k') ->
  length (bufPositions b') = n /\ length (bufColors b') = n.
Proof.
  intros [Hp Hc] E. unfold populate, bind in E.
  destruct (callTemplate particleCount random fuel key (scratch b) i k)
    as [[position| |] k1]; try discriminate.
  destruct (colorFor random key position k1) as [[color| |] k2]; try discriminate.
  unfold ret in E. inversion E; subst; clear E. cbn [bufPositions bufColors].
  rewrite storeVec_length, storeColor_length. split; congruence.
Qed.

Lemma compress_length (n i : nat) (a a' : list num) (k k' : nat) :
  length a = n -> compress random i a k = (Return a', k') -> length a' = n.
Proof.
  intros Ha E. unfold compress, bind, Math_random, ret in E.
  inversion E; subst; clear E. apply storeVec_length.
Qed.

(** Whenever shape generation returns, it returns [particleCount]
    positions, [particleCount] colours and [particleCount] compressed
    positions, three numbers each. *)
Lemma createArrays_lengths (fuel : nat) (key : string) (k k' : nat)
    (positions colors sphere : list num) :
  createArrays particleCount random fuel key k = (Return (positions, colors, sphere), k') ->
  length positions = particleCount * 3
  /\ length colors = particleCount * 3
  /\ length sphere = particleCount * 3.
Proof.
  unfold createArrays, bind, Float32Array. intros E.
  destruct (forLoop 0 particleCount (populate particleCount random fuel key) _ k)
    as [[b| |] k1] eqn:E1; try discriminate.
  destruct (forLoop 0 particleCount (compress random) _ k1)
    as [[a| |] k2] eqn:E2; try discriminate.
  unfold ret in E. inversion E; subst; clear E.
  pose proof (@forLoop_preserves nat Buffers
                (fun b => length (bufPositions b) = particleCount * 3
                          /\ length (bufColors b) = particleCount * 3)
                (populate particleCount random fuel key)) as Hpop.
  pose proof (@forLoop_preserves nat (list num)
                (fun a => length a = particleCount * 3) (compress random)) as Hcomp.
  assert (Hb : length (bufPositions b) = particleCount * 3
               /\ length (bufColors b) = particleCount * 3).
  { eapply Hpop; [| |exact E1].
    - intros i a s a' s' Ha Ea. eapply populate_lengths; eauto.
    - cbn [bufPositions bufColors]. rewrite !repeat_length. split; reflexivity. }
  assert (Hs : length sphere = particleCount * 3).
  { eapply Hcomp; [| |exact E2].
    - intros i a s a' s' Ha Ea. eapply compress_length; eauto.
    - apply repeat_length. }
  tauto.
Qed.

End Generation.

(** ** Shape generation returns *)

Section GenerationReturns.

Local Open Scope R_scope.

Variable particleCount : nat.
Variable random : nat -> R.

Ltac branches :=
  repeat match goal with
         | |- context [if ?c then _ else _] => destruct c
         end.

Lemma colorFor_returns (key : string) (position : Vector3.t R) (k : nat) :
  (forall j, 0 <= random j < 1) ->
  exists (c : Color.t R) (k' : nat), colorFor random key position k = (Return c, k').
Proof.
  intros Hrange. unfold colorFor.
  destruct (String.eqb key "saturn"); [|destruct (String.eqb key "earth")].
  - unfold getSaturnColor, bind, Math_random, ret. branches; eexists _, _; reflexivity.
  - unfold getEarthColor, bind, Math_random, ret. branches; eexists _, _; reflexivity.
  - destruct (getGalaxyColor_returns random position k (Hrange k)) as [c E]. eauto.
Qed.

(** Every template but saturn is a straight line of draws. *)
Lemma callTemplate_returns (fuel : nat) (key : string) (pos : Vector3.t R) (i k : nat) :
  In key ["galaxy"; "spiral"; "barred"; "sphere"; "heart"; "flower"; "earth";
          "buddha"; "fireworks"] ->
  exists (v : Vector3.t R) (k' : nat),
    callTemplate particleCount random fuel key pos i k = (Return v, k').
Proof.
  intros Hkey. simpl in Hkey.
  repeat (destruct Hkey as [<-|Hkey]; [unfold callTemplate; cbn [assoc templates String.eqb Ascii.eqb Bool.eqb]|]);
    [ unfold galaxy | unfold spiral | unfold barred | unfold sphere | unfold heart
    | unfold flower | unfold earth | unfold buddha | unfold fireworks | contradiction ];
    unfold bind, Math_random, ret; branches; eexists _, _; reflexivity.
Qed.

(** For draws in [0, 1) and every template of the registry but saturn,
    shape generation returns, with [particleCount] triples in each array. *)
Lemma createArrays_returns (fuel : nat) (key : string) (k : nat) :
  (forall j, 0 <= random j < 1) ->
  In key ["galaxy"; "spiral"; "barred"; "sphere"; "heart"; "flower"; "earth";
          "buddha"; "fireworks"] ->
  exists (positions colors sphere : list R) (k' : nat),
    createArrays particleCount random fuel key k = (Return (positions, colors, sphere), k')
    /\ length positions = (particleCount * 3)%nat
    /\ length colors = (particleCount * 3)%nat
    /\ length sphere = (particleCount * 3)%nat.
Proof.
  intros Hrange Hkey.
  assert (Hpop : forall (i : nat) (b : Buffers) (s : nat), True ->
             exists (b' : Buffers) (s' : nat),
               populate particleCount random fuel key i b s = (Return b', s') /\ True).
  { intros i b s _. unfold populate.
    destruct (@callTemplate_returns fuel key (scratch b) i s Hkey) as (v & s1 & E1).
    destruct (@colorFor_returns key v s1 Hrange) as (c & s2 & E2).
    unfold bind. rewrite E1, E2. unfold ret. eauto. }
  assert (Hcomp : forall (i : nat) (a : list R) (s : nat), True ->
             exists (a' : list R) (s' : nat),
               compress random i a s = (Return a', s') /\ True).
  { intros i a s _. destruct (compress_returns random i a s) as (a' & s' & E). eauto. }
  destruct (@forLoop_total nat Buffers (fun _ _ => True) _ Hpop particleCount 0
              {| scratch := Vector3.make (lit 0) (lit 0) (lit 0);
                 bufPositions := Float32Array (particleCount * 3);
                 bufColors := Float32Array (particleCount * 3) |} k I)
    as (b & k1 & E1 & _).
  destruct (@forLoop_total nat (list R) (fun _ _ => True) _ Hcomp particleCount 0
              (Float32Array (particleCount * 3)) k1 I)
    as (sphere & k2 & E2 & _).
  assert (E : createArrays particleCount random fuel key k
              = (Return (bufPositions b, bufColors b, sphere), k2)).
  { unfold createArrays, bind. rewrite E1, E2. reflexivity. }
  exists (bufPositions b), (bufColors b), sphere, k2.
  split; [exact E|]. exact (createArrays_lengths _ _ _ _ _ E).
Qed.

End GenerationReturns.

(** The generic stellar colouring ends with a clamp: whenever it returns,
    every channel lies in [0, 1]. *)
Lemma getGalaxyColor_clamped (random : nat -> R) (position : Vector3.t R)
    (k k' : nat) (c : Color.t R) :
  getGalaxyColor random position k = (Return c, k') ->
  (0 <= Color.r c <= 1 /\ 0 <= Color.g c <= 1 /\ 0 <= Color.b c <= 1)%R.
Proof.
  intros E. unfold getGalaxyColor in E. unfold bind at 1 in E.
  match type of E with
  | (let (o, s') := ?X in _) = _ => destruct X as [[finalColor| |] k1]; try discriminate
  end.
  unfold bind, Math_random, ret, clamp01 in E. inversion E; subst; clear E.
  cbn [Color.r Color.g Color.b]. exact_arith.
  assert (Hclamp : forall v : R, (0 <= Rmax (0 / 10) (Rmin (10 / 10) v) <= 1)%R).
  { intros v. unfold Rmax, Rmin.
    destruct (Rle_dec (10 / 10) v); destruct (Rle_dec (0 / 10) _); lra. }
  repeat split; apply Hclamp.
Qed.

(** ** Special values of binary64 *)

Section NaN.

Local Open Scope float_scope.

Lemma float_is_nan (x : float) : Prim2SF x = S754_nan -> x = nan.
Proof. intros H. rewrite <- (SF2Prim_Prim2SF x), H. reflexivity. Qed.

Lemma add_nan_l (x : float) : nan + x = nan.
Proof. apply float_is_nan. rewrite FloatAxioms.add_spec. reflexivity. Qed.

Lemma add_nan_r (x : float) : x + nan = nan.
Proof. apply float_is_nan. rewrite FloatAxioms.add_spec. destruct (Prim2SF x); reflexivity. Qed.

Lemma sub_nan_l (x : float) : nan - x = nan.
Proof. apply float_is_nan. rewrite FloatAxioms.sub_spec. reflexivity. Qed.

Lemma sub_nan_r (x : float) : x - nan = nan.
Proof. apply float_is_nan. rewrite FloatAxioms.sub_spec. destruct (Prim2SF x); reflexivity. Qed.

Lemma mul_nan_l (x : float) : nan * x = nan.
Proof. apply float_is_nan. rewrite FloatAxioms.mul_spec. reflexivity. Qed.

Lemma mul_nan_r (x : float) : x * nan = nan.
Proof. apply float_is_nan. rewrite FloatAxioms.mul_spec. destruct (Prim2SF x); reflexivity. Qed.

Lemma ltb_nan_l (x : float) : (nan <? x) = false.
Proof. rewrite FloatAxioms.ltb_spec. reflexivity. Qed.

(** The factor [scaleVar] of a compressed point at the origin: 0/0 is NaN,
    and NaN goes through the sines, the cosine and the sums. *)
Lemma scaleVarOf_origin (L : Binary64.Libm) (t : float) (sx sy sz : bool) :
  scaleVarOf (JS := Binary64.number L) t
    (if sx then - 0 else 0) (if sy then - 0 else 0) (if sz then - 0 else 0) = nan.
Proof.
  unfold scaleVarOf.
  cbn [mul add sub div lit Math_sqrt Math_sin Math_cos Binary64.number].
  set (bx := if sx then - 0 else 0).
  set (by_ := if sy then - 0 else 0).
  set (bz := if sz then - 0 else 0).
  replace (bx / PrimFloat.sqrt (bx * bx + by_ * by_ + bz * bz)) with nan
    by (subst bx by_ bz; destruct sx, sy, sz; reflexivity).
  replace (by_ / PrimFloat.sqrt (bx * bx + by_ * by_ + bz * bz)) with nan
    by (subst bx by_ bz; destruct sx, sy, sz; reflexivity).
  replace (bz / PrimFloat.sqrt (bx * bx + by_ * by_ + bz * bz)) with nan
    by (subst bx by_ bz; destruct sx, sy, sz; reflexivity).
  repeat first [ rewrite mul_nan_l | rewrite add_nan_l | rewrite sub_nan_l
               | rewrite add_nan_r
               | progress (change (Binary64.special nan) with true; cbv iota) ].
  reflexivity.
Qed.

(** The blend towards NaN is NaN, and so is what the store keeps of it. *)
Lemma blend_nan (L : Binary64.Libm) (current : float) :
  fround (JSNumber := Binary64.number L) (blend (JS := Binary64.number L) current nan) = nan.
Proof.
  unfold blend. cbn [mul add sub fround Binary64.number].
  rewrite sub_nan_l, mul_nan_l, add_nan_r. reflexivity.
Qed.

(** A number that is neither NaN nor infinite, times a zero, is a zero. *)
Lemma special_false_cases (x : float) :
  Binary64.special x = false ->
  (exists s, Prim2SF x = S754_zero s) \/ (exists s m e, Prim2SF x = S754_finite s m e).
Proof.
  intros H. destruct (Prim2SF x) as [s|s| |s m e] eqn:E; eauto.
  - assert (Hx : x = SF2Prim (S754_infinity s))
      by (rewrite <- E; symmetry; apply SF2Prim_Prim2SF).
    subst x. destruct s; discriminate.
  - apply float_is_nan in E. subst x. discriminate.
Qed.

Lemma Prim2SF_zero (s : bool) : Prim2SF (if s then - 0 else 0) = S754_zero s.
Proof. destruct s; reflexivity. Qed.

Lemma float_is_zero (x : float) (s : bool) :
  Prim2SF x = S754_zero s -> x = (if s then - 0 else 0).
Proof. intros H. rewrite <- (SF2Prim_Prim2SF x), H. destruct s; reflexivity. Qed.

Lemma mul_zero_r (x : float) (s : bool) :
  Binary64.special x = false ->
  exists s' : bool, x * (if s then - 0 else 0) = (if s' then - 0 else 0).
Proof.
  intros H.
  destruct (special_false_cases x H) as [[sx E]|(sx & m & e & E)];
    exists (xorb sx s); apply float_is_zero;
    rewrite FloatAxioms.mul_spec, E, Prim2SF_zero; reflexivity.
Qed.

Lemma mul_zero_l (x : float) (s : bool) :
  Binary64.special x = false ->
  exists s' : bool, (if s then - 0 else 0) * x = (if s' then - 0 else 0).
Proof.
  intros H.
  destruct (special_false_cases x H) as [[sx E]|(sx & m & e & E)];
    exists (xorb s sx); apply float_is_zero;
    rewrite FloatAxioms.mul_spec, E, Prim2SF_zero; reflexivity.
Qed.

End NaN.

(** ** The closed morph at the origin *)

Section ClosedMorphOrigin.

Local Open Scope float_scope.

Variable L : Binary64.Libm.

Lemma morphClosed_origin (t cx cy cz : float) (sx sy sz : bool) :
  morphClosed (JS := Binary64.number L) t [zero sx; zero sy; zero sz] 0 [cx; cy; cz]
  = [nan; nan; nan].
Proof.
  unfold morphClosed, store, load. cbn [nth update Nat.mul Nat.add].
  unfold zero. rewrite scaleVarOf_origin.
  change (mul (JSNumber := Binary64.number L)) with PrimFloat.mul.
  rewrite !mul_nan_r, !blend_nan. reflexivity.
Qed.

(** C5, at a failing input.  In a session of one particle whose compressed
    position is the origin (a radius draw of exactly 0; the zeros may carry
    either sign), a frame of the closed gesture returns with NaN written
    into the three coordinates of the positions buffer, whatever the clock,
    the current position, the draws and the libm. *)
Theorem animate_closed_origin_writes_NaN (random : nat -> float)
    (t cx cy cz : float) (sx sy sz : bool) :
  exists w' : @World float,
    animate (JS := Binary64.number L) 1 random (closedAtOrigin L t cx cy cz sx sy sz)
    = (Return tt, w')
    /\ Points.positions (particles w') = [nan; nan; nan]
    /\ PrimFloat.is_nan (load (JS := Binary64.number L) (Points.positions (particles w')) 0)
       = true.
Proof.
  destruct (@animate_closed float (Binary64.number L) 1 random
              (closedAtOrigin L t cx cy cz sx sy sz))
    as (w' & E & Hp); [reflexivity | reflexivity |].
  exists w'. split; [exact E|].
  rewrite Hp.
  change (Points.positions (particles (closedAtOrigin L t cx cy cz sx sy sz)))
    with [cx; cy; cz].
  change (spherePositions (closedAtOrigin L t cx cy cz sx sy sz))
    with [zero sx; zero sy; zero sz].
  cbn [loop seq fold_left].
  rewrite morphClosed_origin. split; reflexivity.
Qed.

Lemma morphClosed_origin_iterated (t cx cy cz : float) (sx sy sz : bool) (n : nat) :
  Nat.iter (Datatypes.S n)
           (morphClosed (JS := Binary64.number L) t [zero sx; zero sy; zero sz] 0)
           [cx; cy; cz]
  = [nan; nan; nan].
Proof.
  induction n as [|n IH].
  - apply morphClosed_origin.
  - change (Nat.iter (Datatypes.S (Datatypes.S n)) ?f ?x)
      with (f (Nat.iter (Datatypes.S n) f x)).
    rewrite IH. apply morphClosed_origin.
Qed.

(** C9, at a failing input.  For a particle whose compressed position is
    the origin the target of the blend is NaN; from any start and at any
    fixed clock, every coordinate is NaN after each number of iterations
    from 1 on, and the test that its distance to the target is below
    epsilon fails for every epsilon. *)
Theorem morphClosed_origin_never_within_epsilon
    (t cx cy cz epsilon : float) (sx sy sz : bool) (n : nat) :
  let sphere := [zero sx; zero sy; zero sz] in
  let positions :=
    Nat.iter (Datatypes.S n) (morphClosed (JS := Binary64.number L) t sphere 0) [cx; cy; cz] in
  let scaleVar := scaleVarOf (JS := Binary64.number L) t (zero sx) (zero sy) (zero sz) in
  positions = [nan; nan; nan]
  /\ (PrimFloat.abs (nth 0 positions nan - zero sx * scaleVar) <? epsilon) = false
  /\ (PrimFloat.abs (nth 1 positions nan - zero sy * scaleVar) <? epsilon) = false
  /\ (PrimFloat.abs (nth 2 positions nan - zero sz * scaleVar) <? epsilon) = false.
Proof.
  cbv zeta. rewrite morphClosed_origin_iterated.
  split; [reflexivity|]. cbn [nth].
  rewrite !sub_nan_l. change (PrimFloat.abs nan) with nan.
  rewrite ltb_nan_l. repeat split.
Qed.

(** How the origin gets into the compressed positions: with a radius draw
    of 0, and sines and cosines that are numbers, the point that
    [createParticles] builds is a zero vector, and the array keeps it. *)
Lemma compressed_point_radius_zero (phi theta : float) :
  Binary64.special (Math_sin (JSNumber := Binary64.number L) phi) = false ->
  Binary64.special (Math_cos (JSNumber := Binary64.number L) phi) = false ->
  Binary64.special (Math_sin (JSNumber := Binary64.number L) theta) = false ->
  Binary64.special (Math_cos (JSNumber := Binary64.number L) theta) = false ->
  exists sx sy sz : bool,
    setFromSphericalCoords (JS := Binary64.number L)
      (mul (JSNumber := Binary64.number L) 0 (lit (JSNumber := Binary64.number L) 30))
      phi theta
    = Vector3.make (zero sx) (zero sy) (zero sz)
    /\ storeVec (JS := Binary64.number L) [0; 0; 0] 0
         (Vector3.make (zero sx) (zero sy) (zero sz))
       = [zero sx; zero sy; zero sz].
Proof.
  intros Hsp Hcp Hst Hct.
  unfold setFromSphericalCoords.
  change (mul (JSNumber := Binary64.number L)) with PrimFloat.mul.
  change (0 * lit (JSNumber := Binary64.number L) 30) with (if false then - 0 else 0).
  destruct (mul_zero_r _ false Hsp) as [s1 E1]. rewrite E1.
  destruct (mul_zero_l _ s1 Hst) as [sx Ex]. rewrite Ex.
  destruct (mul_zero_r _ false Hcp) as [sy Ey]. rewrite Ey.
  destruct (mul_zero_l _ s1 Hct) as [sz Ez]. rewrite Ez.
  exists sx, sy, sz. split; [reflexivity|].
  destruct sx, sy, sz; reflexivity.
Qed.

End ClosedMorphOrigin.

(** ** The closed morph away from the origin, in exact arithmetic *)

Section Convergence.

Local Open Scope R_scope.

Lemma blend_distance (current target : R) :
  blend current target - target = 0.92 * (current - target).
Proof. unfold blend, morphSpeed. exact_arith. lra. Qed.

Lemma blend_iter_distance (n : nat) (current target : R) :
  Nat.iter n (fun c => blend c target) current - target = 0.92 ^ n * (current - target).
Proof.
  induction n as [|n IH].
  - simpl. lra.
  - change (Nat.iter (Datatypes.S n) ?f ?x) with (f (Nat.iter n f x)). cbv beta.
    rewrite blend_distance, IH. simpl pow. ring.
Qed.

(** Each blend multiplies the distance to a fixed target by 0.92, so the
    distance falls below every positive bound, and stays there. *)
Lemma blend_converges (current target epsilon : R) :
  0 < epsilon ->
  exists N : nat, forall n : nat, (N <= n)%nat ->
    Rabs (Nat.iter n (fun c => blend c target) current - target) < epsilon.
Proof.
  intros Heps.
  assert (Hd : 0 < Rabs (current - target) + 1) by (pose proof (Rabs_pos (current - target)); lra).
  destruct (pow_lt_1_zero 0.92) with (y := epsilon / (Rabs (current - target) + 1))
    as [N HN].
  - rewrite Rabs_right; lra.
  - apply Rdiv_lt_0_compat; assumption.
  - exists N. intros n Hn.
    rewrite blend_iter_distance, Rabs_mult.
    specialize (HN n Hn).
    pose proof (Rabs_pos (current - target)) as Hpos.
    pose proof (Rabs_pos (0.92 ^ n)) as Hpow.
    assert (Hm : Rabs (0.92 ^ n) * (Rabs (current - target) + 1) < epsilon).
    { apply (Rmult_lt_compat_r (Rabs (current - target) + 1)) in HN; [|exact Hd].
      unfold Rdiv in HN. rewrite Rmult_assoc, Rinv_l, Rmult_1_r in HN by lra.
      exact HN. }
    nra.
Qed.

(** One particle: a frame of the closed gesture blends each coordinate
    towards the compressed coordinate times [scaleVar]. *)
Lemma morphClosed_blends (t bx by_ bz cx cy cz : R) :
  let scaleVar := scaleVarOf t bx by_ bz in
  morphClosed t [bx; by_; bz] 0 [cx; cy; cz]
  = [blend cx (bx * scaleVar); blend cy (by_ * scaleVar); blend cz (bz * scaleVar)].
Proof. reflexivity. Qed.

Lemma morphClosed_iterated (t bx by_ bz cx cy cz : R) (n : nat) :
  let scaleVar := scaleVarOf t bx by_ bz in
  Nat.iter n (morphClosed t [bx; by_; bz] 0) [cx; cy; cz]
  = [ Nat.iter n (fun c => blend c (bx * scaleVar)) cx;
      Nat.iter n (fun c => blend c (by_ * scaleVar)) cy;
      Nat.iter n (fun c => blend c (bz * scaleVar)) cz ].
Proof.
  cbv zeta. induction n as [|n IH]; [reflexivity|].
  change (Nat.iter (Datatypes.S n) ?f ?x) with (f (Nat.iter n f x)).
  rewrite IH. apply morphClosed_blends.
Qed.

(** What the blend is written to do, without rounding: away from the
    origin, where the target is a number, at a fixed clock and from any
    start, the three coordinates of the particle come within every epsilon
    of their targets after finitely many frames.  (In the binary32 buffer
    of the script a coordinate can stop a rounding step short of its
    target.) *)
Lemma morphClosed_converges (t bx by_ bz cx cy cz epsilon : R) :
  0 < bx * bx + by_ * by_ + bz * bz ->
  0 < epsilon ->
  let scaleVar := scaleVarOf t bx by_ bz in
  exists N : nat, forall n : nat, (N <= n)%nat ->
    let positions := Nat.iter n (morphClosed t [bx; by_; bz] 0) [cx; cy; cz] in
    Rabs (nth 0 positions 0 - bx * scaleVar) < epsilon
    /\ Rabs (nth 1 positions 0 - by_ * scaleVar) < epsilon
    /\ Rabs (nth 2 positions 0 - bz * scaleVar) < epsilon.
Proof.
  intros _ Heps scaleVar.
  destruct (blend_converges cx (bx * scaleVar) Heps) as [Nx Hx].
  destruct (blend_converges cy (by_ * scaleVar) Heps) as [Ny Hy].
  destruct (blend_converges cz (bz * scaleVar) Heps) as [Nz Hz].
  exists (Nx + Ny + Nz)%nat. intros n Hn positions. subst positions.
  rewrite morphClosed_iterated. cbn [nth].
  repeat split; [apply Hx | apply Hy | apply Hz]; lia.
Qed.

End Convergence.
(** ** What a frame does and does not do *)

Section FrameEffect.

Context {num : Type} {JS : JSNumber num}.

Variable particleCount : nat.
Variable random : nat -> num.

(** A frame outside the solar-system view: the world before the morph is
    the world after the tint, exploded when the gesture is [peace]. *)
Lemma animate_outside (w : @World num) :
  solarSystemEnabled w = false ->
  let w0 := tintFrame (transform (tick w)) in
  exists w1 : @World num,
    animate particleCount random w
    = (Return tt, follow (coreFrame (morphFrame particleCount w1)))
    /\ ((handGesture (hand w) = peace
         /\ exists positions' : list num,
              w1 = set_particles (set_positions positions' (particles w0))
                     (set_drawn (drawn w + 3 * ((length (Points.positions (particles w)) + 2) / 3))
                                w0)
              /\ length positions' = length (Points.positions (particles w)))
        \/ (handGesture (hand w) <> peace /\ w1 = w0)).
Proof.
  intros Es w0. unfold animate, bind, modify, get.
  replace (solarSystemEnabled (tick w)) with false by (symmetry; exact Es).
  replace (handGesture (hand (tintFrame (transform (tick w)))))
    with (handGesture (hand w)) by reflexivity.
  destruct (handGesture (hand w)) eqn:Eg; cbn [gesture_eqb].
  1-3: exists w0; split; [reflexivity|]; right; split; [discriminate | reflexivity].
  destruct (explodeUniverse_points random w0) as (w' & E & Hw & Hd & Hl & _).
  fold w0. rewrite E. exists w'. split; [reflexivity|]. left. split; [reflexivity|].
  exists (Points.positions (particles w')). split; [|exact Hl].
  rewrite Hw at 1. rewrite Hd. reflexivity.
Qed.

(** A frame returns.  It advances the clock by 0.05 and leaves alone the
    current template, the view, every hand-tracking global, the mouse
    targets, the colours of the particles, and the base-shape and
    compressed-sphere arrays.  It draws random numbers only to explode:
    three for each particle, in a frame of the [peace] gesture outside the
    solar-system view. *)
Theorem animate_frame_effect (w : @World num) :
  exists w' : @World num,
    animate particleCount random w = (Return tt, w')
    /\ time w' = add (time w) (lit 0.05)
    /\ currentTemplate w' = currentTemplate w
    /\ solarSystemEnabled w' = solarSystemEnabled w
    /\ hand w' = hand w
    /\ isMouseDown w' = isMouseDown w
    /\ targetRotationX w' = targetRotationX w
    /\ targetRotationY w' = targetRotationY w
    /\ Points.colors (particles w') = Points.colors (particles w)
    /\ Points.visible (particles w') = Points.visible (particles w)
    /\ Points.inScene (particles w') = Points.inScene (particles w)
    /\ basePositions w' = basePositions w
    /\ spherePositions w' = spherePositions w
    /\ drawn w'
       = if negb (solarSystemEnabled w) && gesture_eqb (handGesture (hand w)) peace
         then drawn w + 3 * ((length (Points.positions (particles w)) + 2) / 3)
         else drawn w.
Proof.
  destruct (solarSystemEnabled w) eqn:Es.
  - exists (tick w). unfold animate, bind, modify, get.
    replace (solarSystemEnabled (tick w)) with true by (symmetry; exact Es).
    split; [reflexivity|]. cbn. repeat split; exact Es.
  - destruct (animate_outside w Es) as (w1 & E & [(Eg & positions' & -> & _)|(Eg & ->)]).
    + eexists. split; [exact E|]. rewrite Eg. cbn. repeat split; exact Es.
    + eexists. split; [exact E|]. cbn.
      destruct (handGesture (hand w)); try contradiction; repeat split; exact Es.
Qed.

(** The positions are written only by the morphs of the open and closed
    gestures and by the explosion: a frame in the solar-system view, or of
    the neutral gesture, leaves every particle where it is. *)
Theorem animate_neutral_keeps_positions (w : @World num) :
  solarSystemEnabled w = true \/ handGesture (hand w) = neutral ->
  exists w' : @World num,
    animate particleCount random w = (Return tt, w')
    /\ Points.positions (particles w') = Points.positions (particles w).
Proof.
  intros H. destruct (solarSystemEnabled w) eqn:Es.
  - exists (tick w). unfold animate, bind, modify, get.
    replace (solarSystemEnabled (tick w)) with true by (symmetry; exact Es).
    split; reflexivity.
  - destruct H as [H|Eg]; [discriminate|].
    destruct (animate_outside w Es) as (w1 & E & [(Egp & _)|(_ & ->)]); [congruence|].
    eexists. split; [exact E|].
    cbn [follow coreFrame morphFrame particles set_particles set_sunCore set_positions
         Points.positions].
    unfold morph.
    replace (handGesture (hand (tintFrame (transform (tick w)))))
      with (handGesture (hand w)) by reflexivity.
    rewrite Eg. reflexivity.
Qed.

(** The glow mesh copies the transform of the particle system before the
    particle system follows the hand: after a frame outside the
    solar-system view the core is where the particle system was before the
    frame, one step of the blend behind it, and has the particle system's
    new rotation. *)
Theorem animate_core_trails (w : @World num) :
  solarSystemEnabled w = false ->
  exists w' : @World num,
    animate particleCount random w = (Return tt, w')
    /\ Mesh.position (sunCore w') = Points.position (particles w)
    /\ Points.position (particles w')
       = Vector3_lerp (Points.position (particles w)) (targetHandPosition (hand w))
                      positionSmoothing
    /\ Mesh.rotation (sunCore w') = Points.rotation (particles w')
    /\ Points.rotation (particles w') = rotate w.
Proof.
  intros Es.
  destruct (animate_outside w Es) as (w1 & E & [(_ & positions' & -> & _)|(_ & ->)]);
    (eexists; split; [exact E|]); cbn; repeat split.
Qed.

End FrameEffect.

(** The globals after [init()], which have the neutral gesture. *)
Lemma animate_neutral_keeps_positions_witness :
  exists w' : @World R,
    animate 0 (fun _ => 0%R) initialWorld = (Return tt, w')
    /\ Points.positions (particles w') = [].
Proof.
  apply (@animate_neutral_keeps_positions R Exact.number 0 (fun _ => 0%R) initialWorld).
  right. reflexivity.
Defined.

Lemma animate_core_trails_witness :
  exists w' : @World R,
    animate 0 (fun _ => 0%R) initialWorld = (Return tt, w')
    /\ Mesh.position (sunCore w') = Points.position (particles initialWorld).
Proof.
  destruct (@animate_core_trails R Exact.number 0 (fun _ => 0%R) initialWorld)
    as (w' & E & H & _).
  - reflexivity.
  - exists w'. split; assumption.
Defined.

(** ** Selecting a template *)

Section TemplateSelection.

Context {num : Type} {JS : JSNumber num}.

Variable particleCount : nat.
Variable random : nat -> num.

(** Selecting 'solarsystem' switches to the solar-system view and hides
    the particle system and the glow mesh; it regenerates nothing: the
    current template, the buffers, the tint and the draws are as before. *)
Theorem changeTemplate_solarsystem (fuel : nat) (w : @World num) :
  exists w' : @World num,
    changeTemplate particleCount random fuel "solarsystem" w = (Return tt, w')
    /\ solarSystemEnabled w' = true
    /\ Points.visible (particles w') = false
    /\ Mesh.visible (sunCore w') = false
    /\ currentTemplate w' = currentTemplate w
    /\ Points.positions (particles w') = Points.positions (particles w)
    /\ Points.colors (particles w') = Points.colors (particles w)
    /\ Points.inScene (particles w') = Points.inScene (particles w)
    /\ material w' = material w
    /\ basePositions w' = basePositions w
    /\ spherePositions w' = spherePositions w
    /\ hand w' = hand w
    /\ time w' = time w
    /\ drawn w' = drawn w.
Proof.
  eexists. split; [reflexivity|]. cbn. repeat split.
Qed.

(** Whenever the selection of another template returns, it has left the
    solar-system view and installed a fresh particle system: the key is the
    current template; positions, colours and compressed positions hold
    three numbers for each particle, and the base shape is the positions;
    the particle system is visible, in the scene, and its rotation, scale
    and position are the initial ones; the tint is white again, whatever
    the colour picker had blended in, and the point size 1.9.  The hand
    tracking and the clock are not touched. *)
Theorem changeTemplate_installs (fuel : nat) (key : string) (w w' : @World num) :
  key <> "solarsystem" ->
  changeTemplate particleCount random fuel key w = (Return tt, w') ->
  currentTemplate w' = key
  /\ solarSystemEnabled w' = false
  /\ length (Points.positions (particles w')) = particleCount * 3
  /\ length (Points.colors (particles w')) = particleCount * 3
  /\ length (spherePositions w') = particleCount * 3
  /\ basePositions w' = Points.positions (particles w')
  /\ Points.visible (particles w') = true
  /\ Points.inScene (particles w') = true
  /\ Points.rotation (particles w') = Vector3.make (lit 0) (lit 0) (lit 0)
  /\ Points.scale (particles w') = Vector3.make (lit 1) (lit 1) (lit 1)
  /\ Points.position (particles w') = Vector3.make (lit 0) (lit 0) (lit 0)
  /\ material w' = Material.make (Color.make (lit 1) (lit 1) (lit 1)) (lit 1.9)
  /\ Mesh.visible (sunCore w') = true
  /\ hand w' = hand w
  /\ time w' = time w.
Proof.
  intros Hkey E. unfold changeTemplate in E.
  destruct (String.eqb key "solarsystem") eqn:Ek.
  { apply String.eqb_eq in Ek. contradiction. }
  cbv [bind toggleSolarSystem modify createParticles get sample] in E.
  cbn [currentTemplate set_currentTemplate set_particles set_sunCore
       set_solarSystemEnabled drawn] in E.
  destruct (createArrays particleCount random fuel key (drawn w))
    as [[[[positions colors] sphere]| |] k] eqn:Ea; try discriminate E.
  destruct (createArrays_lengths _ _ _ _ _ Ea) as (Hp & Hc & Hs).
  inversion E; subst w'; clear E. cbn. repeat split; assumption.
Qed.

End TemplateSelection.
(** ** Results without a hand *)

Section NoHand.

Context {num : Type} {JS : JSNumber num}.

(** With the lock on (the default), a result with no hand, or with more
    than two, clears the gesture history and the last hand position and
    keeps everything else: the smoothed gesture, the hand distance and the
    position and rotation targets stay as the last hand left them. *)
Theorem onResults_no_hand_locked (landmarks : option (list (list (Vector3.t num))))
    (w : @World num) :
  handCount landmarks <> 1 -> handCount landmarks <> 2 ->
  lockOnExit (hand w) = true ->
  exists w' : @World num,
    onResults landmarks w = (Return tt, w')
    /\ w' = set_hand (hand w') w
    /\ handGesture (hand w') = handGesture (hand w)
    /\ handDistance (hand w') = handDistance (hand w)
    /\ targetHandPosition (hand w') = targetHandPosition (hand w)
    /\ targetHandRotationZ (hand w') = targetHandRotationZ (hand w)
    /\ targetHandRotationY (hand w') = targetHandRotationY (hand w)
    /\ lockOnExit (hand w') = true
    /\ lastHandPosition (hand w') = None
    /\ gestureHistory (hand w') = [].
Proof.
  intros H1 H2 Hlock.
  destruct landmarks as [[|hand1 [|hand2 [|hand3 rest]]]|]; cbn in H1, H2; try lia;
    unfold onResults, bind, get, modify, ret; rewrite Hlock;
    (eexists; split; [reflexivity|]); cbn; repeat split; exact Hlock.
Qed.



End NoHand.

(** The globals after [init()], where the lock is on, and with the lock
    off. *)
Lemma onResults_no_hand_locked_witness :
  exists w' : @World R,
    onResults None initialWorld = (Return tt, w')
    /\ gestureHistory (hand w') = [].
Proof.
  destruct (@onResults_no_hand_locked R Exact.number None initialWorld)
    as (w' & E & H).
  - discriminate.
  - discriminate.
  - reflexivity.
  - exists w'. split; [exact E|]. apply H.
Defined.


(** ** What the handlers keep *)

Section Keeps.

Context {S : Type}.

Variable P : S -> Prop.

Lemma keeps_ret {A : Type} (a : A) : keeps P (ret a).
Proof. intros s o s' E. unfold ret in E. inversion E. subst. tauto. Qed.

Lemma keeps_throw {A : Type} (e : JSError) : keeps P (throw (A := A) e).
Proof. intros s o s' E. unfold throw in E. inversion E. subst. tauto. Qed.

Lemma keeps_get : keeps P get.
Proof. intros s o s' E. unfold get in E. inversion E. subst. tauto. Qed.

Lemma keeps_modify (f : S -> S) : (forall s, P s -> P (f s)) -> keeps P (modify f).
Proof. intros Hf s o s' E. unfold modify in E. inversion E. subst. apply Hf. Qed.

Lemma keeps_bind {A B : Type} (m : M S A) (k : A -> M S B) :
  keeps P m -> (forall a, keeps P (k a)) -> keeps P (bind m k).
Proof.
  intros Hm Hk s o s' E Hs. unfold bind in E.
  destruct (m s) as [[a|e|] s1] eqn:E1.
  - exact (Hk a s1 o s' E (Hm s _ s1 E1 Hs)).
  - inversion E. subst. exact (Hm s _ s' E1 Hs).
  - inversion E. subst. exact (Hm s _ s' E1 Hs).
Qed.

Lemma keeps_if {A : Type} (b : bool) (m1 m2 : M S A) :
  keeps P m1 -> keeps P m2 -> keeps P (if b then m1 else m2).
Proof. destruct b; tauto. Qed.

End Keeps.

Section HistoryBound.

Context {num : Type} {JS : JSNumber num}.

Variable particleCount : nat.
Variable random : nat -> num.

Lemma keeps_field (P : @World num -> Prop) (prop : string)
    (proj : Vector3.t num -> num) (handLandmarks : list (Vector3.t num)) (index : nat) :
  keeps P (field prop proj handLandmarks index).
Proof.
  unfold field. destruct (nth_error handLandmarks index);
    [apply keeps_ret | apply keeps_throw].
Qed.

Lemma keeps_sample (P : @World num -> Prop) {A : Type} (m : Rand A) :
  (forall k w, P w -> P (set_drawn k w)) -> keeps P (sample m).
Proof.
  intros Hd w o w' E Hw. unfold sample in E.
  destruct (m (drawn w)) as [o1 k]. inversion E. subst. apply Hd. exact Hw.
Qed.

Lemma keeps_isFingerExtended (P : @World num -> Prop)
    (handLandmarks : list (Vector3.t num)) (tip pip : nat) :
  keeps P (isFingerExtended handLandmarks tip pip).
Proof.
  unfold isFingerExtended.
  repeat (apply keeps_bind; [apply keeps_field | intros ?]). apply keeps_ret.
Qed.

Lemma keeps_detectGesture (P : @World num -> Prop) (handLandmarks : list (Vector3.t num)) :
  keeps P (detectGesture handLandmarks).
Proof.
  unfold detectGesture.
  repeat (apply keeps_bind; [apply keeps_isFingerExtended | intros ?]).
  repeat apply keeps_if; apply keeps_ret.
Qed.

Lemma keeps_smoothGesture (g : gesture) : keeps (@historyBounded num) (smoothGesture g).
Proof.
  unfold smoothGesture.
  apply keeps_bind; [|intros ?; apply keeps_bind; [apply keeps_get | intros ?; apply keeps_ret]].
  apply keeps_modify. intros w Hw. unfold historyBounded in *.
  cbn [hand set_hand gestureHistory set_gestureHistory].
  apply pushGesture_length. exact Hw.
Qed.

Lemma install_hand (arrays : list num * list num * list num) (w : @World num) :
  hand (install arrays w) = hand w.
Proof. destruct arrays as [[positions colors] sphere]. reflexivity. Qed.

Ltac history_kept :=
  repeat first
    [ apply keeps_ret | apply keeps_throw | apply keeps_get
    | apply keeps_field | apply keeps_detectGesture | apply keeps_smoothGesture
    | apply keeps_if
    | apply keeps_sample; intros ? ? ?; assumption
    | apply keeps_modify;
      intros ? ?; unfold historyBounded, gestureHistorySize in *;
      first [ rewrite install_hand; assumption | cbn; first [assumption | lia] ]
    | apply keeps_bind; [|intros ?] ].

Lemma keeps_onResults (landmarks : option (list (list (Vector3.t num)))) :
  keeps (@historyBounded num) (onResults landmarks).
Proof.
  unfold onResults, updateHandPosition, getHandRoll, getHandYaw.
  destruct landmarks as [[|hand1 [|hand2 [|hand3 rest]]]|]; history_kept.
Qed.

Lemma keeps_animate : keeps (@historyBounded num) (animate particleCount random).
Proof. unfold animate, explodeUniverse. history_kept. Qed.

Lemma keeps_changeTemplate (fuel : nat) (value : string) :
  keeps (@historyBounded num) (changeTemplate particleCount random fuel value).
Proof. unfold changeTemplate, toggleSolarSystem, createParticles. history_kept. Qed.

Lemma keeps_handler (fuel : nat) (e : event) :
  keeps (@historyBounded num) (handler particleCount random fuel e).
Proof.
  destruct e as [|value|selectedColor|checked|landmarks]; cbn [handler].
  - apply keeps_animate.
  - apply keeps_changeTemplate.
  - unfold changeColor. history_kept.
  - history_kept.
  - apply keeps_onResults.
Qed.

(** In a session the gesture history never holds more than
    [gestureHistorySize] = 5 samples: whatever the frames, selections and
    results of the pose source, in whatever order, and however the
    handlers end, the history that was within the bound stays within it. *)
Theorem run_history_bounded (fuel : nat) (events : list event) (w w' : @World num) :
  length (gestureHistory (hand w)) <= 5 ->
  run particleCount random fuel events w = Some w' ->
  length (gestureHistory (hand w')) <= 5.
Proof.
  revert w. induction events as [|e rest IH]; intros w Hw E; cbn [run] in E.
  - inversion E. subst. exact Hw.
  - destruct (handler particleCount random fuel e w) as [o w1] eqn:Eh.
    pose proof (@keeps_handler fuel e w o w1 Eh Hw) as Hw1.
    destruct o; try discriminate E; exact (IH w1 Hw1 E).
Qed.

End HistoryBound.
(** ** Comparisons and the clamp in binary64 *)

Section Binary64Order.

Lemma SFcompare_antisym (x y : spec_float) :
  SFcompare y x = option_map CompOpp (SFcompare x y).
Proof.
  destruct x as [sx|sx| |sx mx ex], y as [sy|sy| |sy my ey]; cbn [SFcompare option_map];
    try reflexivity;
    try (destruct sx; reflexivity); try (destruct sy; reflexivity);
    try (destruct sx, sy; reflexivity).
  pose proof (Pos.compare_cont_antisym mx my Eq) as Hm. cbn [CompOpp] in Hm.
  destruct sx, sy; try reflexivity; f_equal;
    rewrite (Z.compare_antisym ex ey);
    destruct (Z.compare ex ey); cbn [CompOpp]; try reflexivity;
    rewrite <- Hm; destruct (Pos.compare_cont Eq mx my); reflexivity.
Qed.

Lemma is_nan_false (x : float) : PrimFloat.is_nan x = false -> Prim2SF x <> S754_nan.
Proof.
  unfold PrimFloat.is_nan. rewrite FloatAxioms.eqb_spec. intros H E.
  rewrite E in H. discriminate H.
Qed.

Lemma compare_defined (x y : float) :
  PrimFloat.is_nan x = false -> PrimFloat.is_nan y = false ->
  exists c : comparison,
    SFcompare (Prim2SF x) (Prim2SF y) = Some c
    /\ SFcompare (Prim2SF y) (Prim2SF x) = Some (CompOpp c).
Proof.
  intros Hx Hy. apply is_nan_false in Hx. apply is_nan_false in Hy.
  rewrite (SFcompare_antisym (Prim2SF x) (Prim2SF y)).
  destruct (SFcompare (Prim2SF x) (Prim2SF y)) as [c|] eqn:E.
  - exists c. split; reflexivity.
  - exfalso. destruct (Prim2SF x) as [sx|sx| |sx mx ex], (Prim2SF y) as [sy|sy| |sy my ey];
      try discriminate E; congruence.
Qed.

Lemma ltb_leb (x y : float) : PrimFloat.ltb x y = true -> PrimFloat.leb x y = true.
Proof.
  rewrite FloatAxioms.ltb_spec, FloatAxioms.leb_spec. unfold SFltb, SFleb.
  destruct (SFcompare (Prim2SF x) (Prim2SF y)) as [[| |]|]; congruence.
Qed.

Lemma not_ltb_leb (x y : float) :
  PrimFloat.is_nan x = false -> PrimFloat.is_nan y = false ->
  PrimFloat.ltb x y = false -> PrimFloat.leb y x = true.
Proof.
  intros Hx Hy. destruct (compare_defined x y Hx Hy) as (c & E1 & E2).
  rewrite FloatAxioms.ltb_spec, FloatAxioms.leb_spec. unfold SFltb, SFleb.
  rewrite E1, E2. destruct c; cbn; congruence.
Qed.

(** [Math.max(0, Math.min(1, v))] is NaN, or between 0 and 1. *)
Lemma clamp_unit (v : float) :
  let r := Binary64.max 0 (Binary64.min 1 v) in
  (PrimFloat.is_nan v = true /\ PrimFloat.is_nan r = true)
  \/ (PrimFloat.is_nan v = false
      /\ PrimFloat.leb 0 r = true /\ PrimFloat.leb r 1 = true).
Proof.
  cbv zeta. destruct (PrimFloat.is_nan v) eqn:Hv.
  - left. split; [reflexivity|].
    unfold Binary64.min. rewrite Hv. cbn [orb]. 
    change (PrimFloat.is_nan 1) with false. cbn [orb]. reflexivity.
  - right. split; [reflexivity|].
    assert (Hm : exists m, Binary64.min 1 v = m /\ PrimFloat.is_nan m = false
                           /\ PrimFloat.leb m 1 = true).
    { unfold Binary64.min. rewrite Hv. change (PrimFloat.is_nan 1) with false. cbn [orb].
      change (Binary64.is_neg_zero 1) with false.
      destruct (PrimFloat.ltb 1 v) eqn:E1.
      - exists 1%float. repeat split.
      - exists v. split; [destruct (PrimFloat.ltb v 1); reflexivity|].
        split; [exact Hv|]. apply not_ltb_leb; [reflexivity | exact Hv | exact E1]. }
    destruct Hm as (m & -> & Hm & Hle).
    unfold Binary64.max. rewrite Hm. change (PrimFloat.is_nan 0) with false. cbn [orb].
    change (Binary64.is_neg_zero 0) with false.
    destruct (PrimFloat.ltb 0 m) eqn:E0.
    + split; [apply ltb_leb; exact E0 | exact Hle].
    + destruct (PrimFloat.ltb m 0); split; reflexivity.
Qed.

End Binary64Order.

(** ** Clamped values *)

Section Clamped.

Variable L : Binary64.Libm.

Lemma clamp01_unitOrNaN (v : float) : unitOrNaN (clamp01 (JS := Binary64.number L) v).
Proof.
  unfold unitOrNaN.
  change (clamp01 (JS := Binary64.number L) v) with (Binary64.max 0 (Binary64.min 1 v)).
  destruct (clamp_unit v) as [[_ H]|[_ H]]; [left | right]; exact H.
Qed.

(** On the numbers of the script, the clamp that ends the stellar
    colouring does its work: every channel of a colour that
    [getGalaxyColor] returns is between 0 and 1, or is NaN. *)
Theorem getGalaxyColor_channels_binary64 (random : nat -> float)
    (position : Vector3.t float) (k k' : nat) (c : Color.t float) :
  getGalaxyColor (JS := Binary64.number L) random position k = (Return c, k') ->
  unitOrNaN (Color.r c) /\ unitOrNaN (Color.g c) /\ unitOrNaN (Color.b c).
Proof.
  intros E. unfold getGalaxyColor in E. unfold bind at 1 in E.
  match type of E with
  | (let (o, s') := ?X in _) = _ => destruct X as [[finalColor| |] k1]; try discriminate
  end.
  unfold bind, Math_random, ret in E. inversion E; subst; clear E.
  cbn [Color.r Color.g Color.b]. repeat split; apply clamp01_unitOrNaN.
Qed.


End Clamped.

(** Every draw 1/2, the particle at the origin. *)
Lemma getGalaxyColor_channels_binary64_witness :
  exists (c : Color.t float) (k' : nat),
    getGalaxyColor (JS := Binary64.number crudeLibm) (fun _ => 0.5%float)
                   (Vector3.make 0 0 0)%float 0 = (Return c, k')
    /\ unitOrNaN (Color.r c).
Proof.
  destruct (getGalaxyColor (JS := Binary64.number crudeLibm) (fun _ => 0.5%float)
              (Vector3.make 0 0 0)%float 0) as [[c|e|] k'] eqn:E;
    [| vm_compute in E; discriminate E | vm_compute in E; discriminate E].
  exists c, k'. split; [reflexivity|].
  exact (proj1 (@getGalaxyColor_channels_binary64 crudeLibm _ _ _ _ _ E)).
Defined.

(** ** Results with two hands, one of them without landmarks *)

Section TwoHands.

Context {num : Type} {JS : JSNumber num}.

(** A result with two hands of which one has no wrist landmark ends with
    the TypeError of the first read of [x], before any global is written. *)
Theorem onResults_two_hands_missing_wrist (hand1 hand2 : list (Vector3.t num))
    (w : @World num) :
  hand1 = [] \/ hand2 = [] ->
  onResults (Some [hand1; hand2]) w
  = (Throw (TypeError "Cannot read properties of undefined (reading 'x')"), w).
Proof.
  intros [-> | ->]; unfold onResults, bind, field; cbn [nth_error].
  - reflexivity.
  - destruct hand1; reflexivity.
Qed.

End TwoHands.

Lemma onResults_two_hands_missing_wrist_witness :
  onResults (num := R) (Some [[]; []]) initialWorld
  = (Throw (TypeError "Cannot read properties of undefined (reading 'x')"), initialWorld).
Proof.
  apply (@onResults_two_hands_missing_wrist R Exact.number [] [] initialWorld).
  left. reflexivity.
Defined.

(** ** The compressed sphere *)

Section CompressedSphere.

Variable L : Binary64.Libm.
Variable particleCount : nat.

(** [Math.random() * 30] is computed between 0 and 30. *)
Lemma compressedRadius_bounds (random : nat -> float) (k : nat) :
  PrimFloat.leb 0 (random k) = true -> PrimFloat.ltb (random k) 1 = true ->
  PrimFloat.leb 0 (compressedRadius (JS := Binary64.number L) random k) = true
  /\ PrimFloat.leb (compressedRadius (JS := Binary64.number L) random k) 30 = true.
Proof.
  intros H0 H1.
  exact (unit_scale_bounds (random k) 30 8444249301319680 (-48) eq_refl H0 H1).
Qed.

(** Whenever shape generation returns, for draws in [0, 1): the
    compressed-sphere array holds, for each particle in turn, the binary32
    rounding of the point with spherical coordinates computed from three
    consecutive draws, the last 3 N draws of the generation, and its
    radius is between 0 and 30. *)
Theorem createArrays_compressed_sphere (random : nat -> float) (fuel : nat) (key : string)
    (k k' : nat) (positions colors sphere : list float) :
  (forall j, PrimFloat.leb 0 (random j) = true /\ PrimFloat.ltb (random j) 1 = true) ->
  createArrays (JS := Binary64.number L) particleCount random fuel key k
  = (Return (positions, colors, sphere), k') ->
  exists k1 : nat,
    k' = k1 + 3 * particleCount
    /\ forall i : nat,
         i < particleCount ->
         let radius := compressedRadius (JS := Binary64.number L) random (k1 + 3 * i) in
         let p := compressedPoint (JS := Binary64.number L) random (k1 + 3 * i) in
         PrimFloat.leb 0 radius = true /\ PrimFloat.leb radius 30 = true
         /\ nth (i * 3) sphere nan = Binary64.Math_fround (Vector3.x p)
         /\ nth (i * 3 + 1) sphere nan = Binary64.Math_fround (Vector3.y p)
         /\ nth (i * 3 + 2) sphere nan = Binary64.Math_fround (Vector3.z p).
Proof.
  intros Hrange E. unfold createArrays, bind in E.
  destruct (forLoop 0 particleCount (populate particleCount random fuel key) _ k)
    as [[b| |] k1] eqn:E1; try discriminate E.
  destruct (@fill_loop float (Binary64.number L) (compress random)
              (compressedPoint (JS := Binary64.number L) random)
              (compress_step (JS := Binary64.number L) random)
              particleCount 0 (Float32Array (JS := Binary64.number L) (particleCount * 3)) k1)
    as (sphere' & E2 & Hlen & _ & Hnew).
  rewrite E2 in E. unfold ret in E. inversion E; subst; clear E.
  exists k1. split; [reflexivity|].
  intros i Hi radius p.
  destruct (Hrange (k1 + 3 * i)) as [H0 H1].
  destruct (compressedRadius_bounds random (k1 + 3 * i) H0 H1) as [Hlo Hhi].
  split; [exact Hlo|]. split; [exact Hhi|].
  assert (Hin : i * 3 + 2 < length (Float32Array (JS := Binary64.number L) (particleCount * 3))).
  { unfold Float32Array. rewrite repeat_length. lia. }
  destruct (Hnew i nan ltac:(lia) Hin) as (Hx & Hy & Hz).
  rewrite Nat.sub_0_r in Hx, Hy, Hz. repeat split; assumption.
Qed.

End CompressedSphere.

(** One particle of the flower template, every draw 1/2. *)
Lemma createArrays_compressed_sphere_witness :
  exists (positions colors sphere : list float) (k' : nat),
    createArrays (JS := Binary64.number crudeLibm) 1 (fun _ => 0.5%float) 0 "flower" 0
    = (Return (positions, colors, sphere), k')
    /\ PrimFloat.leb (compressedRadius (JS := Binary64.number crudeLibm)
                       (fun _ => 0.5%float) 0) 30 = true.
Proof.
  destruct (createArrays (JS := Binary64.number crudeLibm) 1 (fun _ => 0.5%float) 0 "flower" 0)
    as [[[[positions colors] sphere]|e|] k'] eqn:E;
    [| vm_compute in E; discriminate E | vm_compute in E; discriminate E].
  exists positions, colors, sphere, k'. split; [reflexivity|].
  destruct (@createArrays_compressed_sphere crudeLibm 1 (fun _ => 0.5%float) 0 "flower"
              0 k' positions colors sphere) as (k1 & _ & H).
  - intros j. split; reflexivity.
  - exact E.
  - destruct (H 0 ltac:(lia)) as (_ & Hhi & _). exact Hhi.
Defined.

(** ** The sphere and fireworks templates *)

Section ShellTemplates.

Variable L : Binary64.Libm.
Variable particleCount : nat.

(** For draws in [0, 1), the sphere template places a particle at the
    point with spherical coordinates computed from its three draws, with a
    radius [Math.random() * 80 + 20] between 20 and 100, and the fireworks
    template likewise with a radius [Math.random() * 100] between 0 and
    100; neither looks at the particle index or at the position it is
    given. *)
Theorem sphere_fireworks_binary64 (random : nat -> float) (pos : Vector3.t float)
    (i k : nat) :
  PrimFloat.leb 0 (random k) = true -> PrimFloat.ltb (random k) 1 = true ->
  (let radius := (random k * 80 + 20)%float in
   sphere (JS := Binary64.number L) random pos i k
   = (Return (anglesPoint (JS := Binary64.number L) random radius k), k + 3)
   /\ PrimFloat.leb 20 radius = true /\ PrimFloat.leb radius 100 = true)
  /\ (let radius := (random k * 100)%float in
      fireworks (JS := Binary64.number L) random pos i k
      = (Return (anglesPoint (JS := Binary64.number L) random radius k), k + 3)
      /\ PrimFloat.leb 0 radius = true /\ PrimFloat.leb radius 100 = true).
Proof.
  intros H0 H1. cbv zeta. split; (split; [|]).
  - unfold sphere, bind, Math_random, ret, anglesPoint.
    rewrite setFromSphericalCoords_spherical.
    replace (k + 1) with (Datatypes.S k) by lia.
    replace (k + 2) with (Datatypes.S (Datatypes.S k)) by lia.
    replace (k + 3) with (Datatypes.S (Datatypes.S (Datatypes.S k))) by lia.
    reflexivity.
  - exact (unit_affine_bounds (random k) 80 20 100
             5629499534213120 (-46) 5629499534213120 (-48) 7036874417766400 (-46)
             eq_refl eq_refl eq_refl eq_refl H0 H1).
  - unfold fireworks, bind, Math_random, ret, anglesPoint.
    rewrite setFromSphericalCoords_spherical.
    replace (k + 1) with (Datatypes.S k) by lia.
    replace (k + 2) with (Datatypes.S (Datatypes.S k)) by lia.
    replace (k + 3) with (Datatypes.S (Datatypes.S (Datatypes.S k))) by lia.
    reflexivity.
  - exact (unit_scale_bounds (random k) 100 7036874417766400 (-46) eq_refl H0 H1).
Qed.

End ShellTemplates.

(** Every draw 1/2: the radii are 60 and 50. *)
Lemma sphere_fireworks_binary64_witness :
  PrimFloat.leb 20 (0.5 * 80 + 20)%float = true
  /\ PrimFloat.leb (0.5 * 100)%float 100 = true.
Proof.
  destruct (@sphere_fireworks_binary64 crudeLibm (fun _ => 0.5%float)
              (Vector3.make 0 0 0)%float 0 0 eq_refl eq_refl)
    as [(_ & H1 & _) (_ & _ & H2)].
  split; [exact H1 | exact H2].
Defined.

(** ** The colours of the earth template *)

Section EarthColour.

Variable L : Binary64.Libm.

Ltac earth_branches :=
  repeat match goal with
         | |- context [if ?c then _ else _] => destruct c
         end.

(** [getEarthColor] returns, after at most one draw, one of the eight
    colours of its palette, as written: unlike the stellar and the saturn
    colouring it scales nothing, and every channel is between 0 and 1. *)
Theorem getEarthColor_palette_binary64 (random : nat -> float)
    (position : Vector3.t float) (k : nat) :
  exists (c : Color.t float) (k' : nat),
    getEarthColor (JS := Binary64.number L) random position k = (Return c, k')
    /\ k <= k' <= k + 1
    /\ In c (earthPalette (JS := Binary64.number L))
    /\ inUnit (Color.r c) /\ inUnit (Color.g c) /\ inUnit (Color.b c).
Proof.
  unfold getEarthColor, bind, Math_random, ret. earth_branches;
    (eexists _, _; split; [reflexivity|]; split; [lia|]; split;
     [unfold earthPalette; simpl; tauto
     | unfold inUnit; repeat split; reflexivity]).
Qed.

End EarthColour.

(** ** Witnesses of the properties of template selection and of sessions *)

(** One particle of the flower template, every draw 1/2. *)
Lemma changeTemplate_installs_witness :
  exists w' : @World float,
    changeTemplate (JS := Binary64.number crudeLibm) 1 (fun _ => 0.5%float) 0 "flower"
                   (oneParticle crudeLibm) = (Return tt, w')
    /\ currentTemplate w' = "flower"
    /\ length (Points.positions (particles w')) = 3.
Proof.
  assert (E : changeTemplate (JS := Binary64.number crudeLibm) 1 (fun _ => 0.5%float) 0
                "flower" (oneParticle crudeLibm)
              = (Return tt,
                 snd (changeTemplate (JS := Binary64.number crudeLibm) 1 (fun _ => 0.5%float) 0
                        "flower" (oneParticle crudeLibm))))
    by (vm_compute; reflexivity).
  destruct (@changeTemplate_installs float (Binary64.number crudeLibm) 1 (fun _ => 0.5%float)
              0 "flower" (oneParticle crudeLibm) _ ltac:(discriminate) E)
    as (Hk & _ & Hl & _).
  eexists. split; [exact E|]. split; [exact Hk | exact Hl].
Defined.

(** A session of seven one-hand results with 21 landmarks at the origin,
    a frame, and a result without a hand. *)
Lemma run_history_bounded_witness :
  exists w' : @World float,
    run (JS := Binary64.number crudeLibm) 1 (fun _ => 0.5%float) 0
        (repeat (Results (Some [repeat (Vector3.make 0 0 0)%float 21])) 7
         ++ [Frame; Results None])
        (oneParticle crudeLibm) = Some w'
    /\ length (gestureHistory (hand w')) <= 5.
Proof.
  destruct (run (JS := Binary64.number crudeLibm) 1 (fun _ => 0.5%float) 0
              (repeat (Results (Some [repeat (Vector3.make 0 0 0)%float 21])) 7
               ++ [Frame; Results None])
              (oneParticle crudeLibm)) as [w'|] eqn:E;
    [| vm_compute in E; discriminate E].
  exists w'. split; [reflexivity|].
  apply (@run_history_bounded float (Binary64.number crudeLibm) 1 (fun _ => 0.5%float) 0
           (repeat (Results (Some [repeat (Vector3.make 0 0 0)%float 21])) 7
            ++ [Frame; Results None])
           (oneParticle crudeLibm) w'); [cbn; lia | exact E].
Defined.
